(** * Indicator engine and position risk management

    A shallow embedding of [strategy/data_analysis/indicators.py]
    (class [IndicatorEngine]) and [strategy/vnpy_strategies/base_template.py]
    (class [BaseStrategy]).

    Numbers.  Python and pandas compute on IEEE float64.  For the
    indicator engine the embedding idealises a finite float as a real
    number (no rounding, no signed zero) and keeps the three special
    values [nan], [+inf] and [-inf], because the code relies on them: a
    pandas column marks "undefined" with [nan], and numpy division by zero
    yields [inf] or [nan] instead of raising.  Python's own float division
    (used by [BaseStrategy]) raises [ZeroDivisionError].

    [BaseStrategy] is embedded twice.  [BaseStrategy] has its prices as
    real numbers and carries the order invariants of the extremes, which
    rounding does not touch.  [BaseStrategy64] has them as binary64
    values, each operation rounded as Python rounds it, and carries every
    statement that turns on a threshold test of [risk_management] or on
    the truncated quotient of [calculate_position]. *)

From Stdlib Require Import Floats.
From Stdlib Require Import Reals Lra Lia ZArith.
From stdpp Require Import base decidable option list strings pretty gmap fin_maps.

(** ** Decidable comparisons on the reals *)

#[global] Instance Rlt_decision : RelDecision Rlt := Rlt_dec.
#[global] Instance Rle_decision : RelDecision Rle := Rle_dec.
#[global] Instance Rgt_decision : RelDecision Rgt := Rgt_dec.
#[global] Instance Rge_decision : RelDecision Rge := Rge_dec.
#[global] Instance Req_decision : EqDecision R := Req_dec_T.

(** ** float64 cells *)

Module Float.

Inductive fl : Type :=
| NaN
| PInf
| NInf
| Fin (r : R).

Definition fneg (x : fl) : fl :=
  match x with
  | NaN => NaN
  | PInf => NInf
  | NInf => PInf
  | Fin r => Fin (- r)
  end.

Definition fadd (x y : fl) : fl :=
  match x, y with
  | NaN, _ | _, NaN => NaN
  | PInf, NInf | NInf, PInf => NaN
  | PInf, _ | _, PInf => PInf
  | NInf, _ | _, NInf => NInf
  | Fin a, Fin b => Fin (a + b)
  end.

Definition fsub (x y : fl) : fl := fadd x (fneg y).

(** The sign of a non-nan cell: [Lt], [Eq] or [Gt] with respect to zero. *)
Definition fsign (x : fl) : option comparison :=
  match x with
  | NaN => None
  | PInf => Some Gt
  | NInf => Some Lt
  | Fin r => Some (if decide (r < 0)%R then Lt else if decide (0 < r)%R then Gt else Eq)
  end.

Definition fmul (x y : fl) : fl :=
  match x, y with
  | Fin a, Fin b => Fin (a * b)
  | _, _ =>
      match fsign x, fsign y with
      | Some Eq, Some _ | Some _, Some Eq => NaN     (* inf * 0 *)
      | Some Gt, Some Gt | Some Lt, Some Lt => PInf
      | Some Gt, Some Lt | Some Lt, Some Gt => NInf
      | _, _ => NaN
      end
  end.

(** numpy division: a zero divisor gives [inf] (signed by the dividend) or,
    for [0/0], [nan]; nothing is raised. *)
Definition fdiv (x y : fl) : fl :=
  match x, y with
  | NaN, _ | _, NaN => NaN
  | Fin a, Fin b =>
      if decide (b = 0)%R then
        (if decide (0 < a)%R then PInf else if decide (a < 0)%R then NInf else NaN)
      else Fin (a / b)
  | Fin _, (PInf | NInf) => Fin 0
  | (PInf | NInf), (PInf | NInf) => NaN
  | PInf, Fin b => if decide (b < 0)%R then NInf else PInf
  | NInf, Fin b => if decide (b < 0)%R then PInf else NInf
  end.

Definition fabs (x : fl) : fl :=
  match x with
  | NaN => NaN
  | PInf | NInf => PInf
  | Fin r => Fin (Rabs r)
  end.

(** Comparisons: every comparison with [nan] is false. *)
Definition flt (x y : fl) : bool :=
  match x, y with
  | NaN, _ | _, NaN => false
  | _, NInf | PInf, _ => false
  | NInf, _ | _, PInf => true
  | Fin a, Fin b => bool_decide (a < b)%R
  end.

Definition fle (x y : fl) : bool :=
  match x, y with
  | NaN, _ | _, NaN => false
  | NInf, _ | _, PInf => true
  | _, NInf | PInf, _ => false
  | Fin a, Fin b => bool_decide (a <= b)%R
  end.

Definition fgt (x y : fl) : bool := flt y x.
Definition fge (x y : fl) : bool := fle y x.

End Float.
Export Float.

(** ** Exceptions *)

Inductive exn : Type :=
| KeyError (key : string)
| ValueError
| TypeError
| ZeroDivisionError
| OverflowError
| NotImplementedError.

Inductive result (A : Type) : Type :=
| Ok (a : A)
| Raise (e : exn).
Arguments Ok {A} a.
Arguments Raise {A} e.

(** ** pandas Series operations used by the engine *)

Module Pandas.

Abbreviation series := (list fl).

(** Element-wise arithmetic between aligned series and with scalars. *)
Definition sub (a b : series) : series := zip_with fsub a b.
Definition div (a b : series) : series := zip_with fdiv a b.
Definition add_scalar (c : fl) (a : series) : series := fadd c <$> a.
Definition rsub_scalar (c : fl) (a : series) : series := fsub c <$> a.
Definition rdiv_scalar (c : fl) (a : series) : series := fdiv c <$> a.
Definition mul_scalar (c : fl) (a : series) : series := fmul c <$> a.
Definition neg (a : series) : series := fneg <$> a.
Definition abs (a : series) : series := fabs <$> a.

Definition gt_scalar (a : series) (c : fl) : list bool := (λ x, fgt x c) <$> a.
Definition lt_scalar (a : series) (c : fl) : list bool := (λ x, flt x c) <$> a.
Definition ge_scalar (a : series) (c : fl) : list bool := (λ x, fge x c) <$> a.
Definition le_scalar (a : series) (c : fl) : list bool := (λ x, fle x c) <$> a.

(** [s.shift()]: every value moves one row down, row 0 becomes [nan]. *)
Definition shift (s : series) : series := take (length s) (NaN :: s).

(** [s.diff()] is [s - s.shift()]. *)
Definition diff (s : series) : series := sub s (shift s).

(** [s.where(cond, other)]: keep the value where [cond] holds, else [other]. *)
Definition where_ (s : series) (cond : list bool) (other : fl) : series :=
  zip_with (λ x (c : bool), if c then x else other) s cond.

(** Windowed and exponentially weighted aggregations first replace [inf]
    by [nan]; a [nan] is a missing observation. *)
Definition prep_value (x : fl) : option R :=
  match x with Fin r => Some r | _ => None end.

Definition observations (xs : series) : list R := omap prep_value xs.

(** Rows [max 0 (i+1-w) .. i] of [s]. *)
Definition window {A} (w i : nat) (s : list A) : list A :=
  drop (S i - w) (take (S i) s).

(** [s.rolling(window=w)] with the default [min_periods = w]: the
    aggregate is [nan] unless the window holds [w] observations. *)
Definition rolling (agg : list R → fl) (w : nat) (s : series) : series :=
  imap (λ i _, let obs := observations (window w i s) in
               if decide (w ≤ length obs) then agg obs else NaN) s.

(** [rolling(window=p)] raises for a negative window. *)
Definition check_window (p : Z) : result nat :=
  if decide (0 ≤ p)%Z then Ok (Z.to_nat p) else Raise ValueError.

Definition Rsum (xs : list R) : R := foldr Rplus 0%R xs.

Definition mean (xs : list R) : fl :=
  match xs with
  | [] => NaN
  | _ => Fin (Rsum xs / INR (length xs))
  end.

(** Sum of squared deviations from the mean. *)
Definition ssqdm (xs : list R) : R :=
  let m := (Rsum xs / INR (length xs))%R in
  Rsum ((λ x, (x - m) * (x - m))%R <$> xs).

(** [.var(ddof)] followed by the square root: pandas' [.std()] has
    [ddof = 1] unless told otherwise, and is [nan] when the window has no
    more than [ddof] observations. *)
Definition std_ddof (ddof : nat) (xs : list R) : fl :=
  if decide (length xs ≤ ddof) then NaN
  else Fin (sqrt (ssqdm xs / INR (length xs - ddof))).

Definition std (xs : list R) : fl := std_ddof 1 xs.

Definition Rminimum (xs : list R) : fl :=
  match xs with
  | [] => NaN
  | x :: xs' => Fin (foldr Rmin x xs')
  end.

Definition Rmaximum (xs : list R) : fl :=
  match xs with
  | [] => NaN
  | x :: xs' => Fin (foldr Rmax x xs')
  end.

Definition rolling_mean := rolling mean.
Definition rolling_std := rolling std.
Definition rolling_min := rolling Rminimum.
Definition rolling_max := rolling Rmaximum.

(** [s.ewm(alpha, adjust=False).mean()] (with the defaults
    [ignore_na=False], [min_periods=0]).  [weighted] is the running
    average ([None] before the first observation); [old_wt] is the
    weight of that average, which decays over missing rows. *)
Fixpoint ewm_loop (alpha : R) (weighted : option R) (old_wt : R)
    (vals : list (option R)) : series :=
  match vals with
  | [] => []
  | cur :: rest =>
      let '(weighted', old_wt') :=
        match weighted, cur with
        | Some w, Some c =>
            let ow := (old_wt * (1 - alpha))%R in
            (Some (if decide (w = c) then w
                   else ((ow * w + alpha * c) / (ow + alpha))%R), 1%R)
        | Some w, None => (Some w, (old_wt * (1 - alpha))%R)
        | None, Some c => (Some c, old_wt)
        | None, None => (None, old_wt)
        end in
      from_option Fin NaN weighted' :: ewm_loop alpha weighted' old_wt' rest
  end.

Definition ewm_mean (alpha : R) (s : series) : series :=
  match prep_value <$> s with
  | [] => []
  | v0 :: rest => from_option Fin NaN v0 :: ewm_loop alpha v0 1 rest
  end.

(** [ewm(alpha=a)] checks [0 < a <= 1]; [ewm(span=n)] checks [n >= 1] and
    uses [a = 2 / (n + 1)]. *)
Definition check_alpha (a : R) : result R :=
  if decide (0 < a ∧ a <= 1)%R then Ok a else Raise ValueError.

Definition alpha_of_span (span : Z) : result R :=
  if decide (1 ≤ span)%Z then Ok (2 / (IZR span + 1))%R else Raise ValueError.

(** Row-wise [max] over columns, skipping [nan]. *)
Definition nanmax (x y : fl) : fl :=
  match x, y with
  | NaN, _ => y
  | _, NaN => x
  | _, _ => if flt x y then y else x
  end.

Definition row_max (row : list fl) : fl := foldr nanmax NaN row.

Fixpoint max_axis1 (a b c : series) : series :=
  match a, b, c with
  | x :: a', y :: b', z :: c' => row_max [x; y; z] :: max_axis1 a' b' c'
  | _, _, _ => []
  end.

End Pandas.

(** ** DataFrames: a mutable table of named columns *)

Module Frame.
Import Pandas.

(** A column holds float64 or int64 numbers, or datetime64 stamps (kept
    as their integer count).  Reading a datetime column as a number is a
    [TypeError]. *)
Inductive column : Type :=
| Floats (s : series)
| Ints (l : list Z)
| Times (l : list Z).

Abbreviation DataFrame := (gmap string column).

(** The engine's functions mutate the frame they are given and may raise:
    a computation threads the frame and returns a value or an exception.
    What was written before an exception stays written. *)
Definition M (A : Type) : Type := DataFrame → DataFrame * result A.

#[global] Instance M_ret : MRet M := λ A a df, (df, Ok a).
#[global] Instance M_bind : MBind M := λ A B k m df,
  match m df with
  | (df', Ok a) => k a df'
  | (df', Raise e) => (df', Raise e)
  end.

Definition lift {A} (r : result A) : M A := λ df, (df, r).

Definition to_numeric (c : column) : result series :=
  match c with
  | Floats s => Ok s
  | Ints l => Ok ((λ z, Fin (IZR z)) <$> l)
  | Times _ => Raise TypeError
  end.

(** [df[name]] as an operand of arithmetic. *)
Definition getitem (name : string) : M series := λ df,
  match df !! name with
  | Some c => (df, to_numeric c)
  | None => (df, Raise (KeyError name))
  end.

(** [df[name] = values]. *)
Definition setitem (name : string) (c : column) : M unit := λ df,
  (<[name := c]> df, Ok tt).

(** [df.loc[mask, name] = v] for an integer [v]. *)
Definition loc_assign (mask : list bool) (name : string) (v : Z) : M unit := λ df,
  match df !! name with
  | Some (Ints l) =>
      (<[name := Ints (zip_with (λ (m : bool) x, if m then v else x) mask l)]> df, Ok tt)
  | Some (Floats s) =>
      (<[name := Floats (zip_with (λ (m : bool) x, if m then Fin (IZR v) else x) mask s)]> df,
       Ok tt)
  | Some (Times _) => (df, Raise TypeError)
  | None => (df, Raise (KeyError name))
  end.

Fixpoint for_each {A} (l : list A) (body : A → M unit) : M unit :=
  match l with
  | [] => mret tt
  | x :: l' => body x ;; for_each l' body
  end.

(** One row of market data, and the frame built from a bar series. *)
Record Bar : Type := mkBar {
  datetime : Z;
  open : R;
  high : R;
  low : R;
  close : R;
  volume : R
}.

Definition float_column (f : Bar → R) (bars : list Bar) : column :=
  Floats ((λ b, Fin (f b)) <$> bars).

Definition frame_of_bars (bars : list Bar) : DataFrame :=
  <["datetime" := Times (datetime <$> bars)]>
  (<["open" := float_column open bars]>
  (<["high" := float_column high bars]>
  (<["low" := float_column low bars]>
  (<["close" := float_column close bars]>
  (<["volume" := float_column volume bars]> ∅))))).

End Frame.

(** ** indicators.py: class IndicatorEngine *)

Module IndicatorEngine.
Import Pandas Frame.

(** The name [f'{prefix}{period}']. *)
Definition fname (prefix : string) (period : Z) : string := prefix +:+ pretty period.

Definition add_ma (periods : list Z) : M unit :=
  for_each periods (λ period,
    close ← getitem "close";
    w ← lift (check_window period);
    setitem (fname "ma" period) (Floats (rolling_mean w close))).

Definition add_ema (periods : list Z) : M unit :=
  for_each periods (λ period,
    close ← getitem "close";
    a ← lift (alpha_of_span period);
    setitem (fname "ema" period) (Floats (ewm_mean a close))).

Definition add_macd (fast slow signal : Z) : M unit :=
  close ← getitem "close";
  af ← lift (alpha_of_span fast);
  let ema_fast := ewm_mean af close in
  close ← getitem "close";
  asl ← lift (alpha_of_span slow);
  let ema_slow := ewm_mean asl close in
  setitem "macd_dif" (Floats (sub ema_fast ema_slow));;
  dif ← getitem "macd_dif";
  asg ← lift (alpha_of_span signal);
  setitem "macd_dea" (Floats (ewm_mean asg dif));;
  dif ← getitem "macd_dif";
  dea ← getitem "macd_dea";
  setitem "macd_hist" (Floats (mul_scalar (Fin 2) (sub dif dea))).

(** Python's [1/m] on integers: true division, raising on [m = 0]. *)
Definition one_over (m : Z) : result R :=
  if decide (m = 0)%Z then Raise ZeroDivisionError else Ok (1 / IZR m)%R.

Definition add_kdj (n m1 m2 : Z) : M unit :=
  low ← getitem "low";
  w ← lift (check_window n);
  let low_list := rolling_min w low in
  high ← getitem "high";
  let high_list := rolling_max w high in
  close ← getitem "close";
  let rsv := mul_scalar (Fin 100) (div (sub close low_list) (sub high_list low_list)) in
  a1 ← lift (one_over m1);
  a1 ← lift (check_alpha a1);
  setitem "kdj_k" (Floats (ewm_mean a1 rsv));;
  k ← getitem "kdj_k";
  a2 ← lift (one_over m2);
  a2 ← lift (check_alpha a2);
  setitem "kdj_d" (Floats (ewm_mean a2 k));;
  k ← getitem "kdj_k";
  d ← getitem "kdj_d";
  setitem "kdj_j" (Floats (sub (mul_scalar (Fin 3) k) (mul_scalar (Fin 2) d))).

(** The two rolling averages of [add_rsi] and the final formula. *)
Definition rsi_gain (w : nat) (close : series) : series :=
  let delta := diff close in
  rolling_mean w (where_ delta (gt_scalar delta (Fin 0)) (Fin 0)).

Definition rsi_loss (w : nat) (close : series) : series :=
  let delta := diff close in
  rolling_mean w (neg (where_ delta (lt_scalar delta (Fin 0)) (Fin 0))).

Definition rsi_of (gain loss : series) : series :=
  let rs := div gain loss in
  rsub_scalar (Fin 100) (rdiv_scalar (Fin 100) (add_scalar (Fin 1) rs)).

Definition add_rsi (periods : list Z) : M unit :=
  for_each periods (λ period,
    close ← getitem "close";
    w ← lift (check_window period);
    let gain := rsi_gain w close in
    let loss := rsi_loss w close in
    setitem (fname "rsi" period) (Floats (rsi_of gain loss))).

Definition add_boll (period : Z) (std : R) : M unit :=
  close ← getitem "close";
  w ← lift (check_window period);
  setitem "boll_mid" (Floats (rolling_mean w close));;
  close ← getitem "close";
  setitem "boll_std" (Floats (rolling_std w close));;
  mid ← getitem "boll_mid";
  sd ← getitem "boll_std";
  setitem "boll_up" (Floats (zip_with fadd mid (mul_scalar (Fin std) sd)));;
  mid ← getitem "boll_mid";
  sd ← getitem "boll_std";
  setitem "boll_down" (Floats (sub mid (mul_scalar (Fin std) sd))).

(** The local [true_range] of [add_atr].  The source reads [high], [low]
    and [close] twice each; the frame is not written in between, so the
    model reads each column once, in the order of their first use. *)
Definition true_range (high low close : series) : series :=
  let high_low := sub high low in
  let high_close := abs (sub high (shift close)) in
  let low_close := abs (sub low (shift close)) in
  max_axis1 high_low high_close low_close.

Definition add_atr (period : Z) : M unit :=
  high ← getitem "high";
  low ← getitem "low";
  close ← getitem "close";
  let tr := true_range high low close in
  w ← lift (check_window period);
  setitem (fname "atr" period) (Floats (rolling_mean w tr)).

(** The two masks of [detect_ma_cross]. *)
Definition golden_mask (ma_diff : series) : list bool :=
  zip_with andb (gt_scalar ma_diff (Fin 0)) (le_scalar (shift ma_diff) (Fin 0)).

Definition death_mask (ma_diff : series) : list bool :=
  zip_with andb (lt_scalar ma_diff (Fin 0)) (ge_scalar (shift ma_diff) (Fin 0)).

(** [len(df)]: every column of a frame has that many rows; the model reads
    it off the [ma_diff] column written on the line before. *)
Definition nrows (name : string) : M nat := λ df,
  match df !! name with
  | Some (Floats s) => (df, Ok (length s))
  | Some (Ints l) | Some (Times l) => (df, Ok (length l))
  | None => (df, Raise (KeyError name))
  end.

Definition detect_ma_cross (fast slow : Z) : M unit :=
  a ← getitem (fname "ma" fast);
  b ← getitem (fname "ma" slow);
  setitem "ma_diff" (Floats (sub a b));;
  n ← nrows "ma_diff";
  setitem "cross_signal" (Ints (replicate n 0%Z));;
  d ← getitem "ma_diff";
  loc_assign (golden_mask d) "cross_signal" 1%Z;;
  d ← getitem "ma_diff";
  loc_assign (death_mask d) "cross_signal" (-1)%Z.

Definition calculate_all : M unit :=
  add_ma [5; 10; 20; 60]%Z;;
  add_ema [12; 26]%Z;;
  add_macd 12 26 9;;
  add_kdj 9 3 3;;
  add_rsi [6; 12; 24]%Z;;
  add_boll 20 2;;
  add_atr 14.

End IndicatorEngine.

(** ** base_template.py: class BaseStrategy, on the reals *)

Module BaseStrategy.

(** The vn.py objects handed to the callbacks, reduced to the fields read. *)
Record BarData : Type := mkBarData {
  open_price : R;
  high_price : R;
  low_price : R;
  close_price : R;
  bar_volume : R
}.

Record TickData : Type := mkTickData {
  last_price : R;
  tick_high_price : R;
  tick_low_price : R
}.

Inductive Offset : Type := NONE | OPEN | CLOSE | CLOSETODAY | CLOSEYESTERDAY.
Inductive Direction : Type := LONG | SHORT | NET.

Record TradeData : Type := mkTradeData {
  offset : Offset;
  direction : Direction;
  price : R;
  trade_volume : R
}.

#[global] Instance Offset_eq_dec : EqDecision Offset.
Proof. solve_decision. Defined.
#[global] Instance Direction_eq_dec : EqDecision Direction.
Proof. solve_decision. Defined.

(** Parameters and variables of a strategy instance.  [pos] belongs to
    [CtaTemplate]: the engine updates it on a fill, before [on_trade]. *)
Record Strategy : Type := mkStrategy {
  risk_percent : R;
  max_position : Z;
  stop_loss_pct : R;
  take_profit_pct : R;
  current_price : R;
  entry_price : R;
  highest_price : R;
  lowest_price : fl;
  pos : Z
}.

(** The class attributes a fresh instance starts from. *)
Definition initial : Strategy :=
  {| risk_percent := 2; max_position := 100; stop_loss_pct := 5;
     take_profit_pct := 10; current_price := 0; entry_price := 0;
     highest_price := 0; lowest_price := PInf; pos := 0 |}.

Definition set_current_price (v : R) (s : Strategy) : Strategy :=
  {| risk_percent := risk_percent s; max_position := max_position s;
     stop_loss_pct := stop_loss_pct s; take_profit_pct := take_profit_pct s;
     current_price := v; entry_price := entry_price s;
     highest_price := highest_price s; lowest_price := lowest_price s;
     pos := pos s |}.

Definition set_entry_price (v : R) (s : Strategy) : Strategy :=
  {| risk_percent := risk_percent s; max_position := max_position s;
     stop_loss_pct := stop_loss_pct s; take_profit_pct := take_profit_pct s;
     current_price := current_price s; entry_price := v;
     highest_price := highest_price s; lowest_price := lowest_price s;
     pos := pos s |}.

Definition set_highest_price (v : R) (s : Strategy) : Strategy :=
  {| risk_percent := risk_percent s; max_position := max_position s;
     stop_loss_pct := stop_loss_pct s; take_profit_pct := take_profit_pct s;
     current_price := current_price s; entry_price := entry_price s;
     highest_price := v; lowest_price := lowest_price s;
     pos := pos s |}.

Definition set_lowest_price (v : fl) (s : Strategy) : Strategy :=
  {| risk_percent := risk_percent s; max_position := max_position s;
     stop_loss_pct := stop_loss_pct s; take_profit_pct := take_profit_pct s;
     current_price := current_price s; entry_price := entry_price s;
     highest_price := highest_price s; lowest_price := v;
     pos := pos s |}.

Definition set_pos (v : Z) (s : Strategy) : Strategy :=
  {| risk_percent := risk_percent s; max_position := max_position s;
     stop_loss_pct := stop_loss_pct s; take_profit_pct := take_profit_pct s;
     current_price := current_price s; entry_price := entry_price s;
     highest_price := highest_price s; lowest_price := lowest_price s;
     pos := v |}.

(** What a callback sends to the engine: log lines and orders.  A log
    line is identified by its fixed text; the number printed in it is kept. *)
Inductive log_message : Type :=
| StopLossTriggered (loss_pct : R)
| TrailingTakeProfitTriggered (drawdown_pct : R)
| OpenTradeFilled (d : Direction) (volume price : R)
| CloseTradeFilled (d : Direction) (volume price pnl : R).

Inductive action : Type :=
| write_log (msg : log_message)
| sell (price : R) (volume : Z)
| cover (price : R) (volume : Z).

(** Python's [max(a, b)] and [min(a, b)]: [a] unless [b] is strictly better. *)
Definition py_max (a b : R) : R := if decide (a < b)%R then b else a.
Definition py_min (a b : fl) : fl := if flt b a then b else a.

(** Python's float division raises on a zero divisor. *)
Definition py_div (a b : R) : result R :=
  if decide (b = 0)%R then Raise ZeroDivisionError else Ok (a / b)%R.

(** Python's [int(x)] truncates towards zero. *)
Definition py_int (x : R) : Z :=
  if decide (0 <= x)%R then Int_part x else (- Int_part (- x))%Z.

#[global] Instance result_ret : MRet result := λ A a, Ok a.
#[global] Instance result_bind : MBind result := λ A B k m,
  match m with
  | Ok a => k a
  | Raise e => Raise e
  end.

Definition on_tick (tick : TickData) (self : Strategy) : Strategy :=
  let self := set_current_price (last_price tick) self in
  if decide (pos self > 0)%Z then
    set_highest_price (py_max (highest_price self) (tick_high_price tick)) self
  else if decide (pos self < 0)%Z then
    set_lowest_price (py_min (lowest_price self) (Fin (tick_low_price tick))) self
  else self.

(** [risk_management] reads the instance and sends log lines and orders;
    it changes no attribute. *)
Definition risk_management (self : Strategy) (bar : BarData) : result (list action) :=
  if decide (pos self = 0)%Z then Ok []
  else if decide (pos self > 0)%Z then
    q ← py_div (entry_price self - close_price bar) (entry_price self);
    let loss_pct := (q * 100)%R in
    if decide (loss_pct >= stop_loss_pct self)%R then
      Ok [write_log (StopLossTriggered loss_pct);
          sell (close_price bar) (Z.abs (pos self))]
    else
      q ← py_div (highest_price self - close_price bar) (highest_price self);
      let drawdown_pct := (q * 100)%R in
      if decide (drawdown_pct >= take_profit_pct self)%R then
        Ok [write_log (TrailingTakeProfitTriggered drawdown_pct);
            sell (close_price bar) (Z.abs (pos self))]
      else Ok []
  else if decide (pos self < 0)%Z then
    q ← py_div (close_price bar - entry_price self) (entry_price self);
    let loss_pct := (q * 100)%R in
    if decide (loss_pct >= stop_loss_pct self)%R then
      Ok [write_log (StopLossTriggered loss_pct);
          cover (close_price bar) (Z.abs (pos self))]
    else Ok []
  else Ok [].

(** A callback of a subclass: the new instance, what it sent, and whether
    it raised. *)
Definition callback : Type := Strategy → BarData → Strategy * list action * option exn.

(** [BaseStrategy.trading_logic] itself only raises. *)
Definition trading_logic : callback :=
  λ self _, (self, [], Some NotImplementedError).

Definition update_extremes (bar : BarData) (self : Strategy) : Strategy :=
  if decide (pos self > 0)%Z then
    set_highest_price (py_max (highest_price self) (high_price bar)) self
  else if decide (pos self < 0)%Z then
    set_lowest_price (py_min (lowest_price self) (Fin (low_price bar))) self
  else self.

(** [on_bar], for the [trading_logic] of the subclass at hand. *)
Definition on_bar (logic : callback) (self : Strategy) (bar : BarData)
    : Strategy * list action * option exn :=
  let self := set_current_price (close_price bar) self in
  let self := update_extremes bar self in
  match risk_management self bar with
  | Raise e => (self, [], Some e)
  | Ok sent =>
      let '(self', sent', r) := logic self bar in
      (self', sent ++ sent', r)
  end.

Definition on_trade (trade : TradeData) (self : Strategy) : Strategy * list action :=
  if decide (offset trade = OPEN) then
    let self := set_entry_price (price trade) self in
    let self := set_highest_price (price trade) self in
    let self := set_lowest_price (Fin (price trade)) self in
    (self, [write_log (OpenTradeFilled (direction trade) (trade_volume trade) (price trade))])
  else
    let pnl :=
      if decide (direction trade = SHORT)
      then ((price trade - entry_price self) * trade_volume trade)%R
      else ((entry_price self - price trade) * trade_volume trade)%R in
    (set_entry_price 0 self,
     [write_log (CloseTradeFilled (direction trade) (trade_volume trade) (price trade) pnl)]).

Definition calculate_position (self : Strategy) (capital price : R) : result Z :=
  let risk_amount := (capital * risk_percent self / 100)%R in
  let stop_loss_amount := (price * stop_loss_pct self / 100)%R in
  q ← py_div risk_amount stop_loss_amount;
  let position := py_int q in
  Ok (Z.min position (max_position self)).


End BaseStrategy.

(** ** base_template.py on binary64

    The same class with its numbers as Python has them: IEEE binary64
    values, every operation rounded, comparisons false on [nan].  The
    statements that turn on a threshold test or on a truncated quotient
    are made on this model; the model on the reals above serves the order
    invariants, which rounding does not touch. *)

Module Float64.

(** Python's [a >= b] on floats. *)
Definition py_ge (a b : float) : bool := (b <=? a)%float.

(** Python's float division: a zero divisor, of either sign, raises. *)
Definition py_div (a b : float) : result float :=
  if (b =? 0)%float then Raise ZeroDivisionError else Ok (a / b)%float.

(** Python's [max(a, b)] and [min(a, b)]: [a] unless [b] is strictly better. *)
Definition py_max (a b : float) : float := if (a <? b)%float then b else a.
Definition py_min (a b : float) : float := if (b <? a)%float then b else a.

(** Python's [int(x)] on a float: truncation towards zero;
    [OverflowError] on an infinity, [ValueError] on [nan]. *)
Definition truncate (x : spec_float) : result Z :=
  match x with
  | S754_zero _ => Ok 0%Z
  | S754_infinity _ => Raise OverflowError
  | S754_nan => Raise ValueError
  | S754_finite s m e =>
      let magnitude := Z.shiftl (Z.pos m) e in
      Ok (if s then (- magnitude)%Z else magnitude)
  end.

Definition py_int (x : float) : result Z := truncate (Prim2SF x).

End Float64.

Module BaseStrategy64.
Import Float64.
Export BaseStrategy (Offset, NONE, OPEN, CLOSE, CLOSETODAY, CLOSEYESTERDAY,
                     Direction, LONG, SHORT, NET).

Record BarData : Type := mkBarData {
  open_price : float;
  high_price : float;
  low_price : float;
  close_price : float;
  bar_volume : float
}.

Record TickData : Type := mkTickData {
  last_price : float;
  tick_high_price : float;
  tick_low_price : float
}.

Record TradeData : Type := mkTradeData {
  offset : Offset;
  direction : Direction;
  price : float;
  trade_volume : float
}.

Record Strategy : Type := mkStrategy {
  risk_percent : float;
  max_position : Z;
  stop_loss_pct : float;
  take_profit_pct : float;
  current_price : float;
  entry_price : float;
  highest_price : float;
  lowest_price : float;
  pos : Z
}.

(** The class attributes a fresh instance starts from. *)
Definition initial : Strategy :=
  {| risk_percent := 2; max_position := 100; stop_loss_pct := 5;
     take_profit_pct := 10; current_price := 0; entry_price := 0;
     highest_price := 0; lowest_price := infinity; pos := 0 |}.

Definition set_stop_loss_pct (v : float) (s : Strategy) : Strategy :=
  {| risk_percent := risk_percent s; max_position := max_position s;
     stop_loss_pct := v; take_profit_pct := take_profit_pct s;
     current_price := current_price s; entry_price := entry_price s;
     highest_price := highest_price s; lowest_price := lowest_price s;
     pos := pos s |}.

Definition set_take_profit_pct (v : float) (s : Strategy) : Strategy :=
  {| risk_percent := risk_percent s; max_position := max_position s;
     stop_loss_pct := stop_loss_pct s; take_profit_pct := v;
     current_price := current_price s; entry_price := entry_price s;
     highest_price := highest_price s; lowest_price := lowest_price s;
     pos := pos s |}.

Definition set_current_price (v : float) (s : Strategy) : Strategy :=
  {| risk_percent := risk_percent s; max_position := max_position s;
     stop_loss_pct := stop_loss_pct s; take_profit_pct := take_profit_pct s;
     current_price := v; entry_price := entry_price s;
     highest_price := highest_price s; lowest_price := lowest_price s;
     pos := pos s |}.

Definition set_entry_price (v : float) (s : Strategy) : Strategy :=
  {| risk_percent := risk_percent s; max_position := max_position s;
     stop_loss_pct := stop_loss_pct s; take_profit_pct := take_profit_pct s;
     current_price := current_price s; entry_price := v;
     highest_price := highest_price s; lowest_price := lowest_price s;
     pos := pos s |}.

Definition set_highest_price (v : float) (s : Strategy) : Strategy :=
  {| risk_percent := risk_percent s; max_position := max_position s;
     stop_loss_pct := stop_loss_pct s; take_profit_pct := take_profit_pct s;
     current_price := current_price s; entry_price := entry_price s;
     highest_price := v; lowest_price := lowest_price s;
     pos := pos s |}.

Definition set_lowest_price (v : float) (s : Strategy) : Strategy :=
  {| risk_percent := risk_percent s; max_position := max_position s;
     stop_loss_pct := stop_loss_pct s; take_profit_pct := take_profit_pct s;
     current_price := current_price s; entry_price := entry_price s;
     highest_price := highest_price s; lowest_price := v;
     pos := pos s |}.

Definition set_pos (v : Z) (s : Strategy) : Strategy :=
  {| risk_percent := risk_percent s; max_position := max_position s;
     stop_loss_pct := stop_loss_pct s; take_profit_pct := take_profit_pct s;
     current_price := current_price s; entry_price := entry_price s;
     highest_price := highest_price s; lowest_price := lowest_price s;
     pos := v |}.

Inductive log_message : Type :=
| StopLossTriggered (loss_pct : float)
| TrailingTakeProfitTriggered (drawdown_pct : float)
| OpenTradeFilled (d : Direction) (volume price : float)
| CloseTradeFilled (d : Direction) (volume price pnl : float).

Inductive action : Type :=
| write_log (msg : log_message)
| sell (price : float) (volume : Z)
| cover (price : float) (volume : Z).

Definition on_tick (tick : TickData) (self : Strategy) : Strategy :=
  let self := set_current_price (last_price tick) self in
  if decide (pos self > 0)%Z then
    set_highest_price (py_max (highest_price self) (tick_high_price tick)) self
  else if decide (pos self < 0)%Z then
    set_lowest_price (py_min (lowest_price self) (tick_low_price tick)) self
  else self.

Definition risk_management (self : Strategy) (bar : BarData) : result (list action) :=
  if decide (pos self = 0)%Z then Ok []
  else if decide (pos self > 0)%Z then
    q ← py_div (entry_price self - close_price bar) (entry_price self);
    let loss_pct := (q * 100)%float in
    if py_ge loss_pct (stop_loss_pct self) then
      Ok [write_log (StopLossTriggered loss_pct);
          sell (close_price bar) (Z.abs (pos self))]
    else
      q ← py_div (highest_price self - close_price bar) (highest_price self);
      let drawdown_pct := (q * 100)%float in
      if py_ge drawdown_pct (take_profit_pct self) then
        Ok [write_log (TrailingTakeProfitTriggered drawdown_pct);
            sell (close_price bar) (Z.abs (pos self))]
      else Ok []
  else if decide (pos self < 0)%Z then
    q ← py_div (close_price bar - entry_price self) (entry_price self);
    let loss_pct := (q * 100)%float in
    if py_ge loss_pct (stop_loss_pct self) then
      Ok [write_log (StopLossTriggered loss_pct);
          cover (close_price bar) (Z.abs (pos self))]
    else Ok []
  else Ok [].

Definition callback : Type := Strategy → BarData → Strategy * list action * option exn.

Definition trading_logic : callback :=
  λ self _, (self, [], Some NotImplementedError).

Definition update_extremes (bar : BarData) (self : Strategy) : Strategy :=
  if decide (pos self > 0)%Z then
    set_highest_price (py_max (highest_price self) (high_price bar)) self
  else if decide (pos self < 0)%Z then
    set_lowest_price (py_min (lowest_price self) (low_price bar)) self
  else self.

Definition on_bar (logic : callback) (self : Strategy) (bar : BarData)
    : Strategy * list action * option exn :=
  let self := set_current_price (close_price bar) self in
  let self := update_extremes bar self in
  match risk_management self bar with
  | Raise e => (self, [], Some e)
  | Ok sent =>
      let '(self', sent', r) := logic self bar in
      (self', sent ++ sent', r)
  end.

Definition on_trade (trade : TradeData) (self : Strategy) : Strategy * list action :=
  if decide (offset trade = OPEN) then
    let self := set_entry_price (price trade) self in
    let self := set_highest_price (price trade) self in
    let self := set_lowest_price (price trade) self in
    (self, [write_log (OpenTradeFilled (direction trade) (trade_volume trade) (price trade))])
  else
    let pnl :=
      if decide (direction trade = SHORT)
      then ((price trade - entry_price self) * trade_volume trade)%float
      else ((entry_price self - price trade) * trade_volume trade)%float in
    (set_entry_price 0 self,
     [write_log (CloseTradeFilled (direction trade) (trade_volume trade) (price trade) pnl)]).

Definition calculate_position (self : Strategy) (capital price : float) : result Z :=
  let risk_amount := (capital * risk_percent self / 100)%float in
  let stop_loss_amount := (price * stop_loss_pct self / 100)%float in
  q ← py_div risk_amount stop_loss_amount;
  position ← py_int q;
  Ok (Z.min position (max_position self)).

End BaseStrategy64.

(** ** Vocabulary of the statements *)

Module Spec.
Import Pandas Frame IndicatorEngine.

(** The frame as a call leaves it, whether it returned or raised. *)
Definition run {A} (m : M A) (df : DataFrame) : DataFrame := (m df).1.

(** Row [i] of the float column [name]. *)
Definition cell (df : DataFrame) (name : string) (i : nat) : option fl :=
  match df !! name with
  | Some (Floats s) => s !! i
  | _ => None
  end.

(** Row [i] of the integer column [cross_signal]. *)
Definition cross_signal (df : DataFrame) (i : nat) : option Z :=
  match df !! "cross_signal" with
  | Some (Ints l) => l !! i
  | _ => None
  end.

Definition defined (x : fl) : Prop := ∃ v : R, x = Fin v.

(** Row [i] of column [name] exists and holds a number, or holds [nan]. *)
Definition defined_at (df : DataFrame) (name : string) (i : nat) : Prop :=
  ∃ x, cell df name i = Some x ∧ defined x.

Definition undefined_at (df : DataFrame) (name : string) (i : nat) : Prop :=
  cell df name i = Some NaN.

(** The columns of the input bars. *)
Definition input_columns : list string :=
  ["datetime"; "open"; "high"; "low"; "close"; "volume"].

Definition keeps_input_columns {A} (m : M A) : Prop :=
  ∀ (df : DataFrame) (name : string),
    name ∈ input_columns → run m df !! name = df !! name.

(** The closes of a bar series, and the window of [w] values ending at row [i]. *)
Definition closes (bars : list Bar) : list R := close <$> bars.

Definition highs (bars : list Bar) : list R := high <$> bars.
Definition lows (bars : list Bar) : list R := low <$> bars.

(** The true range of every bar, as it is defined: [high - low] for the
    first bar, and from then on the largest of [high - low],
    [|high - previous close|] and [|low - previous close|]. *)
Definition true_ranges (bars : list Bar) : list R :=
  imap (λ t b,
    match t with
    | 0 => (high b - low b)%R
    | S t' =>
        match bars !! t' with
        | Some pb =>
            Rmax (high b - low b)
                 (Rmax (Rabs (high b - close pb)) (Rabs (low b - close pb)))
        | None => (high b - low b)%R
        end
    end) bars.

(** Gains and losses of the closes, as they are defined:
    [gain_t = max (close_t - close_(t-1)) 0] and
    [loss_t = max (close_(t-1) - close_t) 0]; the first row, which has no
    previous close, counts as no change. *)
Definition gains (cs : list R) : list R :=
  imap (λ t c,
    match t with
    | 0 => 0%R
    | S t' => match cs !! t' with Some p => Rmax (c - p) 0 | None => 0%R end
    end) cs.

Definition losses (cs : list R) : list R :=
  imap (λ t c,
    match t with
    | 0 => 0%R
    | S t' => match cs !! t' with Some p => Rmax (p - c) 0 | None => 0%R end
    end) cs.

(** The mean of the last [w] values of [xs] up to row [i]. *)
Definition window_mean (w i : nat) (xs : list R) : R :=
  (Rsum (window w i xs) / INR w)%R.

(** The RSI formula on one pair of averages. *)
Definition rsi_value (avg_gain avg_loss : fl) : fl :=
  fsub (Fin 100) (fdiv (Fin 100) (fadd (Fin 1) (fdiv avg_gain avg_loss))).

(** Standard deviations of a sample [xs] in the two conventions. *)
Definition population_std (xs : list R) : R :=
  sqrt (ssqdm xs / INR (length xs)).

Definition sample_std (xs : list R) : R :=
  sqrt (ssqdm xs / (INR (length xs) - 1)).

(** Cross events on two aligned series, at row [t], as the definitions
    give them: the difference is positive (negative) now and was not
    positive (not negative) one row before.  A comparison with a missing
    or [nan] value does not hold. *)
Definition diff_at (A B : series) (t : nat) : fl :=
  match A !! t, B !! t with
  | Some a, Some b => fsub a b
  | _, _ => NaN
  end.

(** The [cross_signal] column computed from the [ma_diff] column [d]:
    zeros, then 1 under the golden mask, then -1 under the death mask. *)
Definition signals (d : series) : list Z :=
  zip_with (λ (m : bool) x, if m then (-1)%Z else x) (death_mask d)
    (zip_with (λ (m : bool) x, if m then 1%Z else x) (golden_mask d)
       (replicate (length d) 0%Z)).

Definition golden_cross (A B : series) (t : nat) : Prop :=
  ∃ t', t = S t' ∧ fgt (diff_at A B t) (Fin 0) = true
        ∧ fle (diff_at A B t') (Fin 0) = true.

Definition death_cross (A B : series) (t : nat) : Prop :=
  ∃ t', t = S t' ∧ flt (diff_at A B t) (Fin 0) = true
        ∧ fge (diff_at A B t') (Fin 0) = true.

End Spec.

(** ** Vocabulary of the statements about the strategy *)

Module RiskSpec.
Import BaseStrategy.

(** The instance as [risk_management] sees it inside [on_bar]. *)
Definition seen_by_risk_management (self : Strategy) (bar : BarData) : Strategy :=
  update_extremes bar (set_current_price (close_price bar) self).



End RiskSpec.

(** ** Vocabulary of the statements about smoothing *)

Module SmoothingSpec.
Import Pandas Frame Spec.

(** The exponential moving average as a recursion on numbers: seeded with
    the first value, then [a * value + (1 - a) * previous average]. *)
Fixpoint ema_from (a prev : R) (cs : list R) : list R :=
  match cs with
  | [] => []
  | c :: cs' =>
      let e := (a * c + (1 - a) * prev)%R in
      e :: ema_from a e cs'
  end.

Definition ema_list (a : R) (cs : list R) : list R :=
  match cs with
  | [] => []
  | c :: cs' => c :: ema_from a c cs'
  end.

(** A cell that is [nan] or a number between [lo] and [hi]. *)
Definition in_range (lo hi : R) (x : fl) : Prop :=
  x = NaN ∨ ∃ v : R, x = Fin v ∧ (lo <= v <= hi)%R.

(** Bars whose close lies between their low and their high. *)
Definition well_formed (bars : list Bar) : Prop :=
  Forall (λ b, (low b <= close b <= high b)%R) bars.

(** The series [add_kdj] computes from the columns of a bar series: the
    raw stochastic value and the K and D lines. *)
Definition rsv_series (w : nat) (bars : list Bar) : series :=
  mul_scalar (Fin 100)
    (div (sub (Fin <$> closes bars) (rolling_min w (Fin <$> lows bars)))
         (sub (rolling_max w (Fin <$> highs bars))
              (rolling_min w (Fin <$> lows bars)))).

Definition k_series (w : nat) (m1 : Z) (bars : list Bar) : series :=
  ewm_mean (1 / IZR m1) (rsv_series w bars).

Definition d_series (w : nat) (m1 m2 : Z) (bars : list Bar) : series :=
  ewm_mean (1 / IZR m2) (k_series w m1 bars).

End SmoothingSpec.

(** ** Vocabulary of the statements about the life of a position *)

Module SessionSpec.
Import BaseStrategy RiskSpec.

(** What the engine feeds a strategy between two fills. *)
Inductive event : Type :=
| TickEvent (tick : TickData)
| BarEvent (bar : BarData).

Definition feed (logic : callback) (self : Strategy) (ev : event) : Strategy :=
  match ev with
  | TickEvent tick => on_tick tick self
  | BarEvent bar => (on_bar logic self bar).1.1
  end.

Definition feed_all (logic : callback) (self : Strategy) (evs : list event)
    : Strategy :=
  foldl (feed logic) self evs.

(** A [trading_logic] that leaves the position, its entry price and its
    two extremes alone: it only sends orders. *)
Definition keeps_risk_state (logic : callback) : Prop :=
  ∀ self bar,
    let self' := (logic self bar).1.1 in
    pos self' = pos self
    ∧ entry_price self' = entry_price self
    ∧ highest_price self' = highest_price self
    ∧ lowest_price self' = lowest_price self.

End SessionSpec.

(** ** Vocabulary of the statements about [calculate_all] *)

Module CompositionSpec.
Import Pandas Frame IndicatorEngine Spec.

(** The seven calls of [calculate_all], each with the defaults of its
    signature. *)
Definition default_indicators : list (M unit) :=
  [add_ma [5; 10; 20; 60]%Z; add_ema [12; 26]%Z; add_macd 12 26 9;
   add_kdj 9 3 3; add_rsi [6; 12; 24]%Z; add_boll 20 2; add_atr 14].

(** The names of the columns those calls assign, in the order of the
    assignments. *)
Definition default_columns : list string :=
  ["ma5"; "ma10"; "ma20"; "ma60"; "ema12"; "ema26";
   "macd_dif"; "macd_dea"; "macd_hist"; "kdj_k"; "kdj_d"; "kdj_j";
   "rsi6"; "rsi12"; "rsi24";
   "boll_mid"; "boll_std"; "boll_up"; "boll_down"; "atr14"].

(** A frame whose [close], [high] and [low] columns are those of [bars];
    whatever else it holds. *)
Definition holds_bars (df : DataFrame) (bars : list Bar) : Prop :=
  df !! "close" = Some (float_column close bars)
  ∧ df !! "high" = Some (float_column high bars)
  ∧ df !! "low" = Some (float_column low bars).

(** [df[name] = c] for each pair of [cols], the last pair first. *)
Definition write_columns (cols : list (string * column)) (df : DataFrame)
    : DataFrame :=
  foldr (λ kv d, <[kv.1 := kv.2]> d) df cols.

(** [op] returns normally on every frame that holds [bars], and all it
    does to the frame is to assign the columns [cols]. *)
Definition writes (op : M unit) (bars : list Bar) (cols : list (string * column))
    : Prop :=
  ∀ df, holds_bars df bars → op df = (write_columns cols df, Ok tt).

(** A float column with one row per bar. *)
Definition aligned (bars : list Bar) (c : column) : Prop :=
  ∃ s, c = Floats s ∧ length s = length bars.

End CompositionSpec.

(** ** Vocabulary of the statements on binary64 *)

Module RiskSpec64.
Import Float64 BaseStrategy64.

(** The percentages as [risk_management] computes them, each operation
    rounded: the loss of a long and of a short position against the entry
    price, and the retreat of the close from the highest price.  With a
    zero divisor there is no percentage: the division raises. *)
Definition loss_pct (self : Strategy) (bar : BarData) : result float :=
  q ← py_div (entry_price self - close_price bar) (entry_price self);
  Ok (q * 100)%float.

Definition short_loss_pct (self : Strategy) (bar : BarData) : result float :=
  q ← py_div (close_price bar - entry_price self) (entry_price self);
  Ok (q * 100)%float.

Definition drawdown_pct (self : Strategy) (bar : BarData) : result float :=
  q ← py_div (highest_price self - close_price bar) (highest_price self);
  Ok (q * 100)%float.

(** The forced exits: everything held is sold (bought back, for a short
    position) at the close, and the log line names the reason and the
    percentage. *)
Definition stop_loss_exit (self : Strategy) (bar : BarData) (loss : float)
    : list action :=
  [write_log (StopLossTriggered loss);
   sell (close_price bar) (Z.abs (pos self))].

Definition trailing_take_profit_exit (self : Strategy) (bar : BarData)
    (drawdown : float) : list action :=
  [write_log (TrailingTakeProfitTriggered drawdown);
   sell (close_price bar) (Z.abs (pos self))].

Definition short_stop_loss_exit (self : Strategy) (bar : BarData) (loss : float)
    : list action :=
  [write_log (StopLossTriggered loss);
   cover (close_price bar) (Z.abs (pos self))].

(** The instance as [risk_management] sees it inside [on_bar]. *)
Definition seen_by_risk_management (self : Strategy) (bar : BarData) : Strategy :=
  update_extremes bar (set_current_price (close_price bar) self).

(** A number that is not negative: [nan] apart, a zero or a value with
    the positive sign; and a strictly positive one. *)
Definition not_negative (x : spec_float) : Prop :=
  match x with
  | S754_nan | S754_zero _ => True
  | S754_infinity s | S754_finite s _ _ => s = false
  end.

Definition positive (x : spec_float) : Prop :=
  match x with
  | S754_infinity s | S754_finite s _ _ => s = false
  | _ => False
  end.

End RiskSpec64.

(** ** Concrete inputs used in the examples *)

Module Examples.
Import Frame.

(** A bar whose four prices are all [c]. *)
Definition flat_bar (c : R) : Bar := mkBar 0 c c c c 0.

Definition bars_0_1_2 : list Bar := [flat_bar 0; flat_bar 1; flat_bar 2].

Definition bars_1_2_3 : list Bar := [flat_bar 1; flat_bar 2; flat_bar 3].

Definition bars_1_1_1 : list Bar := [flat_bar 1; flat_bar 1; flat_bar 1].

(** A frame with two moving-average columns: the fast one rises from
    below the slow one to above it. *)
Definition crossing_frame : DataFrame :=
  <["ma5" := Floats [Fin 1; Fin 3]]> (<["ma10" := Floats [Fin 2; Fin 2]]> ∅).

(** A long position of 100 entered at 100 whose price has reached 120. *)
Definition long_100_peak_120 : BaseStrategy.Strategy :=
  BaseStrategy.set_pos 100
    (BaseStrategy.set_highest_price 120
       (BaseStrategy.set_entry_price 100 BaseStrategy.initial)).

Definition bar_closing_at (c : R) : BaseStrategy.BarData :=
  BaseStrategy.mkBarData c c c c 0.

Definition open_long_at (p : R) : BaseStrategy.TradeData :=
  BaseStrategy.mkTradeData BaseStrategy.OPEN BaseStrategy.LONG p 100.

End Examples.

Module Examples64.
Import BaseStrategy64.

(** A long position of 100 entered at 100 whose price has reached 120. *)
Definition long_100_peak_120 : Strategy :=
  set_pos 100 (set_highest_price 120 (set_entry_price 100 initial)).

Definition bar_closing_at (c : float) : BarData := mkBarData c c c c 0.

(** The sale of 40 of the 100 held, at 110. *)
Definition partial_exit : TradeData := mkTradeData CLOSE SHORT 110 40.

End Examples64.

(** * Properties *)

Module FrameFacts.
Import Pandas Frame IndicatorEngine Spec.

Lemma keeps_ret {A} (a : A) : keeps_input_columns (mret a).
Proof. by intros df name _. Qed.

Lemma keeps_lift {A} (r : result A) : keeps_input_columns (lift r).
Proof. by intros df name _. Qed.

Lemma keeps_getitem name : keeps_input_columns (getitem name).
Proof. intros df k _. unfold run, getitem. by destruct (df !! name). Qed.

Lemma keeps_nrows name : keeps_input_columns (nrows name).
Proof.
  intros df k _. unfold run, nrows.
  by destruct (df !! name) as [[]|].
Qed.

Lemma keeps_setitem name c :
  name ∉ input_columns → keeps_input_columns (setitem name c).
Proof.
  intros Hfresh df k Hk. unfold run, setitem; simpl.
  apply lookup_insert_ne. intros ->. by apply Hfresh.
Qed.

Lemma keeps_loc_assign mask name v :
  name ∉ input_columns → keeps_input_columns (loc_assign mask name v).
Proof.
  intros Hfresh df k Hk. unfold run, loc_assign.
  assert (name ≠ k) by (intros ->; by apply Hfresh).
  destruct (df !! name) as [[]|]; simpl; by rewrite ?lookup_insert_ne.
Qed.

Lemma keeps_bind {A B} (m : M A) (k : A → M B) :
  keeps_input_columns m → (∀ a, keeps_input_columns (k a)) →
  keeps_input_columns (m ≫= k).
Proof.
  intros Hm Hk df name Hname. unfold run, mbind, M_bind.
  specialize (Hm df name Hname). unfold run in Hm.
  destruct (m df) as [df' [a|e]]; simpl in *; [|done].
  rewrite <- Hm. by apply Hk.
Qed.

Lemma keeps_for_each {A} (l : list A) (body : A → M unit) :
  (∀ x, keeps_input_columns (body x)) → keeps_input_columns (for_each l body).
Proof.
  intros Hbody. induction l as [|x l IH]; simpl.
  - apply keeps_ret.
  - apply keeps_bind; [apply Hbody | by intros _].
Qed.

(** No generated column name is the name of an input column. *)
Ltac fresh_name :=
  let H := fresh in
  unfold fname, input_columns; cbn; intros H;
  repeat (apply elem_of_cons in H as [H|H]; [discriminate H|]);
  by apply elem_of_nil in H.

Lemma fname_ma_fresh p : fname "ma" p ∉ input_columns.
Proof. fresh_name. Qed.
Lemma fname_ema_fresh p : fname "ema" p ∉ input_columns.
Proof. fresh_name. Qed.
Lemma fname_rsi_fresh p : fname "rsi" p ∉ input_columns.
Proof. fresh_name. Qed.
Lemma fname_atr_fresh p : fname "atr" p ∉ input_columns.
Proof. fresh_name. Qed.

Ltac keeps :=
  repeat first
    [ apply keeps_ret | apply keeps_lift | apply keeps_getitem
    | apply keeps_nrows
    | apply keeps_for_each; intros ?
    | apply keeps_bind; [|intros ?]
    | apply keeps_setitem;
        first [ apply fname_ma_fresh | apply fname_ema_fresh
              | apply fname_rsi_fresh | apply fname_atr_fresh | fresh_name ]
    | apply keeps_loc_assign; fresh_name ].

Lemma keeps_add_ma periods : keeps_input_columns (add_ma periods).
Proof. unfold add_ma. keeps. Qed.

Lemma keeps_add_ema periods : keeps_input_columns (add_ema periods).
Proof. unfold add_ema. keeps. Qed.

Lemma keeps_add_macd fast slow signal : keeps_input_columns (add_macd fast slow signal).
Proof. unfold add_macd. keeps. Qed.

Lemma keeps_add_kdj n m1 m2 : keeps_input_columns (add_kdj n m1 m2).
Proof. unfold add_kdj. keeps. Qed.

Lemma keeps_add_rsi periods : keeps_input_columns (add_rsi periods).
Proof. unfold add_rsi. keeps. Qed.

Lemma keeps_add_boll period k : keeps_input_columns (add_boll period k).
Proof. unfold add_boll. keeps. Qed.

Lemma keeps_add_atr period : keeps_input_columns (add_atr period).
Proof. unfold add_atr. keeps. Qed.

Lemma keeps_detect_ma_cross fast slow : keeps_input_columns (detect_ma_cross fast slow).
Proof. unfold detect_ma_cross. keeps. Qed.

Lemma keeps_calculate_all : keeps_input_columns calculate_all.
Proof.
  unfold calculate_all.
  repeat (apply keeps_bind;
    [ solve [auto using keeps_add_ma, keeps_add_ema, keeps_add_macd,
               keeps_add_kdj, keeps_add_rsi, keeps_add_boll]
    | intros _ ]).
  apply keeps_add_atr.
Qed.

End FrameFacts.

(** ** What each call writes *)

Module RunFacts.
Import Pandas Frame IndicatorEngine Spec.

#[global] Instance fname_inj prefix : Inj (=) (=) (fname prefix).
Proof.
  intros p q H. unfold fname in H.
  apply (inj (String.app prefix)) in H. by apply (inj pretty) in H.
Qed.

Lemma getitem_run (df : DataFrame) name c s :
  df !! name = Some c → to_numeric c = Ok s → getitem name df = (df, Ok s).
Proof. intros Hc Hs. unfold getitem. by rewrite Hc, Hs. Qed.

Lemma bind_run {A B} (m : M A) (k : A → M B) (df : DataFrame) :
  (m ≫= k) df
  = match m df with
    | (df', Ok a) => k a df'
    | (df', Raise e) => (df', Raise e)
    end.
Proof. done. Qed.

Lemma lift_run {A} (r : result A) (df : DataFrame) : lift r df = (df, r).
Proof. done. Qed.

Lemma setitem_run name c (df : DataFrame) :
  setitem name c df = (<[name := c]> df, Ok tt).
Proof. done. Qed.

Lemma check_window_ok p : (0 ≤ p)%Z → check_window p = Ok (Z.to_nat p).
Proof. intros. unfold check_window. by rewrite decide_True. Qed.

Lemma check_window_neg p : (p < 0)%Z → check_window p = Raise ValueError.
Proof. intros. unfold check_window. rewrite decide_False; [done|lia]. Qed.

(** The loops of [add_ma] and [add_rsi]: one column per period, computed
    from the [close] column, which the loop never writes. *)
Section period_loop.
Variable prefix : string.
Variable g : nat → series → series.
Hypothesis prefix_not_close : ∀ p, fname prefix p ≠ "close".

Let body : Z → M unit := λ period,
  close ← getitem "close";
  w ← lift (check_window period);
  setitem (fname prefix period) (Floats (g w close)).

Lemma period_loop_spec periods : ∀ (df df' : DataFrame) c cl,
  df !! "close" = Some c → to_numeric c = Ok cl →
  for_each periods body df = (df', Ok tt) →
  df' !! "close" = Some c
  ∧ ∀ L, (L ∈ periods →
            (0 ≤ L)%Z ∧ df' !! fname prefix L = Some (Floats (g (Z.to_nat L) cl)))
         ∧ (L ∉ periods → df' !! fname prefix L = df !! fname prefix L).
Proof.
  induction periods as [|p ps IH]; intros df df' c cl Hc Hcl Hrun.
  - simpl in Hrun. injection Hrun as <-. split; [done|].
    intros L. split; [by intros ?%elem_of_nil | done].
  - assert (Hbody : body p df
      = if decide (0 ≤ p)%Z
        then (<[fname prefix p := Floats (g (Z.to_nat p) cl)]> df, Ok tt)
        else (df, Raise ValueError)).
    { unfold body. rewrite bind_run, (getitem_run _ _ _ _ Hc Hcl), bind_run, lift_run.
      unfold check_window. by destruct (decide (0 ≤ p)%Z). }
    change (for_each (p :: ps) body df)
      with ((body p ≫= λ _, for_each ps body) df) in Hrun.
    rewrite bind_run, Hbody in Hrun.
    destruct (decide (0 ≤ p)%Z) as [Hp|Hp]; [|discriminate].
    set (df1 := <[fname prefix p := Floats (g (Z.to_nat p) cl)]> df) in Hrun.
    assert (Hc1 : df1 !! "close" = Some c).
    { subst df1. by rewrite lookup_insert_ne. }
    destruct (IH df1 df' c cl Hc1 Hcl Hrun) as [Hc' HL].
    split; [done|]. intros L. split.
    + intros [->|HinL]%elem_of_cons.
      * destruct (decide (p ∈ ps)) as [Hin|Hout].
        -- by apply HL.
        -- split; [done|]. destruct (HL p) as [_ Hkeep].
           rewrite Hkeep by done. subst df1. apply lookup_insert_eq.
      * by apply HL.
    + intros Hout. apply not_elem_of_cons in Hout as [Hne Hout].
      destruct (HL L) as [_ Hkeep]. rewrite Hkeep by done.
      subst df1. apply lookup_insert_ne. intros Heq. by apply (inj _) in Heq.
Qed.

Lemma period_loop_ok periods : ∀ (df : DataFrame) c cl,
  df !! "close" = Some c → to_numeric c = Ok cl →
  Forall (λ p, (0 ≤ p)%Z) periods →
  ∃ df', for_each periods body df = (df', Ok tt).
Proof.
  induction periods as [|p ps IH]; intros df c cl Hc Hcl Hall.
  - by eexists.
  - apply Forall_cons in Hall as [Hp Hall].
    change (for_each (p :: ps) body df)
      with ((body p ≫= λ _, for_each ps body) df).
    rewrite bind_run. unfold body at 1.
    rewrite bind_run, (getitem_run _ _ _ _ Hc Hcl), bind_run, lift_run.
    rewrite (check_window_ok _ Hp), setitem_run.
    eapply IH; [|done..]. by rewrite lookup_insert_ne.
Qed.
End period_loop.

Lemma close_of_bars bars :
  frame_of_bars bars !! "close" = Some (float_column close bars).
Proof. done. Qed.

Lemma float_column_numeric f bars :
  to_numeric (float_column f bars) = Ok (Fin <$> (f <$> bars)).
Proof. unfold float_column; simpl. by rewrite <- list_fmap_compose. Qed.

Lemma add_ma_column periods bars df' L :
  add_ma periods (frame_of_bars bars) = (df', Ok tt) → L ∈ periods →
  (0 ≤ L)%Z
  ∧ df' !! fname "ma" L
    = Some (Floats (rolling_mean (Z.to_nat L) (Fin <$> closes bars))).
Proof.
  intros Hrun HL.
  eapply (period_loop_spec "ma" rolling_mean) in Hrun as [_ H];
    [by apply H | done | apply close_of_bars | apply float_column_numeric].
Qed.

Lemma add_ma_ok periods bars :
  Forall (λ p, (0 ≤ p)%Z) periods →
  ∃ df', add_ma periods (frame_of_bars bars) = (df', Ok tt).
Proof.
  intros. eapply (period_loop_ok "ma" rolling_mean);
    [done | apply close_of_bars | apply float_column_numeric | done].
Qed.

Lemma add_rsi_ok periods bars :
  Forall (λ p, (0 ≤ p)%Z) periods →
  ∃ df', add_rsi periods (frame_of_bars bars) = (df', Ok tt).
Proof.
  intros. eapply (period_loop_ok "rsi"
                    (λ w close, rsi_of (rsi_gain w close) (rsi_loss w close)));
    [done | apply close_of_bars | apply float_column_numeric | done].
Qed.

Lemma add_rsi_column periods bars df' L :
  add_rsi periods (frame_of_bars bars) = (df', Ok tt) → L ∈ periods →
  (0 ≤ L)%Z
  ∧ df' !! fname "rsi" L
    = Some (Floats (rsi_of (rsi_gain (Z.to_nat L) (Fin <$> closes bars))
                           (rsi_loss (Z.to_nat L) (Fin <$> closes bars)))).
Proof.
  intros Hrun HL.
  eapply (period_loop_spec "rsi"
            (λ w close, rsi_of (rsi_gain w close) (rsi_loss w close)))
    in Hrun as [_ H];
    [by apply H | done | apply close_of_bars | apply float_column_numeric].
Qed.

End RunFacts.

(** ** Rolling windows *)

Module RollingFacts.
Import Pandas.

Lemma observations_fin (xs : list R) : observations (Fin <$> xs) = xs.
Proof.
  unfold observations. induction xs as [|x xs IH]; [done|].
  cbn. by rewrite IH.
Qed.

Lemma observations_length (s : series) : length (observations s) ≤ length s.
Proof.
  unfold observations. induction s as [|x s IH]; [done|].
  cbn. destruct (prep_value x); simpl; lia.
Qed.

Lemma window_fmap {A B} (f : A → B) w i (l : list A) :
  window w i (f <$> l) = f <$> window w i l.
Proof. unfold window. by rewrite fmap_drop, fmap_take. Qed.

Lemma window_length {A} w i (l : list A) :
  i < length l → length (window w i l) = min w (S i).
Proof. intros. unfold window. rewrite length_drop, length_take. lia. Qed.

Lemma rolling_length agg w s : length (rolling agg w s) = length s.
Proof. unfold rolling. apply length_imap. Qed.

Lemma rolling_lookup agg w (s : series) i :
  i < length s →
  rolling agg w s !! i
  = Some (let obs := observations (window w i s) in
          if decide (w ≤ length obs) then agg obs else NaN).
Proof.
  intros Hi. unfold rolling. rewrite list_lookup_imap.
  destruct (lookup_lt_is_Some_2 s i Hi) as [x ->]. done.
Qed.

(** Before row [w - 1] the window is not full: the value is [nan]. *)
Lemma rolling_warmup agg w (s : series) i :
  i < length s → S i < w → rolling agg w s !! i = Some NaN.
Proof.
  intros Hi Hw. rewrite rolling_lookup by done. cbv zeta.
  rewrite decide_False; [done|].
  pose proof (observations_length (window w i s)).
  rewrite window_length in * by done. lia.
Qed.

(** On a series of finite values a full window is aggregated. *)
Lemma rolling_full agg w (xs : list R) i :
  i < length xs → w ≤ S i →
  rolling agg w (Fin <$> xs) !! i = Some (agg (window w i xs)).
Proof.
  intros Hi Hw. rewrite rolling_lookup by (by rewrite length_fmap).
  cbv zeta. rewrite window_fmap, observations_fin.
  rewrite decide_True; [done|]. rewrite window_length by done. lia.
Qed.

Lemma mean_nonempty (xs : list R) :
  0 < length xs → mean xs = Fin (Rsum xs / INR (length xs)).
Proof. destruct xs; simpl; [lia|done]. Qed.

Lemma std_ddof_enough ddof (xs : list R) :
  ddof < length xs →
  std_ddof ddof xs = Fin (sqrt (ssqdm xs / INR (length xs - ddof))).
Proof. intros. unfold std_ddof. rewrite decide_False; [done|lia]. Qed.

Lemma std_ddof_short ddof (xs : list R) :
  length xs ≤ ddof → std_ddof ddof xs = NaN.
Proof. intros. unfold std_ddof. by rewrite decide_True. Qed.

End RollingFacts.

(** ** Bollinger bands *)

Module BollFacts.
Import Pandas Frame IndicatorEngine Spec RunFacts RollingFacts.

Ltac run_getitem :=
  rewrite bind_run; erewrite getitem_run; [| reflexivity | reflexivity].

Lemma add_boll_run bars period k :
  (0 ≤ period)%Z →
  let w := Z.to_nat period in
  let cl := Fin <$> closes bars in
  let mid := rolling_mean w cl in
  let sd := rolling_std w cl in
  add_boll period k (frame_of_bars bars)
  = (<["boll_down" := Floats (sub mid (mul_scalar (Fin k) sd))]>
     (<["boll_up" := Floats (zip_with fadd mid (mul_scalar (Fin k) sd))]>
     (<["boll_std" := Floats sd]>
     (<["boll_mid" := Floats mid]> (frame_of_bars bars)))), Ok tt).
Proof.
  intros Hp w cl mid sd. unfold add_boll.
  run_getitem. rewrite bind_run, lift_run, (check_window_ok _ Hp).
  rewrite bind_run, setitem_run. run_getitem.
  rewrite bind_run, setitem_run. run_getitem. run_getitem.
  rewrite bind_run, setitem_run. run_getitem. run_getitem.
  rewrite setitem_run. subst mid sd cl w. unfold closes.
  by rewrite <- !list_fmap_compose.
Qed.

Lemma sample_std_ddof1 (xs : list R) :
  1 < length xs → std xs = Fin (sample_std xs).
Proof.
  intros Hn. unfold std. rewrite std_ddof_enough by done.
  unfold sample_std. by rewrite minus_INR by lia.
Qed.

(** The four Bollinger cells in terms of the two rolling aggregates. *)
Lemma boll_cells_of bars period k i m s :
  (0 ≤ period)%Z →
  rolling_mean (Z.to_nat period) (Fin <$> closes bars) !! i = Some m →
  rolling_std (Z.to_nat period) (Fin <$> closes bars) !! i = Some s →
  let df := run (add_boll period k) (frame_of_bars bars) in
  cell df "boll_mid" i = Some m
  ∧ cell df "boll_std" i = Some s
  ∧ cell df "boll_up" i = Some (fadd m (fmul (Fin k) s))
  ∧ cell df "boll_down" i = Some (fsub m (fmul (Fin k) s)).
Proof.
  intros Hp Hm Hs df. subst df. unfold run. rewrite add_boll_run by done.
  cbn [fst]. unfold cell. repeat split.
  - by rewrite !lookup_insert_ne, lookup_insert_eq by done.
  - by rewrite !lookup_insert_ne, lookup_insert_eq by done.
  - rewrite !lookup_insert_ne, lookup_insert_eq by done.
    rewrite lookup_zip_with, Hm. unfold mul_scalar.
    by rewrite list_lookup_fmap, Hs.
  - rewrite lookup_insert_eq. unfold sub.
    rewrite lookup_zip_with, Hm. unfold mul_scalar.
    by rewrite list_lookup_fmap, Hs.
Qed.

(** The two rolling aggregates at a row where the window is full. *)
Lemma boll_aggregates bars period i :
  (2 ≤ period)%Z → (period - 1 ≤ Z.of_nat i)%Z → i < length bars →
  let xs := window (Z.to_nat period) i (closes bars) in
  length xs = Z.to_nat period
  ∧ rolling_mean (Z.to_nat period) (Fin <$> closes bars) !! i
    = Some (Fin (Rsum xs / INR (length xs)))
  ∧ rolling_std (Z.to_nat period) (Fin <$> closes bars) !! i
    = Some (Fin (sample_std xs)).
Proof.
  intros Hp Hi Hlen xs.
  assert (Hci : i < length (closes bars)) by (unfold closes; by rewrite length_fmap).
  assert (Hxs : length xs = Z.to_nat period).
  { subst xs. rewrite window_length by done. lia. }
  split; [done|]. split.
  - unfold rolling_mean. rewrite rolling_full by (done || lia).
    by rewrite mean_nonempty by (fold xs; lia).
  - unfold rolling_std. rewrite rolling_full by (done || lia).
    by rewrite sample_std_ddof1 by (fold xs; lia).
Qed.

(** C1 (as the code has it).  For a bar series and a row [i] at which the
    window of [period >= 2] closes is full, [boll_mid] is the mean of the
    last [period] closes, [boll_std] is their sample standard deviation
    (squared deviations from that mean divided by [period - 1]),
    [boll_up = boll_mid + k * boll_std] and
    [boll_down = boll_mid - k * boll_std]. *)
Theorem bollinger_bands_sample_std bars period k i :
  (2 ≤ period)%Z → (period - 1 ≤ Z.of_nat i)%Z → i < length bars →
  let df := run (add_boll period k) (frame_of_bars bars) in
  let xs := window (Z.to_nat period) i (closes bars) in
  let mid := (Rsum xs / INR (length xs))%R in
  length xs = Z.to_nat period
  ∧ cell df "boll_mid" i = Some (Fin mid)
  ∧ cell df "boll_std" i = Some (Fin (sample_std xs))
  ∧ cell df "boll_up" i = Some (Fin (mid + k * sample_std xs))
  ∧ cell df "boll_down" i = Some (Fin (mid - k * sample_std xs)).
Proof.
  intros Hp Hi Hlen df xs mid.
  destruct (boll_aggregates bars period i Hp Hi Hlen) as (Hxs & Hmid & Hsd).
  fold xs in Hxs, Hmid, Hsd. fold mid in Hmid.
  destruct (boll_cells_of bars period k i _ _ ltac:(lia) Hmid Hsd)
    as (Hc1 & Hc2 & Hc3 & Hc4).
  by repeat split.
Qed.

Lemma bollinger_bands_sample_std_witness :
  let df := run (add_boll 3 2) (frame_of_bars Examples.bars_0_1_2) in
  let xs := window 3 2 (closes Examples.bars_0_1_2) in
  let mid := (Rsum xs / INR (length xs))%R in
  length xs = 3
  ∧ cell df "boll_mid" 2 = Some (Fin mid)
  ∧ cell df "boll_std" 2 = Some (Fin (sample_std xs))
  ∧ cell df "boll_up" 2 = Some (Fin (mid + 2 * sample_std xs))
  ∧ cell df "boll_down" 2 = Some (Fin (mid - 2 * sample_std xs)).
Proof.
  apply (bollinger_bands_sample_std Examples.bars_0_1_2 3 2 2); simpl; lia.
Defined.

Lemma ssqdm_0_1_2 : ssqdm [0; 1; 2]%R = 2%R.
Proof. unfold ssqdm, Rsum. simpl. field. Qed.

(** On the closes 0, 1, 2 with [period = 3] the code's [boll_std] at
    row 2 is 1, the sample deviation; the population deviation of the same
    window is the square root of 2/3. *)
Lemma bollinger_population_std_counterexample :
  cell (run (add_boll 3 2) (frame_of_bars Examples.bars_0_1_2)) "boll_std" 2
    = Some (Fin 1)
  ∧ cell (run (add_boll 3 2) (frame_of_bars Examples.bars_0_1_2)) "boll_std" 2
    ≠ Some (Fin (population_std (window 3 2 (closes Examples.bars_0_1_2)))).
Proof.
  destruct (boll_aggregates Examples.bars_0_1_2 3 2) as (_ & Hmid & Hsd);
    [lia | lia | simpl; lia |].
  destruct (boll_cells_of Examples.bars_0_1_2 3 2 2 _ _ ltac:(lia) Hmid Hsd)
    as (_ & Hcell & _).
  change (window (Z.to_nat 3) 2 (closes Examples.bars_0_1_2)) with [0; 1; 2]%R
    in Hcell.
  rewrite Hcell.
  change (window 3 2 (closes Examples.bars_0_1_2)) with [0; 1; 2]%R.
  assert (Hs : sample_std [0; 1; 2]%R = 1%R).
  { unfold sample_std. rewrite ssqdm_0_1_2. simpl.
    replace (2 / (1 + 1 + 1 - 1))%R with 1%R by field. apply sqrt_1. }
  rewrite Hs. split; [done|].
  intros [= Hp]. unfold population_std in Hp. rewrite ssqdm_0_1_2 in Hp.
  simpl in Hp.
  assert (H23 : (0 <= 2 / (1 + 1 + 1))%R) by lra.
  pose proof (sqrt_sqrt _ H23) as Hsq. rewrite <- Hp in Hsq. lra.
Qed.

End BollFacts.

(** ** Average true range *)

Module AtrFacts.
Import Pandas Frame IndicatorEngine Spec RunFacts RollingFacts.

Lemma shift_lookup_0 (s : series) : 0 < length s → shift s !! 0 = Some NaN.
Proof. unfold shift. destruct s; simpl; [lia|done]. Qed.

Lemma shift_lookup_S (s : series) t : S t < length s → shift s !! S t = s !! t.
Proof. intros. unfold shift. by rewrite lookup_take_lt by lia. Qed.

Lemma shift_length (s : series) : length (shift s) = length s.
Proof. unfold shift. rewrite length_take. simpl. lia. Qed.

Lemma max_axis1_lookup a b c i x y z :
  a !! i = Some x → b !! i = Some y → c !! i = Some z →
  max_axis1 a b c !! i = Some (row_max [x; y; z]).
Proof.
  revert b c i. induction a as [|x0 a IH]; intros b c i Ha Hb Hc; [done|].
  destruct b as [|y0 b]; [done|]. destruct c as [|z0 c]; [done|].
  destruct i as [|i]; simpl in *.
  - by simplify_eq.
  - by apply IH.
Qed.

Lemma max_axis1_length a b c :
  length b = length a → length c = length a →
  length (max_axis1 a b c) = length a.
Proof.
  revert b c. induction a as [|x a IH]; intros [|y b] [|z c] Hb Hc;
    simpl in *; try done. f_equal. apply IH; lia.
Qed.

Lemma nanmax_fin a b : nanmax (Fin a) (Fin b) = Fin (Rmax a b).
Proof.
  unfold nanmax, flt, Rmax. case_bool_decide; destruct (Rle_dec a b); f_equal; lra.
Qed.

Lemma row_max_fin a b c : row_max [Fin a; Fin b; Fin c] = Fin (Rmax a (Rmax b c)).
Proof.
  unfold row_max. cbn [foldr]. change (nanmax (Fin c) NaN) with (Fin c).
  by rewrite !nanmax_fin.
Qed.

Lemma fin_column_lookup (f : Bar → R) (bars : list Bar) (t : nat) b :
  bars !! t = Some b → (Fin <$> (f <$> bars)) !! t = Some (Fin (f b)).
Proof. intros H. by rewrite !list_lookup_fmap, H. Qed.

Section true_range.
Variable bars : list Bar.
Let tr := true_range (Fin <$> highs bars) (Fin <$> lows bars) (Fin <$> closes bars).

Lemma true_range_first b :
  bars !! 0 = Some b → tr !! 0 = Some (Fin (high b - low b)).
Proof.
  intros Hb. subst tr. unfold true_range.
  assert (0 < length bars) by (by apply lookup_lt_Some in Hb).
  rewrite (max_axis1_lookup _ _ _ _ (Fin (high b - low b)) NaN NaN); [done | | |].
  - unfold sub. rewrite lookup_zip_with.
    unfold highs, lows. by rewrite !(fin_column_lookup _ _ _ _ Hb).
  - unfold abs, sub. rewrite list_lookup_fmap, lookup_zip_with.
    unfold highs. rewrite (fin_column_lookup _ _ _ _ Hb).
    rewrite shift_lookup_0; [done|]. unfold closes. by rewrite !length_fmap.
  - unfold abs, sub. rewrite list_lookup_fmap, lookup_zip_with.
    unfold lows. rewrite (fin_column_lookup _ _ _ _ Hb).
    rewrite shift_lookup_0; [done|]. unfold closes. by rewrite !length_fmap.
Qed.

Lemma true_range_later t b pb :
  bars !! S t = Some b → bars !! t = Some pb →
  tr !! S t
  = Some (Fin (Rmax (high b - low b)
                    (Rmax (Rabs (high b - close pb)) (Rabs (low b - close pb))))).
Proof.
  intros Hb Hpb. subst tr. unfold true_range.
  assert (S t < length bars) by (by apply lookup_lt_Some in Hb).
  assert (Hsh : shift (Fin <$> closes bars) !! S t = Some (Fin (close pb))).
  { rewrite shift_lookup_S by (unfold closes; by rewrite !length_fmap).
    unfold closes. by apply fin_column_lookup. }
  rewrite (max_axis1_lookup _ _ _ _ (Fin (high b - low b))
             (Fin (Rabs (high b - close pb))) (Fin (Rabs (low b - close pb))));
    [by rewrite row_max_fin | | |].
  - unfold sub. rewrite lookup_zip_with.
    unfold highs, lows. by rewrite !(fin_column_lookup _ _ _ _ Hb).
  - unfold abs, sub. rewrite list_lookup_fmap, lookup_zip_with.
    unfold highs. by rewrite (fin_column_lookup _ _ _ _ Hb), Hsh.
  - unfold abs, sub. rewrite list_lookup_fmap, lookup_zip_with.
    unfold lows. by rewrite (fin_column_lookup _ _ _ _ Hb), Hsh.
Qed.

Lemma true_range_length : length tr = length bars.
Proof.
  subst tr. unfold true_range, abs, sub, highs, lows, closes.
  rewrite max_axis1_length;
    rewrite ?length_fmap, ?length_zip_with, ?shift_length, ?length_fmap; lia.
Qed.

Lemma true_range_finite : tr = Fin <$> true_ranges bars.
Proof.
  apply list_eq. intros t. unfold true_ranges.
  rewrite list_lookup_fmap, list_lookup_imap.
  destruct (bars !! t) as [b|] eqn:Hb; simpl.
  - destruct t as [|t].
    + by apply true_range_first.
    + destruct (bars !! t) as [pb|] eqn:Hpb.
      * by apply true_range_later.
      * apply lookup_ge_None in Hpb. apply lookup_lt_Some in Hb. lia.
  - apply lookup_ge_None. rewrite true_range_length. by apply lookup_ge_None.
Qed.
End true_range.

Lemma add_atr_run bars period :
  (0 ≤ period)%Z →
  add_atr period (frame_of_bars bars)
  = (<[fname "atr" period :=
         Floats (rolling_mean (Z.to_nat period) (Fin <$> true_ranges bars))]>
       (frame_of_bars bars), Ok tt).
Proof.
  intros Hp. unfold add_atr.
  do 3 (rewrite bind_run; erewrite getitem_run; [| reflexivity | reflexivity]).
  rewrite bind_run, lift_run, (check_window_ok _ Hp), setitem_run.
  rewrite <- true_range_finite. unfold highs, lows, closes.
  by rewrite <- !list_fmap_compose.
Qed.

Lemma atr_cell bars period i :
  (1 ≤ period)%Z → (period - 1 ≤ Z.of_nat i)%Z → i < length bars →
  cell (run (add_atr period) (frame_of_bars bars)) (fname "atr" period) i
  = Some (Fin (Rsum (window (Z.to_nat period) i (true_ranges bars))
               / INR (Z.to_nat period))).
Proof.
  intros Hp Hi Hlen. unfold run. rewrite add_atr_run by lia. cbn [fst].
  unfold cell. rewrite lookup_insert_eq. unfold rolling_mean.
  assert (Hn : i < length (true_ranges bars)).
  { unfold true_ranges. by rewrite length_imap. }
  rewrite rolling_full by (done || lia).
  rewrite mean_nonempty by (rewrite window_length by done; lia).
  rewrite window_length by done. by rewrite Nat.min_l by lia.
Qed.

Lemma frame_of_bars_other bars name :
  name ∉ input_columns → frame_of_bars bars !! name = None.
Proof.
  intros Hfresh. unfold frame_of_bars.
  rewrite !lookup_insert_ne; [apply lookup_empty|..];
    intros <-; apply Hfresh; unfold input_columns; set_solver.
Qed.

Lemma add_atr_raise bars period :
  (period < 0)%Z → run (add_atr period) (frame_of_bars bars) = frame_of_bars bars.
Proof.
  intros Hp. unfold run, add_atr.
  do 3 (rewrite bind_run; erewrite getitem_run; [| reflexivity | reflexivity]).
  by rewrite bind_run, lift_run, (check_window_neg _ Hp).
Qed.

(** A defined ATR value sits at a row with a full window. *)
Lemma atr_cell_defined bars period i v :
  cell (run (add_atr period) (frame_of_bars bars)) (fname "atr" period) i
    = Some (Fin v) →
  (1 ≤ period)%Z ∧ (period - 1 ≤ Z.of_nat i)%Z ∧ i < length bars.
Proof.
  intros Hcell. destruct (decide (period < 0)%Z) as [Hneg|Hpos].
  { rewrite add_atr_raise in Hcell by done. unfold cell in Hcell.
    rewrite frame_of_bars_other in Hcell; [done|apply FrameFacts.fname_atr_fresh]. }
  unfold run in Hcell. rewrite add_atr_run in Hcell by lia. cbn [fst] in Hcell.
  unfold cell in Hcell. rewrite lookup_insert_eq in Hcell.
  assert (Hi : i < length bars).
  { apply lookup_lt_Some in Hcell. unfold rolling_mean in Hcell.
    rewrite rolling_length, length_fmap in Hcell. unfold true_ranges in Hcell.
    by rewrite length_imap in Hcell. }
  assert (Hn : i < length (true_ranges bars)).
  { unfold true_ranges. by rewrite length_imap. }
  destruct (decide (S i < Z.to_nat period)) as [Hwarm|Hfull].
  { unfold rolling_mean in Hcell.
    rewrite rolling_warmup in Hcell by (by rewrite ?length_fmap). done. }
  destruct (decide (period = 0)%Z) as [->|Hne]; [|lia].
  unfold rolling_mean in Hcell. rewrite rolling_full in Hcell by (done || lia).
  rewrite (nil_length_inv (window _ _ _)) in Hcell; [done|].
  by rewrite window_length by done.
Qed.

(** C9.  The true range of the first bar is [high - low]; the true range
    of every later bar is the largest of [high - low],
    [|high - previous close|] and [|low - previous close|]; and wherever
    the ATR column holds a number, that number is the mean of the last
    [period] true ranges, which is the case at every row from
    [period - 1] on. *)
Theorem atr_is_rolling_mean_of_true_range (bars : list Bar) (period : Z) :
  let tr := true_range (Fin <$> highs bars) (Fin <$> lows bars)
                       (Fin <$> closes bars) in
  let df := run (add_atr period) (frame_of_bars bars) in
  let w := Z.to_nat period in
  (∀ b, bars !! 0 = Some b → tr !! 0 = Some (Fin (high b - low b)))
  ∧ (∀ t b pb, bars !! S t = Some b → bars !! t = Some pb →
       tr !! S t
       = Some (Fin (Rmax (high b - low b)
                         (Rmax (Rabs (high b - close pb))
                               (Rabs (low b - close pb))))))
  ∧ tr = Fin <$> true_ranges bars
  ∧ (∀ i v, cell df (fname "atr" period) i = Some (Fin v) →
       v = (Rsum (window w i (true_ranges bars)) / INR w)%R)
  ∧ (∀ i, (1 ≤ period)%Z → (period - 1 ≤ Z.of_nat i)%Z → i < length bars →
       defined_at df (fname "atr" period) i).
Proof.
  intros tr df w. repeat split.
  - apply true_range_first.
  - apply true_range_later.
  - apply true_range_finite.
  - intros i v Hcell.
    destruct (atr_cell_defined _ _ _ _ Hcell) as (Hp & Hi & Hlen).
    subst df. rewrite atr_cell in Hcell by done. by injection Hcell as <-.
  - intros i Hp Hi Hlen. unfold defined_at. subst df.
    rewrite atr_cell by done. eexists; split; [done|]. by eexists.
Qed.

Lemma atr_is_rolling_mean_of_true_range_witness :
  cell (run (add_atr 2) (frame_of_bars Examples.bars_1_2_3)) (fname "atr" 2) 1
  = Some (Fin (window_mean 2 1 (true_ranges Examples.bars_1_2_3))).
Proof.
  destruct (atr_is_rolling_mean_of_true_range Examples.bars_1_2_3 2)
    as (_ & _ & _ & Hmean & Hdefined).
  destruct (Hdefined 1) as (x & Hx & v & ->); [lia | lia | simpl; lia |].
  rewrite Hx. by rewrite (Hmean 1 v Hx).
Defined.

End AtrFacts.

(** ** Relative strength index *)

Module RsiFacts.
Import Pandas Frame IndicatorEngine Spec RunFacts RollingFacts AtrFacts.

Lemma diff_lookup_0 (cs : list R) c :
  cs !! 0 = Some c → diff (Fin <$> cs) !! 0 = Some NaN.
Proof.
  intros Hc. unfold diff, sub. rewrite lookup_zip_with, list_lookup_fmap, Hc.
  rewrite shift_lookup_0; [done|].
  rewrite length_fmap. by apply lookup_lt_Some in Hc.
Qed.

Lemma diff_lookup_S (cs : list R) t c p :
  cs !! S t = Some c → cs !! t = Some p →
  diff (Fin <$> cs) !! S t = Some (Fin (c - p)).
Proof.
  intros Hc Hp. unfold diff, sub. rewrite lookup_zip_with, list_lookup_fmap, Hc.
  rewrite shift_lookup_S by (rewrite length_fmap; by apply lookup_lt_Some in Hc).
  by rewrite list_lookup_fmap, Hp.
Qed.

Lemma diff_length (s : series) : length (diff s) = length s.
Proof. unfold diff, sub. rewrite length_zip_with, shift_length. lia. Qed.

Lemma where_lookup (s : series) (f : fl → bool) other t :
  where_ s (f <$> s) other !! t
  = (λ x, if f x then x else other) <$> s !! t.
Proof.
  unfold where_. rewrite lookup_zip_with, list_lookup_fmap.
  by destruct (s !! t).
Qed.

Lemma gain_series (cs : list R) :
  where_ (diff (Fin <$> cs)) (gt_scalar (diff (Fin <$> cs)) (Fin 0)) (Fin 0)
  = Fin <$> gains cs.
Proof.
  apply list_eq. intros t. unfold gt_scalar. rewrite where_lookup.
  unfold gains. rewrite list_lookup_fmap, list_lookup_imap.
  destruct (cs !! t) as [c|] eqn:Hc; simpl.
  - destruct t as [|t].
    + by rewrite (diff_lookup_0 _ _ Hc).
    + destruct (cs !! t) as [p|] eqn:Hp.
      * rewrite (diff_lookup_S _ _ _ _ Hc Hp). simpl. unfold fgt, flt, Rmax.
        case_bool_decide; destruct (Rle_dec (c - p) 0); f_equal; lra.
      * apply lookup_ge_None in Hp. apply lookup_lt_Some in Hc. lia.
  - replace (diff (Fin <$> cs) !! t) with (@None fl); [done|].
    symmetry. apply lookup_ge_None. rewrite diff_length, length_fmap.
    by apply lookup_ge_None.
Qed.

Lemma loss_series (cs : list R) :
  neg (where_ (diff (Fin <$> cs)) (lt_scalar (diff (Fin <$> cs)) (Fin 0)) (Fin 0))
  = Fin <$> losses cs.
Proof.
  apply list_eq. intros t. unfold neg, lt_scalar.
  rewrite list_lookup_fmap, where_lookup.
  unfold losses. rewrite list_lookup_fmap, list_lookup_imap.
  destruct (cs !! t) as [c|] eqn:Hc; simpl.
  - destruct t as [|t].
    + rewrite (diff_lookup_0 _ _ Hc). simpl. do 2 f_equal. lra.
    + destruct (cs !! t) as [p|] eqn:Hp.
      * rewrite (diff_lookup_S _ _ _ _ Hc Hp). simpl. unfold flt, Rmax.
        case_bool_decide; destruct (Rle_dec (p - c) 0); simpl; do 2 f_equal; lra.
      * apply lookup_ge_None in Hp. apply lookup_lt_Some in Hc. lia.
  - replace (diff (Fin <$> cs) !! t) with (@None fl); [done|].
    symmetry. apply lookup_ge_None. rewrite diff_length, length_fmap.
    by apply lookup_ge_None.
Qed.

Lemma gains_length cs : length (gains cs) = length cs.
Proof. unfold gains. apply length_imap. Qed.

Lemma losses_length cs : length (losses cs) = length cs.
Proof. unfold losses. apply length_imap. Qed.

Lemma gains_nonneg cs : Forall (λ g, (0 <= g)%R) (gains cs).
Proof.
  apply Forall_lookup. intros t g. unfold gains. rewrite list_lookup_imap.
  destruct (cs !! t) as [c|]; simpl; [|done]. intros [= <-].
  destruct t; [lra|]. destruct (cs !! t); [apply Rmax_r|lra].
Qed.

Lemma losses_nonneg cs : Forall (λ g, (0 <= g)%R) (losses cs).
Proof.
  apply Forall_lookup. intros t g. unfold losses. rewrite list_lookup_imap.
  destruct (cs !! t) as [c|]; simpl; [|done]. intros [= <-].
  destruct t; [lra|]. destruct (cs !! t); [apply Rmax_r|lra].
Qed.

Lemma Rsum_nonneg xs : Forall (λ x, (0 <= x)%R) xs → (0 <= Rsum xs)%R.
Proof. induction 1; simpl; lra. Qed.

Lemma window_Forall {A} (P : A → Prop) w i (l : list A) :
  Forall P l → Forall P (window w i l).
Proof. intros. unfold window. by apply Forall_drop, Forall_take. Qed.

Lemma window_mean_nonneg w i xs :
  Forall (λ x, (0 <= x)%R) xs → (0 <= window_mean w i xs)%R.
Proof.
  intros Hxs. unfold window_mean.
  pose proof (Rsum_nonneg _ (window_Forall _ w i _ Hxs)).
  pose proof (pos_INR w). unfold Rdiv.
  destruct (decide (INR w = 0%R)) as [->|].
  - rewrite Rinv_0. lra.
  - apply Rmult_le_pos; [lra|]. left. apply Rinv_0_lt_compat. lra.
Qed.

Lemma rolling_mean_warmup w (s : series) i :
  i < length s → S i < w → rolling_mean w s !! i = Some NaN.
Proof. apply rolling_warmup. Qed.

Lemma rolling_mean_full w (xs : list R) i :
  1 ≤ w → w ≤ S i → i < length xs →
  rolling_mean w (Fin <$> xs) !! i = Some (Fin (window_mean w i xs)).
Proof.
  intros Hw Hi Hlen. unfold rolling_mean. rewrite rolling_full by done.
  rewrite mean_nonempty by (rewrite window_length by done; lia).
  rewrite window_length by done. by rewrite Nat.min_l by lia.
Qed.

Lemma rsi_gain_finite w cs : rsi_gain w (Fin <$> cs) = rolling_mean w (Fin <$> gains cs).
Proof. unfold rsi_gain. cbv zeta. by rewrite gain_series. Qed.

Lemma rsi_loss_finite w cs : rsi_loss w (Fin <$> cs) = rolling_mean w (Fin <$> losses cs).
Proof. unfold rsi_loss. cbv zeta. by rewrite loss_series. Qed.

Lemma rsi_of_lookup (gain loss : series) i g l :
  gain !! i = Some g → loss !! i = Some l →
  rsi_of gain loss !! i = Some (rsi_value g l).
Proof.
  intros Hg Hl. unfold rsi_of, rsub_scalar, rdiv_scalar, add_scalar, div.
  cbv zeta. by rewrite !list_lookup_fmap, lookup_zip_with, Hg, Hl.
Qed.

Lemma rsi_value_no_loss g : (0 < g)%R → rsi_value (Fin g) (Fin 0) = Fin 100.
Proof.
  intros Hg. unfold rsi_value. simpl.
  rewrite decide_True by done. rewrite decide_True by done. simpl.
  f_equal. lra.
Qed.

Lemma rsi_value_flat : rsi_value (Fin 0) (Fin 0) = NaN.
Proof.
  unfold rsi_value. simpl. rewrite decide_True by done.
  rewrite decide_False by lra. by rewrite decide_False by lra.
Qed.

Lemma rsi_value_loss g l :
  (0 <= g)%R → (0 < l)%R →
  rsi_value (Fin g) (Fin l) = Fin (100 - 100 / (1 + g / l)).
Proof.
  intros Hg Hl. unfold rsi_value. simpl.
  rewrite decide_False by lra.
  assert (0 <= g / l)%R.
  { unfold Rdiv. apply Rmult_le_pos; [lra|]. left. by apply Rinv_0_lt_compat. }
  simpl. rewrite decide_False by lra. done.
Qed.

Lemma rsi_formula_range r : (0 <= r)%R → (0 <= 100 - 100 / (1 + r) <= 100)%R.
Proof.
  intros Hr. assert (Hpos : (0 < 1 + r)%R) by lra.
  assert (H1 : (0 < / (1 + r))%R) by (by apply Rinv_0_lt_compat).
  assert (H2 : (/ (1 + r) <= 1)%R).
  { rewrite <- Rinv_1. apply Rinv_le_contravar; lra. }
  unfold Rdiv. lra.
Qed.

(** Every value the formula yields on two non-negative averages is [nan]
    or a number between 0 and 100. *)
Lemma rsi_value_range g l :
  (0 <= g)%R → (0 <= l)%R →
  rsi_value (Fin g) (Fin l) = NaN
  ∨ ∃ v, rsi_value (Fin g) (Fin l) = Fin v ∧ (0 <= v <= 100)%R.
Proof.
  intros Hg Hl. destruct (decide (0 < l)%R) as [Hpos|Hzero].
  - right. rewrite rsi_value_loss by done. eexists; split; [done|].
    apply rsi_formula_range. unfold Rdiv. apply Rmult_le_pos; [lra|].
    left. by apply Rinv_0_lt_compat.
  - assert (l = 0%R) as -> by lra. destruct (decide (0 < g)%R) as [Hgp|Hgz].
    + right. rewrite rsi_value_no_loss by done. eexists; split; [done|lra].
    + left. assert (g = 0%R) as -> by lra. apply rsi_value_flat.
Qed.

(** The RSI column of period [L] at a row of the bar series. *)
Lemma rsi_cell_warmup bars periods L i :
  Forall (λ p, (0 ≤ p)%Z) periods → L ∈ periods →
  i < length bars → S i < Z.to_nat L →
  cell (run (add_rsi periods) (frame_of_bars bars)) (fname "rsi" L) i = Some NaN.
Proof.
  intros Hall HL Hi Hwarm. destruct (add_rsi_ok periods bars Hall) as [df' Hrun].
  unfold run. rewrite Hrun. cbn [fst].
  destruct (add_rsi_column _ _ _ _ Hrun HL) as [_ Hcol].
  unfold cell. rewrite Hcol.
  assert (Hlen : i < length (Fin <$> gains (closes bars))).
  { rewrite length_fmap, gains_length. unfold closes. by rewrite length_fmap. }
  rewrite (rsi_of_lookup _ _ _ NaN NaN); [done| |].
  - rewrite rsi_gain_finite. by apply rolling_mean_warmup.
  - rewrite rsi_loss_finite. apply rolling_mean_warmup; [|done].
    rewrite length_fmap, losses_length. unfold closes. by rewrite length_fmap.
Qed.

Lemma rsi_cell_full bars periods L i :
  Forall (λ p, (0 ≤ p)%Z) periods → L ∈ periods → (1 ≤ L)%Z →
  i < length bars → Z.to_nat L ≤ S i →
  cell (run (add_rsi periods) (frame_of_bars bars)) (fname "rsi" L) i
  = Some (rsi_value (Fin (window_mean (Z.to_nat L) i (gains (closes bars))))
                    (Fin (window_mean (Z.to_nat L) i (losses (closes bars))))).
Proof.
  intros Hall HL HL1 Hi Hfull. destruct (add_rsi_ok periods bars Hall) as [df' Hrun].
  unfold run. rewrite Hrun. cbn [fst].
  destruct (add_rsi_column _ _ _ _ Hrun HL) as [_ Hcol].
  unfold cell. rewrite Hcol.
  assert (Hlen : i < length (closes bars)) by (unfold closes; by rewrite length_fmap).
  apply rsi_of_lookup.
  - rewrite rsi_gain_finite. apply rolling_mean_full; [lia|done|].
    by rewrite gains_length.
  - rewrite rsi_loss_finite. apply rolling_mean_full; [lia|done|].
    by rewrite losses_length.
Qed.

Lemma rsi_cell_in_range bars periods L i x :
  Forall (λ p, (0 ≤ p)%Z) periods → L ∈ periods → (1 ≤ L)%Z →
  cell (run (add_rsi periods) (frame_of_bars bars)) (fname "rsi" L) i = Some x →
  x = NaN ∨ ∃ v, x = Fin v ∧ (0 <= v <= 100)%R.
Proof.
  intros Hall HL HL1 Hcell.
  assert (Hi : i < length bars).
  { destruct (add_rsi_ok periods bars Hall) as [df' Hrun].
    unfold run in Hcell. rewrite Hrun in Hcell. cbn [fst] in Hcell.
    destruct (add_rsi_column _ _ _ _ Hrun HL) as [_ Hcol].
    unfold cell in Hcell. rewrite Hcol in Hcell.
    apply lookup_lt_Some in Hcell.
    unfold rsi_of, rsub_scalar, rdiv_scalar, add_scalar, div in Hcell.
    cbv zeta in Hcell. rewrite !length_fmap, length_zip_with in Hcell.
    rewrite rsi_gain_finite in Hcell. unfold rolling_mean in Hcell.
    rewrite rolling_length, length_fmap, gains_length in Hcell.
    unfold closes in Hcell. rewrite length_fmap in Hcell. lia. }
  destruct (decide (S i < Z.to_nat L)) as [Hwarm|Hfull].
  - rewrite rsi_cell_warmup in Hcell by done. left. congruence.
  - rewrite rsi_cell_full in Hcell by (done || lia). injection Hcell as <-.
    destruct (rsi_value_range
                (window_mean (Z.to_nat L) i (gains (closes bars)))
                (window_mean (Z.to_nat L) i (losses (closes bars))))
      as [Hnan|(v & Hv & Hrange)].
    + apply window_mean_nonneg, gains_nonneg.
    + apply window_mean_nonneg, losses_nonneg.
    + by left.
    + right. by exists v.
Qed.

(** C5.  At a row where the window of [L] rows is full, the code's two
    averages are the means of the last [L] gains and of the last [L]
    losses; if the average loss is 0 and the average gain is positive, the
    RSI cell holds exactly 100 (nothing is raised); and every RSI cell,
    at any row, holds [nan] or a number between 0 and 100. *)
Theorem rsi_no_loss_is_100_and_bounded bars periods L i :
  Forall (λ p, (0 ≤ p)%Z) periods → L ∈ periods → (1 ≤ L)%Z →
  let df := run (add_rsi periods) (frame_of_bars bars) in
  let w := Z.to_nat L in
  let avg_gain := window_mean w i (gains (closes bars)) in
  let avg_loss := window_mean w i (losses (closes bars)) in
  (w ≤ S i → i < length bars →
     rsi_gain w (Fin <$> closes bars) !! i = Some (Fin avg_gain)
     ∧ rsi_loss w (Fin <$> closes bars) !! i = Some (Fin avg_loss)
     ∧ (avg_loss = 0%R → (0 < avg_gain)%R →
          cell df (fname "rsi" L) i = Some (Fin 100)))
  ∧ (∀ x, cell df (fname "rsi" L) i = Some x →
       x = NaN ∨ ∃ v, x = Fin v ∧ (0 <= v <= 100)%R).
Proof.
  intros Hall HL HL1 df w avg_gain avg_loss. split.
  - intros Hfull Hi.
    assert (Hlen : i < length (closes bars)) by (unfold closes; by rewrite length_fmap).
    split; [|split].
    + rewrite rsi_gain_finite. apply rolling_mean_full; [lia|done|].
      by rewrite gains_length.
    + rewrite rsi_loss_finite. apply rolling_mean_full; [lia|done|].
      by rewrite losses_length.
    + intros Hloss Hgain. subst df. rewrite rsi_cell_full by done.
      fold w avg_gain avg_loss. rewrite Hloss. by rewrite rsi_value_no_loss.
  - intros x. by apply rsi_cell_in_range.
Qed.

Ltac real_cases :=
  unfold Rmax, Rmin;
  repeat match goal with
         | |- context [Rle_dec ?a ?b] => destruct (Rle_dec a b)
         end;
  try lra.

Lemma rsi_no_loss_is_100_and_bounded_witness :
  cell (run (add_rsi [2%Z]) (frame_of_bars Examples.bars_1_2_3)) (fname "rsi" 2) 2
  = Some (Fin 100).
Proof.
  destruct (rsi_no_loss_is_100_and_bounded Examples.bars_1_2_3 [2%Z] 2 2)
    as [H _]; [apply Forall_singleton; lia | by apply list_elem_of_singleton | lia |].
  destruct H as (_ & _ & H); [simpl; lia | simpl; lia |].
  apply H; unfold window_mean; change (Z.to_nat 2) with 2; cbn; real_cases.
Defined.

End RsiFacts.

(** ** Warm-up rows *)

Module WarmupFacts.
Import Pandas Frame IndicatorEngine Spec RunFacts RollingFacts AtrFacts BollFacts RsiFacts.

Lemma closes_length bars : length (closes bars) = length bars.
Proof. unfold closes. by rewrite length_fmap. Qed.

Lemma ma_cell_warmup bars periods L i :
  Forall (λ p, (0 ≤ p)%Z) periods → L ∈ periods →
  i < length bars → S i < Z.to_nat L →
  cell (run (add_ma periods) (frame_of_bars bars)) (fname "ma" L) i = Some NaN.
Proof.
  intros Hall HL Hi Hwarm. destruct (add_ma_ok periods bars Hall) as [df' Hrun].
  unfold run. rewrite Hrun. cbn [fst].
  destruct (add_ma_column _ _ _ _ Hrun HL) as [_ Hcol].
  unfold cell. rewrite Hcol. apply rolling_mean_warmup; [|done].
  by rewrite length_fmap, closes_length.
Qed.

Lemma ma_cell_full bars periods L i :
  Forall (λ p, (0 ≤ p)%Z) periods → L ∈ periods → (1 ≤ L)%Z →
  i < length bars → Z.to_nat L ≤ S i →
  cell (run (add_ma periods) (frame_of_bars bars)) (fname "ma" L) i
  = Some (Fin (window_mean (Z.to_nat L) i (closes bars))).
Proof.
  intros Hall HL HL1 Hi Hfull. destruct (add_ma_ok periods bars Hall) as [df' Hrun].
  unfold run. rewrite Hrun. cbn [fst].
  destruct (add_ma_column _ _ _ _ Hrun HL) as [_ Hcol].
  unfold cell. rewrite Hcol. apply rolling_mean_full; [lia|done|].
  by rewrite closes_length.
Qed.

Lemma atr_cell_warmup bars period i :
  (0 ≤ period)%Z → i < length bars → S i < Z.to_nat period →
  cell (run (add_atr period) (frame_of_bars bars)) (fname "atr" period) i = Some NaN.
Proof.
  intros Hp Hi Hwarm. unfold run. rewrite add_atr_run by done. cbn [fst].
  unfold cell. rewrite lookup_insert_eq. apply rolling_mean_warmup; [|done].
  rewrite length_fmap. unfold true_ranges. by rewrite length_imap.
Qed.

Lemma fmul_nan_r x : fmul x NaN = NaN.
Proof. destruct x; try done. simpl. by repeat case_decide. Qed.

Lemma boll_cells_warmup bars period k i :
  (0 ≤ period)%Z → i < length bars → S i < Z.to_nat period →
  let df := run (add_boll period k) (frame_of_bars bars) in
  undefined_at df "boll_mid" i ∧ undefined_at df "boll_std" i
  ∧ undefined_at df "boll_up" i ∧ undefined_at df "boll_down" i.
Proof.
  intros Hp Hi Hwarm df. subst df. unfold undefined_at.
  assert (Hlen : i < length (Fin <$> closes bars))
    by (by rewrite length_fmap, closes_length).
  destruct (boll_cells_of bars period k i NaN NaN Hp) as (-> & -> & -> & ->);
    [by apply rolling_mean_warmup | by apply rolling_warmup |].
  by rewrite fmul_nan_r.
Qed.

(** With [period = 1] a window holds one close, and the sample deviation
    of one value does not exist. *)
Lemma boll_cells_period_1 bars k i :
  i < length bars →
  let df := run (add_boll 1 k) (frame_of_bars bars) in
  defined_at df "boll_mid" i ∧ undefined_at df "boll_std" i
  ∧ undefined_at df "boll_up" i ∧ undefined_at df "boll_down" i.
Proof.
  intros Hi df. subst df. unfold undefined_at, defined_at.
  assert (Hlen : i < length (closes bars)) by (by rewrite closes_length).
  destruct (boll_cells_of bars 1 k i
              (Fin (window_mean 1 i (closes bars))) NaN) as (-> & -> & -> & ->);
    [lia | apply rolling_mean_full; (done || lia) | |].
  - unfold rolling_std. change (Z.to_nat 1) with 1.
    rewrite rolling_full by (done || lia).
    apply f_equal, std_ddof_short. rewrite window_length by done. lia.
  - rewrite fmul_nan_r. split; [|done]. eexists; split; [done|by eexists].
Qed.

Lemma defined_fin (df : DataFrame) name i v :
  cell df name i = Some (Fin v) → defined_at df name i.
Proof. intros H. exists (Fin v). split; [done|by exists v]. Qed.

Lemma defined_not_undefined (df : DataFrame) name i :
  defined_at df name i → undefined_at df name i → False.
Proof.
  intros (x & Hx & v & ->) Hnan. unfold undefined_at in Hnan. congruence.
Qed.

(** The RSI cell at a row with a full window: [nan] exactly when the
    window shows no price change at all. *)
Lemma rsi_cell_flat_iff bars periods L i :
  Forall (λ p, (0 ≤ p)%Z) periods → L ∈ periods → (1 ≤ L)%Z →
  i < length bars → Z.to_nat L ≤ S i →
  let df := run (add_rsi periods) (frame_of_bars bars) in
  let flat := window_mean (Z.to_nat L) i (gains (closes bars)) = 0%R
              ∧ window_mean (Z.to_nat L) i (losses (closes bars)) = 0%R in
  (undefined_at df (fname "rsi" L) i ↔ flat)
  ∧ (defined_at df (fname "rsi" L) i ↔ ¬ flat).
Proof.
  intros Hall HL HL1 Hi Hfull df flat. subst df flat.
  unfold undefined_at, defined_at. rewrite rsi_cell_full by done.
  set (g := window_mean (Z.to_nat L) i (gains (closes bars))).
  set (l := window_mean (Z.to_nat L) i (losses (closes bars))).
  assert (Hg : (0 <= g)%R) by apply window_mean_nonneg, gains_nonneg.
  assert (Hl : (0 <= l)%R) by apply window_mean_nonneg, losses_nonneg.
  destruct (decide (g = 0%R ∧ l = 0%R)) as [[Hg0 Hl0]|Hnot].
  - rewrite Hg0, Hl0, rsi_value_flat. split; [tauto|].
    split; [|tauto]. intros (x & [= <-] & v & Hv). discriminate Hv.
  - assert (Hdef : ∃ v, rsi_value (Fin g) (Fin l) = Fin v).
    { destruct (decide (0 < l)%R).
      - rewrite rsi_value_loss by done. by eexists.
      - assert (l = 0%R) as Hl0 by lra. rewrite Hl0.
        rewrite rsi_value_no_loss; [by eexists|].
        destruct (decide (g = 0%R)); [tauto|lra]. }
    destruct Hdef as [v Hv]. rewrite Hv. split.
    + split; [intros [=]|tauto].
    + split; [tauto|]. intros _. exists (Fin v). split; [done|by exists v].
Qed.

(** C2 (as the code has it).  For a lookback [L >= 1] and a row [i] of the
    bar series: before row [L - 1] the cell of every windowed indicator
    (moving average, RSI, the four Bollinger columns, ATR) is [nan], not 0
    and not a value over a shorter window.  From row [L - 1] on the moving
    average, the Bollinger middle band and the ATR hold a number; the
    Bollinger deviation and the two bands hold a number when [L >= 2] and
    [nan] when [L = 1]; and the RSI holds a number exactly when the average
    gain and the average loss of the window are not both 0. *)
Theorem windowed_indicators_warm_up bars periods (L : Z) (k : R) (i : nat) :
  Forall (λ p, (0 ≤ p)%Z) periods → L ∈ periods → (1 ≤ L)%Z →
  i < length bars →
  let df0 := frame_of_bars bars in
  let w := Z.to_nat L in
  let ma := run (add_ma periods) df0 in
  let rsi := run (add_rsi periods) df0 in
  let boll := run (add_boll L k) df0 in
  let atr := run (add_atr L) df0 in
  let flat := window_mean w i (gains (closes bars)) = 0%R
              ∧ window_mean w i (losses (closes bars)) = 0%R in
  (i < w - 1 →
     undefined_at ma (fname "ma" L) i
     ∧ undefined_at rsi (fname "rsi" L) i
     ∧ undefined_at boll "boll_mid" i ∧ undefined_at boll "boll_std" i
     ∧ undefined_at boll "boll_up" i ∧ undefined_at boll "boll_down" i
     ∧ undefined_at atr (fname "atr" L) i)
  ∧ (w - 1 ≤ i →
     defined_at ma (fname "ma" L) i
     ∧ defined_at atr (fname "atr" L) i
     ∧ defined_at boll "boll_mid" i
     ∧ ((2 ≤ L)%Z → defined_at boll "boll_std" i
                     ∧ defined_at boll "boll_up" i ∧ defined_at boll "boll_down" i)
     ∧ (L = 1%Z → undefined_at boll "boll_std" i
                  ∧ undefined_at boll "boll_up" i ∧ undefined_at boll "boll_down" i)
     ∧ (defined_at rsi (fname "rsi" L) i ↔ ¬ flat)
     ∧ (undefined_at rsi (fname "rsi" L) i ↔ flat)).
Proof.
  intros Hall HL HL1 Hi df0 w ma rsi boll atr flat. split.
  - intros Hwarm.
    destruct (boll_cells_warmup bars L k i) as (? & ? & ? & ?); [lia|done|lia|].
    repeat split; try done.
    + apply ma_cell_warmup; (done || lia).
    + apply rsi_cell_warmup; (done || lia).
    + apply atr_cell_warmup; (done || lia).
  - intros Hfull. subst w.
    destruct (rsi_cell_flat_iff bars periods L i) as [Hu Hd]; [done..|lia|].
    split; [|split; [|split; [|split; [|split; [|split]]]]]; try done.
    + eapply defined_fin. apply ma_cell_full; (done || lia).
    + eapply defined_fin. apply atr_cell; (done || lia).
    + destruct (decide (L = 1%Z)) as [->|].
      * by destruct (boll_cells_period_1 bars k i) as (? & _).
      * destruct (boll_aggregates bars L i) as (_ & Hmid & Hsd); [lia..|done|].
        destruct (boll_cells_of bars L k i _ _ ltac:(lia) Hmid Hsd) as (? & _).
        by eapply defined_fin.
    + intros HL2.
      destruct (boll_aggregates bars L i) as (_ & Hmid & Hsd); [lia..|done|].
      destruct (boll_cells_of bars L k i _ _ ltac:(lia) Hmid Hsd)
        as (_ & Hstd & Hup & Hdown).
      cbn [fadd fmul fsub fneg] in Hup, Hdown.
      split; [|split]; by eapply defined_fin.
    + intros ->. by destruct (boll_cells_period_1 bars k i) as (_ & ? & ? & ?).
Qed.

Lemma windowed_indicators_warm_up_witness :
  undefined_at (run (add_ma [2%Z]) (frame_of_bars Examples.bars_1_2_3))
               (fname "ma" 2) 0
  ∧ defined_at (run (add_ma [2%Z]) (frame_of_bars Examples.bars_1_2_3))
               (fname "ma" 2) 1.
Proof.
  split.
  - destruct (windowed_indicators_warm_up Examples.bars_1_2_3 [2%Z] 2 2 0)
      as [Hwarm _];
      [apply Forall_singleton; lia | by apply list_elem_of_singleton | lia
      | simpl; lia |].
    apply Hwarm. simpl; lia.
  - destruct (windowed_indicators_warm_up Examples.bars_1_2_3 [2%Z] 2 2 1)
      as [_ Hfull];
      [apply Forall_singleton; lia | by apply list_elem_of_singleton | lia
      | simpl; lia |].
    apply Hfull. simpl; lia.
Defined.

(** On three equal closes the RSI of period 2 at row 1, where the window of
    two rows is full, is [nan]: both averages are 0 and [0/0] is [nan]. *)
Lemma rsi_flat_window_counterexample :
  (Z.to_nat 2 - 1 ≤ 1)
  ∧ 1 < length Examples.bars_1_1_1
  ∧ cell (run (add_rsi [2%Z]) (frame_of_bars Examples.bars_1_1_1))
         (fname "rsi" 2) 1 = Some NaN
  ∧ ¬ defined_at (run (add_rsi [2%Z]) (frame_of_bars Examples.bars_1_1_1))
                 (fname "rsi" 2) 1.
Proof.
  assert (Hcell : cell (run (add_rsi [2%Z]) (frame_of_bars Examples.bars_1_1_1))
                       (fname "rsi" 2) 1 = Some NaN).
  { rewrite rsi_cell_full;
      [| apply Forall_singleton; lia | by apply list_elem_of_singleton | lia
       | simpl; lia | simpl; lia].
    change (Z.to_nat 2) with 2.
    assert (window_mean 2 1 (gains (closes Examples.bars_1_1_1)) = 0%R) as ->
      by (unfold window_mean; cbn; real_cases).
    assert (window_mean 2 1 (losses (closes Examples.bars_1_1_1)) = 0%R) as ->
      by (unfold window_mean; cbn; real_cases).
    by rewrite rsi_value_flat. }
  split; [simpl; lia|]. split; [simpl; lia|]. split; [done|].
  intros Hdef. by apply (defined_not_undefined _ _ _ Hdef).
Qed.

End WarmupFacts.

(** ** Cross detection *)

Module CrossFacts.
Import Pandas Frame IndicatorEngine Spec RunFacts RollingFacts AtrFacts.

Lemma detect_ma_cross_run (df : DataFrame) fast slow ca cb A B :
  df !! fname "ma" fast = Some ca → to_numeric ca = Ok A →
  df !! fname "ma" slow = Some cb → to_numeric cb = Ok B →
  run (detect_ma_cross fast slow) df !! "cross_signal"
  = Some (Ints (signals (sub A B))).
Proof.
  intros Ha HA Hb HB. unfold run, detect_ma_cross.
  rewrite bind_run, (getitem_run _ _ _ _ Ha HA).
  rewrite bind_run, (getitem_run _ _ _ _ Hb HB).
  rewrite bind_run, setitem_run.
  rewrite bind_run. unfold nrows at 1. rewrite lookup_insert_eq.
  rewrite bind_run, setitem_run.
  rewrite bind_run. unfold getitem at 1.
  rewrite lookup_insert_ne, lookup_insert_eq by done. cbn [to_numeric].
  rewrite bind_run. unfold loc_assign at 1. rewrite lookup_insert_eq.
  rewrite bind_run. unfold getitem at 1.
  rewrite !lookup_insert_ne, lookup_insert_eq by done. cbn [to_numeric].
  unfold loc_assign. rewrite lookup_insert_eq. cbn [fst].
  by rewrite lookup_insert_eq.
Qed.

Lemma signals_lookup (d : series) t dt dp :
  d !! t = Some dt → shift d !! t = Some dp →
  signals d !! t
  = Some (if flt dt (Fin 0) && fge dp (Fin 0) then (-1)%Z
          else if fgt dt (Fin 0) && fle dp (Fin 0) then 1%Z else 0%Z).
Proof.
  intros Hdt Hdp. unfold signals, death_mask, golden_mask.
  unfold lt_scalar, ge_scalar, gt_scalar, le_scalar.
  rewrite !lookup_zip_with, !list_lookup_fmap, Hdt, Hdp. simpl.
  rewrite lookup_replicate_2 by (by apply lookup_lt_Some in Hdt). done.
Qed.

Lemma signals_length (d : series) : length (signals d) = length d.
Proof.
  unfold signals, death_mask, golden_mask.
  unfold lt_scalar, ge_scalar, gt_scalar, le_scalar.
  rewrite !length_zip_with, !length_fmap, length_replicate, shift_length. lia.
Qed.

Lemma fsub_swap x y : fsub y x = fneg (fsub x y).
Proof. destruct x, y; simpl; try done. f_equal. lra. Qed.

Lemma flt_fneg_0 x : flt (fneg x) (Fin 0) = fgt x (Fin 0).
Proof.
  destruct x; simpl; try done. unfold fgt, flt.
  apply bool_decide_ext. lra.
Qed.

Lemma fge_fneg_0 x : fge (fneg x) (Fin 0) = fle x (Fin 0).
Proof.
  destruct x; simpl; try done. unfold fge, fle.
  apply bool_decide_ext. lra.
Qed.

Lemma diff_at_swap A B t : diff_at B A t = fneg (diff_at A B t).
Proof.
  unfold diff_at. destruct (A !! t), (B !! t); try done. apply fsub_swap.
Qed.

Lemma golden_death_swap A B t : golden_cross A B t ↔ death_cross B A t.
Proof.
  unfold golden_cross, death_cross. split; intros (t' & -> & H1 & H2);
    exists t'; rewrite !(diff_at_swap A B) in *;
    rewrite ?flt_fneg_0, ?fge_fneg_0 in *; done.
Qed.

Lemma sub_lookup_diff_at (A B : series) t x :
  sub A B !! t = Some x → x = diff_at A B t.
Proof.
  unfold sub, diff_at. rewrite lookup_zip_with.
  destruct (A !! t), (B !! t); simpl; congruence.
Qed.

(** The signal column against the definitions of the two events. *)
Lemma signals_golden (A B : series) t :
  signals (sub A B) !! t = Some 1%Z ↔ golden_cross A B t.
Proof.
  unfold golden_cross. destruct (sub A B !! t) as [dt|] eqn:Hdt.
  2: { split.
       - intros H%lookup_lt_Some. rewrite signals_length in H.
         apply lookup_ge_None in Hdt. lia.
       - intros (t' & -> & H1 & _). unfold sub in Hdt. rewrite lookup_zip_with in Hdt.
         unfold diff_at in H1. by destruct (A !! S t'), (B !! S t'). }
  pose proof (sub_lookup_diff_at _ _ _ _ Hdt) as ->.
  destruct t as [|t'].
  - rewrite (signals_lookup _ _ _ NaN Hdt)
      by (apply shift_lookup_0; by apply lookup_lt_Some in Hdt).
    rewrite !andb_false_r. split; [done|]. by intros (t' & [=] & _).
  - assert (Hlt : S t' < length (sub A B)) by (by apply lookup_lt_Some in Hdt).
    destruct (sub A B !! t') as [dp|] eqn:Hdp;
      [|apply lookup_ge_None in Hdp; lia].
    rewrite (signals_lookup _ _ _ dp Hdt) by (by rewrite shift_lookup_S).
    pose proof (sub_lookup_diff_at _ _ _ _ Hdp) as ->.
    split.
    + intros H. exists t'. split; [done|].
      destruct (flt _ _ && fge _ _); [done|].
      destruct (fgt _ _) eqn:?, (fle _ _) eqn:?; done.
    + intros (t'' & [= <-] & H1 & H2). rewrite H1, H2.
      unfold fgt in H1. replace (flt (diff_at A B (S t')) (Fin 0)) with false; [done|].
      destruct (diff_at A B (S t')); simpl in *; try done.
      symmetry. apply bool_decide_eq_false. apply bool_decide_eq_true in H1. lra.
Qed.

Lemma signals_death (A B : series) t :
  signals (sub A B) !! t = Some (-1)%Z ↔ death_cross A B t.
Proof.
  unfold death_cross. destruct (sub A B !! t) as [dt|] eqn:Hdt.
  2: { split.
       - intros H%lookup_lt_Some. rewrite signals_length in H.
         apply lookup_ge_None in Hdt. lia.
       - intros (t' & -> & H1 & _). unfold sub in Hdt. rewrite lookup_zip_with in Hdt.
         unfold diff_at in H1. by destruct (A !! S t'), (B !! S t'). }
  pose proof (sub_lookup_diff_at _ _ _ _ Hdt) as ->.
  destruct t as [|t'].
  - rewrite (signals_lookup _ _ _ NaN Hdt)
      by (apply shift_lookup_0; by apply lookup_lt_Some in Hdt).
    rewrite !andb_false_r. split; [done|]. by intros (t' & [=] & _).
  - assert (Hlt : S t' < length (sub A B)) by (by apply lookup_lt_Some in Hdt).
    destruct (sub A B !! t') as [dp|] eqn:Hdp;
      [|apply lookup_ge_None in Hdp; lia].
    rewrite (signals_lookup _ _ _ dp Hdt) by (by rewrite shift_lookup_S).
    pose proof (sub_lookup_diff_at _ _ _ _ Hdp) as ->.
    split.
    + intros H. exists t'. split; [done|].
      destruct (flt _ _) eqn:?, (fge _ _) eqn:?; cbn [andb] in H; try done;
        by destruct (fgt _ _ && fle _ _).
    + intros (t'' & [= <-] & H1 & H2). by rewrite H1, H2.
Qed.

(** C8.  Let [A] and [B] be the two moving-average columns of a frame.
    The signal of [detect_ma_cross] is 1 exactly at a golden cross of
    [(A, B)] and -1 exactly at a death cross of [(A, B)], in the sense of
    the definitions; a golden cross of [(A, B)] at a row is a death cross
    of [(B, A)] at that row and conversely; hence detection with the two
    columns swapped gives -1 where it gave 1 and 1 where it gave -1. *)
Theorem cross_detection_antisymmetric (df : DataFrame) fast slow ca cb A B t :
  df !! fname "ma" fast = Some ca → to_numeric ca = Ok A →
  df !! fname "ma" slow = Some cb → to_numeric cb = Ok B →
  let s := cross_signal (run (detect_ma_cross fast slow) df) t in
  let s' := cross_signal (run (detect_ma_cross slow fast) df) t in
  (s = Some 1%Z ↔ golden_cross A B t)
  ∧ (s = Some (-1)%Z ↔ death_cross A B t)
  ∧ (golden_cross A B t ↔ death_cross B A t)
  ∧ (death_cross A B t ↔ golden_cross B A t)
  ∧ (s = Some 1%Z ↔ s' = Some (-1)%Z)
  ∧ (s = Some (-1)%Z ↔ s' = Some 1%Z).
Proof.
  intros Ha HA Hb HB s s'. subst s s'. unfold cross_signal.
  rewrite (detect_ma_cross_run df fast slow ca cb A B) by done.
  rewrite (detect_ma_cross_run df slow fast cb ca B A) by done.
  pose proof (signals_golden A B t). pose proof (signals_death A B t).
  pose proof (signals_golden B A t). pose proof (signals_death B A t).
  pose proof (golden_death_swap A B t). pose proof (golden_death_swap B A t).
  tauto.
Qed.

Lemma cross_detection_antisymmetric_witness :
  cross_signal (run (detect_ma_cross 5 10) Examples.crossing_frame) 1 = Some 1%Z
  ∧ cross_signal (run (detect_ma_cross 10 5) Examples.crossing_frame) 1
    = Some (-1)%Z.
Proof.
  destruct (cross_detection_antisymmetric Examples.crossing_frame 5 10
              (Floats [Fin 1; Fin 3]) (Floats [Fin 2; Fin 2])
              [Fin 1; Fin 3] [Fin 2; Fin 2] 1)
    as (Hgolden & _ & _ & _ & Hswap & _); [reflexivity..|].
  assert (Hs : cross_signal (run (detect_ma_cross 5 10) Examples.crossing_frame) 1
               = Some 1%Z).
  { apply Hgolden. exists 0. split; [done|]. split.
    - apply bool_decide_eq_true. lra.
    - apply bool_decide_eq_true. lra. }
  split; [done|]. by apply Hswap.
Defined.

End CrossFacts.

(** ** Risk management *)

Module RiskFacts.
Import BaseStrategy RiskSpec.

Lemma py_div_ok a b : b ≠ 0%R → py_div a b = Ok (a / b)%R.
Proof. intros. unfold py_div. by rewrite decide_False. Qed.

Lemma py_div_zero a : py_div a 0 = Raise ZeroDivisionError.
Proof. unfold py_div. by rewrite decide_True. Qed.

Lemma result_bind_ok {A B} (a : A) (k : A → result B) : (Ok a ≫= k) = k a.
Proof. done. Qed.

End RiskFacts.

(** ** Trailing extremes *)

Module ExtremesFacts.
Import BaseStrategy RiskSpec.

Lemma py_max_ge a b : (a <= py_max a b)%R.
Proof. unfold py_max. case_decide; lra. Qed.








End ExtremesFacts.

(** ** Position sizing *)

Module SizingFacts.
Import BaseStrategy RiskSpec.


Lemma Int_part_IZR z : Int_part (IZR z) = z.
Proof.
  symmetry. apply Int_part_spec. split; lra.
Qed.


End SizingFacts.

(** ** Input columns are never written *)

Module InputFacts.
Import Pandas Frame IndicatorEngine Spec FrameFacts.

(** C10.  Whatever the frame and the arguments, and whether the call
    returns or raises, every operation of the engine leaves each input
    column ([datetime], [open], [high], [low], [close], [volume]) exactly
    as it was. *)
Theorem indicators_keep_input_columns
    (periods : list Z) (fast slow signal n m1 m2 period : Z) (k : R) :
  keeps_input_columns (add_ma periods)
  ∧ keeps_input_columns (add_ema periods)
  ∧ keeps_input_columns (add_macd fast slow signal)
  ∧ keeps_input_columns (add_kdj n m1 m2)
  ∧ keeps_input_columns (add_rsi periods)
  ∧ keeps_input_columns (add_boll period k)
  ∧ keeps_input_columns (add_atr period)
  ∧ keeps_input_columns (detect_ma_cross fast slow)
  ∧ keeps_input_columns calculate_all.
Proof.
  repeat split;
    auto using keeps_add_ma, keeps_add_ema, keeps_add_macd, keeps_add_kdj,
      keeps_add_rsi, keeps_add_boll, keeps_add_atr, keeps_detect_ma_cross,
      keeps_calculate_all.
Qed.

End InputFacts.

(** ** Exponentially weighted means *)

Module EwmFacts.
Import Pandas Frame IndicatorEngine Spec SmoothingSpec RunFacts RollingFacts.

Lemma prep_fin (cs : list R) : prep_value <$> (Fin <$> cs) = Some <$> cs.
Proof. by rewrite <- list_fmap_compose. Qed.

Lemma ewm_loop_length a w ow vals : length (ewm_loop a w ow vals) = length vals.
Proof.
  revert w ow. induction vals as [|cur rest IH]; intros w ow; [done|].
  simpl. destruct w, cur; simpl; by rewrite IH.
Qed.

Lemma ewm_mean_length a (s : series) : length (ewm_mean a s) = length s.
Proof.
  unfold ewm_mean. destruct s as [|x s]; [done|].
  simpl. by rewrite ewm_loop_length, length_fmap.
Qed.

(** On numbers only, the loop is the textbook recursion: the weight of the
    running average is back to 1 after every row. *)
Lemma ewm_loop_fin a w (cs : list R) :
  ewm_loop a (Some w) 1 (Some <$> cs) = Fin <$> ema_from a w cs.
Proof.
  revert w. induction cs as [|c cs IH]; intros w; [done|].
  simpl. assert (Hstep : (if decide (w = c) then w
                          else (1 * (1 - a) * w + a * c) / (1 * (1 - a) + a))%R
                         = (a * c + (1 - a) * w)%R).
  { case_decide; [subst; lra|]. field. lra. }
  rewrite Hstep. by rewrite IH.
Qed.

Lemma ewm_mean_fin a (cs : list R) :
  ewm_mean a (Fin <$> cs) = Fin <$> ema_list a cs.
Proof.
  unfold ewm_mean. rewrite prep_fin. destruct cs as [|c cs]; [done|].
  simpl. by rewrite ewm_loop_fin.
Qed.

Lemma ema_from_length a w cs : length (ema_from a w cs) = length cs.
Proof. revert w. induction cs; intros w; simpl; [done|]. by rewrite IHcs. Qed.

Lemma ema_list_length a cs : length (ema_list a cs) = length cs.
Proof. destruct cs; simpl; [done|]. by rewrite ema_from_length. Qed.

Lemma ema_from_lookup_0 a w c cs :
  ema_from a w (c :: cs) !! 0 = Some (a * c + (1 - a) * w)%R.
Proof. done. Qed.

(** One step of the recursion, read off the list. *)
Lemma ema_from_step a cs : ∀ w t e c,
  ema_from a w cs !! t = Some e → cs !! S t = Some c →
  ema_from a w cs !! S t = Some (a * c + (1 - a) * e)%R.
Proof.
  induction cs as [|c0 cs IH]; intros w t e c He Hc; [done|].
  destruct t as [|t]; simpl in *.
  - injection He as <-. destruct cs as [|c1 cs]; [done|].
    simpl in Hc. injection Hc as <-. done.
  - by apply IH.
Qed.

Lemma ema_list_step a cs t e c :
  ema_list a cs !! t = Some e → cs !! S t = Some c →
  ema_list a cs !! S t = Some (a * c + (1 - a) * e)%R.
Proof.
  destruct cs as [|c0 cs]; [done|]. simpl. intros He Hc.
  destruct t as [|t]; simpl in *.
  - injection He as <-. destruct cs as [|c1 cs]; [done|].
    simpl in Hc. injection Hc as <-. done.
  - by eapply ema_from_step.
Qed.

Lemma convex_combination a b w c lo hi :
  (0 <= a)%R → (0 < b)%R → (lo <= w <= hi)%R → (lo <= c <= hi)%R →
  (lo <= (a * w + b * c) / (a + b) <= hi)%R.
Proof.
  intros Ha Hb Hw Hc. assert (Hd : (0 < a + b)%R) by lra.
  split.
  - apply (Rmult_le_reg_r (a + b)); [done|].
    unfold Rdiv. rewrite Rmult_assoc, Rinv_l by lra. nra.
  - apply (Rmult_le_reg_r (a + b)); [done|].
    unfold Rdiv. rewrite Rmult_assoc, Rinv_l by lra. nra.
Qed.

(** The loop never leaves the interval its observations lie in, whatever
    rows are missing in between. *)
Lemma ewm_loop_range a lo hi vals : ∀ w ow,
  (0 < a <= 1)%R → (0 <= ow)%R →
  (∀ v, w = Some v → (lo <= v <= hi)%R) →
  Forall (λ o, ∀ v, o = Some v → (lo <= v <= hi)%R) vals →
  Forall (in_range lo hi) (ewm_loop a w ow vals).
Proof.
  induction vals as [|cur rest IH]; intros w ow Ha How Hw Hvals; [constructor|].
  apply Forall_cons in Hvals as [Hcur Hrest]. simpl.
  destruct w as [w|], cur as [c|]; simpl.
  - assert (How' : (0 <= ow * (1 - a))%R) by (apply Rmult_le_pos; lra).
    assert (Hnew : (lo <= (if decide (w = c) then w
                           else (ow * (1 - a) * w + a * c) / (ow * (1 - a) + a))
                    <= hi)%R).
    { case_decide; [by apply Hw|].
      apply convex_combination; [done|lra|by apply Hw|by apply Hcur]. }
    constructor.
    + right. by eexists.
    + apply IH; [done|lra| |done]. by intros v [= <-].
  - constructor.
    + right. eexists; split; [done|by apply Hw].
    + apply IH; [done| |done|done]. apply Rmult_le_pos; lra.
  - constructor.
    + right. eexists; split; [done|by apply Hcur].
    + apply IH; [done|done| |done]. intros v [= <-]. by apply Hcur.
  - constructor; [by left|]. apply IH; done.
Qed.

Lemma in_range_observation lo hi (x : fl) v :
  in_range lo hi x → prep_value x = Some v → (lo <= v <= hi)%R.
Proof. intros [->|(u & -> & Hu)]; [done|]. by intros [= <-]. Qed.

Lemma ewm_mean_range a lo hi (s : series) :
  (0 < a <= 1)%R → Forall (in_range lo hi) s →
  Forall (in_range lo hi) (ewm_mean a s).
Proof.
  intros Ha Hs. unfold ewm_mean. destruct s as [|x s]; [constructor|].
  apply Forall_cons in Hs as [Hx Hs]. simpl. constructor.
  - destruct Hx as [->|(v & -> & Hv)]; [by left|]. right. by eexists.
  - apply ewm_loop_range; [done|lra| |].
    + intros v Hv. by eapply in_range_observation.
    + apply Forall_fmap. eapply Forall_impl; [done|].
      intros y Hy v Hv. by eapply in_range_observation.
Qed.

End EwmFacts.

(** ** Exponential moving averages *)

Module EmaFacts.
Import Pandas Frame IndicatorEngine Spec SmoothingSpec RunFacts RollingFacts EwmFacts.

(** A loop that writes one column per period from the [close] column,
    after a check of the period that may raise. *)
Section checked_loop.
Context {X : Type}.
Variable prefix : string.
Variable chk : Z → result X.
Variable g : X → series → series.
Hypothesis prefix_not_close : ∀ p, fname prefix p ≠ "close".

Let body : Z → M unit := λ period,
  close ← getitem "close";
  x ← lift (chk period);
  setitem (fname prefix period) (Floats (g x close)).

Lemma checked_loop_spec periods : ∀ (df : DataFrame) c cl,
  df !! "close" = Some c → to_numeric c = Ok cl →
  Forall (λ p, ∃ x, chk p = Ok x) periods →
  ∃ df', for_each periods body df = (df', Ok tt)
    ∧ df' !! "close" = Some c
    ∧ (∀ L x, L ∈ periods → chk L = Ok x →
         df' !! fname prefix L = Some (Floats (g x cl)))
    ∧ (∀ k, (∀ p, p ∈ periods → k ≠ fname prefix p) → df' !! k = df !! k).
Proof.
  induction periods as [|p ps IH]; intros df c cl Hc Hcl Hall.
  - exists df. split; [done|]. split; [done|]. split; [|done].
    by intros L x ?%elem_of_nil.
  - apply Forall_cons in Hall as [[xp Hp] Hall].
    set (df1 := <[fname prefix p := Floats (g xp cl)]> df).
    assert (Hc1 : df1 !! "close" = Some c)
      by (subst df1; by rewrite lookup_insert_ne).
    destruct (IH df1 c cl Hc1 Hcl Hall) as (df' & Hrun & Hc' & Hcols & Hrest).
    exists df'. split; [|split; [done|split]].
    + change (for_each (p :: ps) body df)
        with ((body p ≫= λ _, for_each ps body) df).
      rewrite bind_run. unfold body at 1.
      rewrite bind_run, (getitem_run _ _ _ _ Hc Hcl), bind_run, lift_run, Hp.
      by rewrite setitem_run.
    + intros L x [->|HL]%elem_of_cons HxL.
      * destruct (decide (p ∈ ps)) as [Hin|Hout]; [by apply Hcols|].
        rewrite Hrest.
        -- subst df1. rewrite lookup_insert_eq. congruence.
        -- intros q Hq Heq. apply (inj _) in Heq. by subst.
      * by apply Hcols.
    + intros k Hk. rewrite Hrest.
      * subst df1. apply lookup_insert_ne. intros <-.
        apply (Hk p); [|done]. apply elem_of_cons. by left.
      * intros q Hq. apply Hk, elem_of_cons. by right.
Qed.
End checked_loop.

Lemma alpha_of_span_ok L : (1 ≤ L)%Z → alpha_of_span L = Ok (2 / (IZR L + 1))%R.
Proof. intros. unfold alpha_of_span. by rewrite decide_True. Qed.

Lemma alpha_of_span_range L :
  (1 ≤ L)%Z → (0 < 2 / (IZR L + 1) <= 1)%R.
Proof.
  intros HL. apply IZR_le in HL.
  assert (Hd : (0 < IZR L + 1)%R) by lra. split.
  - apply Rdiv_lt_0_compat; lra.
  - apply (Rmult_le_reg_r (IZR L + 1)); [done|].
    unfold Rdiv. rewrite Rmult_assoc, Rinv_l by lra. lra.
Qed.

Lemma add_ema_column periods bars L :
  Forall (λ p, (1 ≤ p)%Z) periods → L ∈ periods →
  (add_ema periods (frame_of_bars bars)).2 = Ok tt
  ∧ run (add_ema periods) (frame_of_bars bars) !! fname "ema" L
    = Some (Floats (Fin <$> ema_list (2 / (IZR L + 1)) (closes bars))).
Proof.
  intros Hall HL.
  destruct (checked_loop_spec "ema" alpha_of_span ewm_mean ltac:(done)
              periods (frame_of_bars bars) _ _
              (close_of_bars bars) (float_column_numeric close bars))
    as (df' & Hrun & _ & Hcols & _).
  { eapply Forall_impl; [done|]. intros p Hp. eexists. by apply alpha_of_span_ok. }
  unfold run, add_ema. rewrite Hrun. split; [done|]. cbn [fst].
  rewrite (Hcols L _ HL (alpha_of_span_ok L ltac:(by eapply Forall_forall in Hall))).
  by rewrite ewm_mean_fin.
Qed.

Lemma ema_cell bars periods L t :
  Forall (λ p, (1 ≤ p)%Z) periods → L ∈ periods →
  cell (run (add_ema periods) (frame_of_bars bars)) (fname "ema" L) t
  = Fin <$> ema_list (2 / (IZR L + 1)) (closes bars) !! t.
Proof.
  intros Hall HL. unfold cell.
  destruct (add_ema_column periods bars L Hall HL) as [_ ->].
  by rewrite list_lookup_fmap.
Qed.

(** X1.  The EMA column of span [L >= 1] has no warm-up: row 0 holds the
    first close, and every later row holds
    [a * close + (1 - a) * previous EMA] with [a = 2 / (L + 1)]. *)
Theorem ema_is_recursive_smoothing bars periods L :
  Forall (λ p, (1 ≤ p)%Z) periods → L ∈ periods →
  let df := run (add_ema periods) (frame_of_bars bars) in
  let a := (2 / (IZR L + 1))%R in
  (∀ t, t < length bars → defined_at df (fname "ema" L) t)
  ∧ (∀ b, bars !! 0 = Some b → cell df (fname "ema" L) 0 = Some (Fin (close b)))
  ∧ (∀ t e b, cell df (fname "ema" L) t = Some (Fin e) → bars !! S t = Some b →
       cell df (fname "ema" L) (S t) = Some (Fin (a * close b + (1 - a) * e))).
Proof.
  intros Hall HL df a. subst df. split; [|split].
  - intros t Ht. unfold defined_at. rewrite ema_cell by done.
    destruct (lookup_lt_is_Some_2 (ema_list a (closes bars)) t) as [e He].
    { rewrite ema_list_length. unfold closes. by rewrite length_fmap. }
    fold a. rewrite He. eexists; split; [done|by eexists].
  - intros b Hb. rewrite ema_cell by done. unfold closes.
    destruct bars as [|b0 bars]; [done|]. simpl in *. by injection Hb as ->.
  - intros t e b He Hb. rewrite ema_cell in * by done. fold a in He |- *.
    destruct (ema_list a (closes bars) !! t) as [e'|] eqn:He'; [|done].
    injection He as <-.
    erewrite ema_list_step; [done|done|].
    unfold closes. by rewrite list_lookup_fmap, Hb.
Qed.

Lemma ema_is_recursive_smoothing_witness :
  let df := run (add_ema [3%Z]) (frame_of_bars Examples.bars_1_2_3) in
  cell df (fname "ema" 3) 0 = Some (Fin 1)
  ∧ cell df (fname "ema" 3) 1 = Some (Fin (2 / (3 + 1) * 2 + (1 - 2 / (3 + 1)) * 1)).
Proof.
  intros df.
  destruct (ema_is_recursive_smoothing Examples.bars_1_2_3 [3%Z] 3)
    as (_ & H0 & Hstep); [apply Forall_singleton; lia | by apply list_elem_of_singleton |].
  split.
  - by apply (H0 (Examples.flat_bar 1)).
  - apply (Hstep 0 1%R (Examples.flat_bar 2)); [|done].
    by apply (H0 (Examples.flat_bar 1)).
Defined.

(** X2.  The EMA never leaves the range of the closes: if every close
    lies between [lo] and [hi], so does every value of the EMA column.  In
    particular the EMA of a constant series is that constant. *)
Theorem ema_stays_within_closes bars periods L lo hi :
  Forall (λ p, (1 ≤ p)%Z) periods → L ∈ periods →
  Forall (λ b, (lo <= close b <= hi)%R) bars →
  ∀ t, t < length bars →
    ∃ v, cell (run (add_ema periods) (frame_of_bars bars)) (fname "ema" L) t
         = Some (Fin v)
       ∧ (lo <= v <= hi)%R.
Proof.
  intros Hall HL Hbars t Ht. unfold cell.
  destruct (add_ema_column periods bars L Hall HL) as [_ ->].
  rewrite <- ewm_mean_fin.
  assert (Hrange : Forall (in_range lo hi)
                     (ewm_mean (2 / (IZR L + 1)) (Fin <$> closes bars))).
  { apply ewm_mean_range.
    - apply alpha_of_span_range. by eapply Forall_forall in Hall.
    - unfold closes. rewrite <- list_fmap_compose. apply Forall_fmap.
      eapply Forall_impl; [done|]. intros b Hb. right. by eexists. }
  rewrite ewm_mean_fin in *.
  destruct (lookup_lt_is_Some_2 (ema_list (2 / (IZR L + 1)) (closes bars)) t)
    as [e He].
  { rewrite ema_list_length. unfold closes. by rewrite length_fmap. }
  rewrite list_lookup_fmap, He. exists e. split; [done|].
  eapply Forall_lookup_1 in Hrange; [|by rewrite list_lookup_fmap, He].
  destruct Hrange as [?|(v & [= <-] & Hv)]; done.
Qed.

Lemma ema_stays_within_closes_witness :
  ∃ v, cell (run (add_ema [3%Z]) (frame_of_bars Examples.bars_1_1_1))
            (fname "ema" 3) 2 = Some (Fin v)
     ∧ (1 <= v <= 1)%R.
Proof.
  apply (ema_stays_within_closes Examples.bars_1_1_1 [3%Z] 3 1 1).
  - apply Forall_singleton. lia.
  - by apply list_elem_of_singleton.
  - repeat constructor; simpl; lra.
  - simpl. lia.
Defined.

End EmaFacts.

(** ** MACD *)

Module MacdFacts.
Import Pandas Frame IndicatorEngine Spec SmoothingSpec RunFacts RollingFacts EwmFacts EmaFacts.

Lemma sub_fin (xs ys : list R) :
  sub (Fin <$> xs) (Fin <$> ys) = Fin <$> zip_with Rminus xs ys.
Proof.
  unfold sub. revert ys. induction xs as [|x xs IH]; intros [|y ys]; try done.
  simpl. by rewrite IH.
Qed.

Lemma mul_scalar_fin c (xs : list R) :
  mul_scalar (Fin c) (Fin <$> xs) = Fin <$> (Rmult c <$> xs).
Proof. unfold mul_scalar. by rewrite <- !list_fmap_compose. Qed.

(** The three numeric series behind the MACD columns. *)
Section macd_series.
Variables (bars : list Bar) (fast slow signal : Z).

Let dif : list R :=
  zip_with Rminus (ema_list (2 / (IZR fast + 1)) (closes bars))
                  (ema_list (2 / (IZR slow + 1)) (closes bars)).
Let dea : list R := ema_list (2 / (IZR signal + 1)) dif.
Let hist : list R := Rmult 2 <$> zip_with Rminus dif dea.

Lemma add_macd_run :
  (1 ≤ fast)%Z → (1 ≤ slow)%Z → (1 ≤ signal)%Z →
  add_macd fast slow signal (frame_of_bars bars)
  = (<["macd_hist" := Floats (Fin <$> hist)]>
     (<["macd_dea" := Floats (Fin <$> dea)]>
     (<["macd_dif" := Floats (Fin <$> dif)]> (frame_of_bars bars))), Ok tt).
Proof.
  intros Hf Hs Hg. unfold add_macd.
  rewrite bind_run, (getitem_run _ _ _ _ (close_of_bars bars)
                       (float_column_numeric close bars)).
  rewrite bind_run, lift_run, (alpha_of_span_ok _ Hf).
  rewrite bind_run, (getitem_run _ _ _ _ (close_of_bars bars)
                       (float_column_numeric close bars)).
  rewrite bind_run, lift_run, (alpha_of_span_ok _ Hs).
  rewrite bind_run, setitem_run.
  fold (closes bars). rewrite !ewm_mean_fin, sub_fin. fold dif.
  rewrite bind_run. unfold getitem at 1. rewrite lookup_insert_eq. cbn [to_numeric].
  rewrite bind_run, lift_run, (alpha_of_span_ok _ Hg).
  rewrite bind_run, setitem_run. rewrite ewm_mean_fin. fold dea.
  rewrite bind_run. unfold getitem at 1.
  rewrite lookup_insert_ne, lookup_insert_eq by done. cbn [to_numeric].
  rewrite bind_run. unfold getitem at 1. rewrite lookup_insert_eq. cbn [to_numeric].
  rewrite setitem_run, sub_fin, mul_scalar_fin. done.
Qed.

Lemma macd_cells t :
  (1 ≤ fast)%Z → (1 ≤ slow)%Z → (1 ≤ signal)%Z →
  let df := run (add_macd fast slow signal) (frame_of_bars bars) in
  cell df "macd_dif" t = Fin <$> dif !! t
  ∧ cell df "macd_dea" t = Fin <$> dea !! t
  ∧ cell df "macd_hist" t = Fin <$> hist !! t.
Proof.
  intros Hf Hs Hg df. subst df. unfold run. rewrite add_macd_run by done.
  cbn [fst]. unfold cell.
  rewrite !lookup_insert_ne, !lookup_insert_eq by done.
  rewrite lookup_insert_ne, lookup_insert_eq by done.
  by rewrite !list_lookup_fmap.
Qed.

Lemma macd_lengths :
  length dif = length bars ∧ length dea = length bars.
Proof.
  subst dea dif. rewrite ema_list_length, length_zip_with, !ema_list_length.
  unfold closes. rewrite length_fmap. lia.
Qed.
End macd_series.

Lemma ema_list_range a lo hi cs :
  (0 < a <= 1)%R → Forall (λ c, (lo <= c <= hi)%R) cs →
  Forall (λ e, (lo <= e <= hi)%R) (ema_list a cs).
Proof.
  intros Ha Hcs.
  assert (Hr : Forall (in_range lo hi) (ewm_mean a (Fin <$> cs))).
  { apply ewm_mean_range; [done|]. apply Forall_fmap.
    eapply Forall_impl; [done|]. intros c Hc. right. by eexists. }
  rewrite ewm_mean_fin, Forall_fmap in Hr.
  eapply Forall_impl; [done|]. intros e [?|(v & [= <-] & Hv)]; done.
Qed.

Lemma zip_with_minus_range lo hi (xs ys : list R) :
  Forall (λ c, (lo <= c <= hi)%R) xs → Forall (λ c, (lo <= c <= hi)%R) ys →
  Forall (λ d, (- (hi - lo) <= d <= hi - lo)%R) (zip_with Rminus xs ys).
Proof.
  intros Hxs. revert ys. induction Hxs as [|x xs Hx Hxs IH]; intros ys Hys; [constructor|].
  destruct Hys as [|y ys Hy Hys]; [constructor|]. simpl.
  constructor; [lra|]. by apply IH.
Qed.

(** X3.  At every row the MACD line is the EMA of span [fast] minus the
    EMA of span [slow], as [add_ema] computes them; the signal line
    starts at the MACD line and then follows
    [a * MACD + (1 - a) * previous signal] with [a = 2 / (signal + 1)];
    and the histogram is twice the MACD line minus the signal line.  No
    row is undefined. *)
Theorem macd_from_emas bars fast slow signal :
  (1 ≤ fast)%Z → (1 ≤ slow)%Z → (1 ≤ signal)%Z →
  let emas := run (add_ema [fast; slow]) (frame_of_bars bars) in
  let macd := run (add_macd fast slow signal) (frame_of_bars bars) in
  let a := (2 / (IZR signal + 1))%R in
  (∀ t, t < length bars →
     ∃ ef es d,
       cell emas (fname "ema" fast) t = Some (Fin ef)
       ∧ cell emas (fname "ema" slow) t = Some (Fin es)
       ∧ cell macd "macd_dif" t = Some (Fin (ef - es))
       ∧ cell macd "macd_dea" t = Some (Fin d)
       ∧ cell macd "macd_hist" t = Some (Fin (2 * (ef - es - d)))
       ∧ (t = 0 → d = (ef - es)%R))
  ∧ (∀ t d e, cell macd "macd_dif" (S t) = Some (Fin d) →
       cell macd "macd_dea" t = Some (Fin e) →
       cell macd "macd_dea" (S t) = Some (Fin (a * d + (1 - a) * e))).
Proof.
  intros Hf Hs Hg emas macd a.
  assert (Hall : Forall (λ p, (1 ≤ p)%Z) [fast; slow]) by (by repeat constructor).
  split.
  - intros t Ht.
    destruct (macd_cells bars fast slow signal t Hf Hs Hg) as (Hdif & Hdea & Hhist).
    destruct (macd_lengths bars fast slow signal) as [Hldif Hldea].
    fold macd in Hdif, Hdea, Hhist. fold a in Hdea, Hhist, Hldea.
    set (efs := ema_list (2 / (IZR fast + 1)) (closes bars)) in *.
    set (ess := ema_list (2 / (IZR slow + 1)) (closes bars)) in *.
    destruct (lookup_lt_is_Some_2 efs t) as [ef Hef].
    { subst efs. rewrite ema_list_length. unfold closes. by rewrite length_fmap. }
    destruct (lookup_lt_is_Some_2 ess t) as [es Hes].
    { subst ess. rewrite ema_list_length. unfold closes. by rewrite length_fmap. }
    destruct (lookup_lt_is_Some_2 (ema_list a (zip_with Rminus efs ess)) t)
      as [d Hd]; [lia|].
    exists ef, es, d. subst emas.
    rewrite !ema_cell by (done || set_solver). fold efs ess.
    rewrite Hef, Hes. split; [done|]. split; [done|].
    rewrite Hdif, Hdea, Hhist.
    rewrite list_lookup_fmap, !lookup_zip_with, Hef, Hes, Hd. simpl.
    repeat split; try done.
    intros ->. destruct (zip_with Rminus efs ess) as [|d0 ds] eqn:Hz; [done|].
    simpl in Hd. injection Hd as <-.
    assert (Hz0 : zip_with Rminus efs ess !! 0 = Some d0) by (by rewrite Hz).
    rewrite lookup_zip_with, Hef, Hes in Hz0. simpl in Hz0. by injection Hz0.
  - intros t d e Hd He.
    destruct (macd_cells bars fast slow signal t Hf Hs Hg) as (_ & Hdea & _).
    destruct (macd_cells bars fast slow signal (S t) Hf Hs Hg) as (Hdif' & Hdea' & _).
    fold macd in Hdea, Hdif', Hdea'. fold a in Hdea, Hdea'.
    rewrite Hdif' in Hd. rewrite Hdea in He. rewrite Hdea'.
    destruct (_ !! S t) as [d'|] eqn:Hd' in Hd; [|done]. injection Hd as ->.
    destruct (_ !! t) as [e'|] eqn:He' in He; [|done]. injection He as ->.
    by erewrite ema_list_step.
Qed.

Lemma macd_from_emas_witness :
  ∃ ef es d,
    cell (run (add_ema [2%Z; 3%Z]) (frame_of_bars Examples.bars_1_2_3))
         (fname "ema" 2) 1 = Some (Fin ef)
    ∧ cell (run (add_ema [2%Z; 3%Z]) (frame_of_bars Examples.bars_1_2_3))
           (fname "ema" 3) 1 = Some (Fin es)
    ∧ cell (run (add_macd 2 3 2) (frame_of_bars Examples.bars_1_2_3))
           "macd_dif" 1 = Some (Fin (ef - es))
    ∧ cell (run (add_macd 2 3 2) (frame_of_bars Examples.bars_1_2_3))
           "macd_dea" 1 = Some (Fin d)
    ∧ cell (run (add_macd 2 3 2) (frame_of_bars Examples.bars_1_2_3))
           "macd_hist" 1 = Some (Fin (2 * (ef - es - d))).
Proof.
  destruct (macd_from_emas Examples.bars_1_2_3 2 3 2) as [Hrow _]; [lia..|].
  destruct (Hrow 1) as (ef & es & d & H1 & H2 & H3 & H4 & H5 & _); [simpl; lia|].
  by exists ef, es, d.
Defined.

(** X4.  If every close lies between [lo] and [hi], the MACD line and the
    signal line stay within [hi - lo] of zero and the histogram within
    [4 * (hi - lo)].  On a constant price all three are 0 at every row. *)
Theorem macd_bounded_by_price_range bars fast slow signal lo hi :
  (1 ≤ fast)%Z → (1 ≤ slow)%Z → (1 ≤ signal)%Z →
  Forall (λ b, (lo <= close b <= hi)%R) bars →
  let macd := run (add_macd fast slow signal) (frame_of_bars bars) in
  ∀ t, t < length bars →
    ∃ d e h,
      cell macd "macd_dif" t = Some (Fin d)
      ∧ cell macd "macd_dea" t = Some (Fin e)
      ∧ cell macd "macd_hist" t = Some (Fin h)
      ∧ (Rabs d <= hi - lo)%R ∧ (Rabs e <= hi - lo)%R
      ∧ (Rabs h <= 4 * (hi - lo))%R
      ∧ (lo = hi → d = 0%R ∧ e = 0%R ∧ h = 0%R).
Proof.
  intros Hf Hs Hg Hbars macd t Ht.
  destruct (macd_cells bars fast slow signal t Hf Hs Hg) as (Hdif & Hdea & Hhist).
  destruct (macd_lengths bars fast slow signal) as [Hldif Hldea].
  fold macd in Hdif, Hdea, Hhist.
  assert (Hcs : Forall (λ c, (lo <= c <= hi)%R) (closes bars)).
  { unfold closes. apply Forall_fmap. by eapply Forall_impl. }
  set (difs := zip_with Rminus (ema_list (2 / (IZR fast + 1)) (closes bars))
                               (ema_list (2 / (IZR slow + 1)) (closes bars))) in *.
  set (deas := ema_list (2 / (IZR signal + 1)) difs) in *.
  assert (Hdifs : Forall (λ d, (- (hi - lo) <= d <= hi - lo)%R) difs).
  { apply zip_with_minus_range; apply ema_list_range;
      (done || by apply alpha_of_span_range). }
  assert (Hdeas : Forall (λ d, (- (hi - lo) <= d <= hi - lo)%R) deas).
  { apply ema_list_range; [by apply alpha_of_span_range|done]. }
  destruct (lookup_lt_is_Some_2 difs t) as [d Hd]; [lia|].
  destruct (lookup_lt_is_Some_2 deas t) as [e He]; [lia|].
  pose proof (Forall_lookup_1 _ _ _ _ Hdifs Hd) as Hdr.
  pose proof (Forall_lookup_1 _ _ _ _ Hdeas He) as Her.
  cbv beta in Hdr, Her.
  exists d, e, (2 * (d - e))%R.
  rewrite Hdif, Hdea, Hhist, list_lookup_fmap, lookup_zip_with, Hd, He. simpl.
  repeat split; try done.
  - apply Rabs_le. lra.
  - apply Rabs_le. lra.
  - apply Rabs_le. lra.
  - lra.
  - lra.
  - lra.
Qed.

Lemma macd_bounded_by_price_range_witness :
  cell (run (add_macd 12 26 9) (frame_of_bars Examples.bars_1_1_1)) "macd_hist" 2
  = Some (Fin 0).
Proof.
  destruct (macd_bounded_by_price_range Examples.bars_1_1_1 12 26 9 1 1)
    with (t := 2) as (d & e & h & _ & _ & Hh & _ & _ & _ & Hzero);
    [lia | lia | lia | repeat constructor; simpl; lra | simpl; lia |].
  destruct Hzero as (_ & _ & ->); done.
Defined.

End MacdFacts.

(** ** KDJ *)

Module KdjFacts.
Import Pandas Frame IndicatorEngine Spec SmoothingSpec RunFacts RollingFacts.
Import AtrFacts EwmFacts WarmupFacts.

Lemma one_over_ok m : (1 ≤ m)%Z → one_over m = Ok (1 / IZR m)%R.
Proof. intros. unfold one_over. rewrite decide_False; [done|lia]. Qed.

Lemma one_over_range m : (1 ≤ m)%Z → (0 < 1 / IZR m <= 1)%R.
Proof.
  intros Hm. apply IZR_le in Hm. split.
  - apply Rdiv_lt_0_compat; lra.
  - apply (Rmult_le_reg_r (IZR m)); [lra|].
    unfold Rdiv. rewrite Rmult_assoc, Rinv_l by lra. lra.
Qed.

Lemma check_alpha_ok a : (0 < a <= 1)%R → check_alpha a = Ok a.
Proof. intros. unfold check_alpha. by rewrite decide_True. Qed.

Lemma low_of_bars bars :
  frame_of_bars bars !! "low" = Some (float_column low bars).
Proof. done. Qed.

Lemma high_of_bars bars :
  frame_of_bars bars !! "high" = Some (float_column high bars).
Proof. done. Qed.

Lemma add_kdj_run bars n m1 m2 :
  (0 ≤ n)%Z → (1 ≤ m1)%Z → (1 ≤ m2)%Z →
  let w := Z.to_nat n in
  let k := k_series w m1 bars in
  let d := d_series w m1 m2 bars in
  add_kdj n m1 m2 (frame_of_bars bars)
  = (<["kdj_j" := Floats (sub (mul_scalar (Fin 3) k) (mul_scalar (Fin 2) d))]>
     (<["kdj_d" := Floats d]>
     (<["kdj_k" := Floats k]> (frame_of_bars bars))), Ok tt).
Proof.
  intros Hn Hm1 Hm2 w k d. unfold add_kdj.
  rewrite bind_run, (getitem_run _ _ _ _ (low_of_bars bars)
                       (float_column_numeric low bars)).
  rewrite bind_run, lift_run, (check_window_ok _ Hn).
  rewrite bind_run, (getitem_run _ _ _ _ (high_of_bars bars)
                       (float_column_numeric high bars)).
  rewrite bind_run, (getitem_run _ _ _ _ (close_of_bars bars)
                       (float_column_numeric close bars)).
  rewrite bind_run, lift_run, (one_over_ok _ Hm1).
  rewrite bind_run, lift_run, (check_alpha_ok _ (one_over_range _ Hm1)).
  rewrite bind_run, setitem_run.
  rewrite bind_run. unfold getitem at 1. rewrite lookup_insert_eq. cbn [to_numeric].
  rewrite bind_run, lift_run, (one_over_ok _ Hm2).
  rewrite bind_run, lift_run, (check_alpha_ok _ (one_over_range _ Hm2)).
  rewrite bind_run, setitem_run.
  rewrite bind_run. unfold getitem at 1.
  rewrite lookup_insert_ne, lookup_insert_eq by done. cbn [to_numeric].
  rewrite bind_run. unfold getitem at 1. rewrite lookup_insert_eq. cbn [to_numeric].
  by rewrite setitem_run.
Qed.

Lemma kdj_cells bars n m1 m2 t :
  (0 ≤ n)%Z → (1 ≤ m1)%Z → (1 ≤ m2)%Z →
  let df := run (add_kdj n m1 m2) (frame_of_bars bars) in
  let w := Z.to_nat n in
  cell df "kdj_k" t = k_series w m1 bars !! t
  ∧ cell df "kdj_d" t = d_series w m1 m2 bars !! t
  ∧ cell df "kdj_j" t
    = (k ← k_series w m1 bars !! t; d ← d_series w m1 m2 bars !! t;
       Some (fsub (fmul (Fin 3) k) (fmul (Fin 2) d))).
Proof.
  intros Hn Hm1 Hm2 df w. subst df. unfold run. rewrite add_kdj_run by done.
  cbn [fst]. unfold cell.
  rewrite !lookup_insert_ne, !lookup_insert_eq by done.
  rewrite lookup_insert_ne, lookup_insert_eq by done.
  split; [done|]. split; [done|].
  unfold sub, mul_scalar. rewrite lookup_zip_with, !list_lookup_fmap.
  by destruct (k_series _ _ _ !! t), (d_series _ _ _ _ !! t).
Qed.

Lemma foldr_Rmin_le x xs : (foldr Rmin x xs <= x)%R ∧ Forall (λ y, (foldr Rmin x xs <= y)%R) xs.
Proof.
  induction xs as [|y xs [IH1 IH2]]; simpl; [split; [lra|constructor]|].
  pose proof (Rmin_l y (foldr Rmin x xs)). pose proof (Rmin_r y (foldr Rmin x xs)).
  split; [lra|]. constructor; [done|].
  eapply Forall_impl; [done|]. intros z Hz. simpl in Hz. lra.
Qed.

Lemma foldr_Rmax_ge x xs : (x <= foldr Rmax x xs)%R ∧ Forall (λ y, (y <= foldr Rmax x xs)%R) xs.
Proof.
  induction xs as [|y xs [IH1 IH2]]; simpl; [split; [lra|constructor]|].
  pose proof (Rmax_l y (foldr Rmax x xs)). pose proof (Rmax_r y (foldr Rmax x xs)).
  split; [lra|]. constructor; [done|].
  eapply Forall_impl; [done|]. intros z Hz. simpl in Hz. lra.
Qed.

Lemma Rminimum_le (xs : list R) x :
  x ∈ xs → ∃ m, Rminimum xs = Fin m ∧ (m <= x)%R.
Proof.
  destruct xs as [|x0 xs]; [by intros ?%elem_of_nil|].
  intros Hx. exists (foldr Rmin x0 xs). split; [done|].
  destruct (foldr_Rmin_le x0 xs) as [H0 Hall].
  apply elem_of_cons in Hx as [->|Hx]; [done|].
  by eapply Forall_forall in Hall.
Qed.

Lemma Rmaximum_ge (xs : list R) x :
  x ∈ xs → ∃ m, Rmaximum xs = Fin m ∧ (x <= m)%R.
Proof.
  destruct xs as [|x0 xs]; [by intros ?%elem_of_nil|].
  intros Hx. exists (foldr Rmax x0 xs). split; [done|].
  destruct (foldr_Rmax_ge x0 xs) as [H0 Hall].
  apply elem_of_cons in Hx as [->|Hx]; [done|].
  by eapply Forall_forall in Hall.
Qed.

(** The row itself is the last entry of its window. *)
Lemma window_has_row {A} w t (l : list A) x :
  1 ≤ w → l !! t = Some x → x ∈ window w t l.
Proof.
  intros Hw Hx. apply list_elem_of_lookup. exists (t - (S t - w)).
  unfold window. rewrite lookup_drop, lookup_take_lt by lia.
  by replace (S t - w + (t - (S t - w))) with t by lia.
Qed.

Lemma rsv_lookup w bars t b :
  bars !! t = Some b →
  ∃ lo hi,
    rolling_min w (Fin <$> lows bars) !! t = Some lo
    ∧ rolling_max w (Fin <$> highs bars) !! t = Some hi
    ∧ rsv_series w bars !! t
      = Some (fmul (Fin 100) (fdiv (fsub (Fin (close b)) lo) (fsub hi lo))).
Proof.
  intros Hb. assert (Ht : t < length bars) by (by apply lookup_lt_Some in Hb).
  destruct (lookup_lt_is_Some_2 (rolling_min w (Fin <$> lows bars)) t) as [lo Hlo].
  { unfold rolling_min, lows. by rewrite rolling_length, !length_fmap. }
  destruct (lookup_lt_is_Some_2 (rolling_max w (Fin <$> highs bars)) t) as [hi Hhi].
  { unfold rolling_max, highs. by rewrite rolling_length, !length_fmap. }
  exists lo, hi. split; [done|]. split; [done|].
  unfold rsv_series, mul_scalar, div, sub.
  rewrite list_lookup_fmap, !lookup_zip_with, Hlo, Hhi.
  unfold closes. by rewrite (fin_column_lookup _ _ _ _ Hb).
Qed.

Lemma rsv_of_nan c hi :
  fmul (Fin 100) (fdiv (fsub (Fin c) NaN) (fsub hi NaN)) = NaN.
Proof. cbn [fsub fadd fneg fdiv]. apply fmul_nan_r. Qed.

Lemma rsv_value_range c m M :
  (m <= c <= M)%R →
  in_range 0 100 (fmul (Fin 100) (fdiv (fsub (Fin c) (Fin m)) (fsub (Fin M) (Fin m)))).
Proof.
  intros Hc. cbn [fsub fadd fneg]. unfold fdiv.
  destruct (decide (M + - m = 0)%R) as [Hflat|Hspread].
  - rewrite decide_False by lra. rewrite decide_False by lra.
    left. apply fmul_nan_r.
  - right. cbn [fmul]. eexists; split; [done|].
    assert (Hb0 : (0 < M + - m)%R) by lra.
    assert (Hq : (0 <= (c + - m) / (M + - m) <= 1)%R).
    { split.
      - apply Rmult_le_pos; [lra|]. left. by apply Rinv_0_lt_compat.
      - apply (Rmult_le_reg_r (M + - m)); [done|].
        unfold Rdiv. rewrite Rmult_assoc, Rinv_l by lra. lra. }
    lra.
Qed.

(** Before row [w - 1] the raw value is [nan]. *)
Lemma rsv_warmup w bars t :
  t < length bars → S t < w → rsv_series w bars !! t = Some NaN.
Proof.
  intros Ht Hw. destruct (lookup_lt_is_Some_2 bars t Ht) as [b Hb].
  destruct (rsv_lookup w bars t b Hb) as (lo & hi & Hlo & _ & ->).
  unfold rolling_min in Hlo. rewrite rolling_warmup in Hlo.
  - injection Hlo as <-. by rewrite rsv_of_nan.
  - unfold lows. by rewrite !length_fmap.
  - done.
Qed.

(** On well-formed bars the raw value is [nan] or lies in [0, 100]. *)
Lemma rsv_range w bars :
  well_formed bars → Forall (in_range 0 100) (rsv_series w bars).
Proof.
  intros Hwf. apply Forall_lookup. intros t x Hx.
  assert (Ht : t < length bars).
  { apply lookup_lt_Some in Hx. unfold rsv_series, mul_scalar, div, sub in Hx.
    rewrite length_fmap, !length_zip_with in Hx. unfold closes in Hx.
    rewrite !length_fmap in Hx. lia. }
  destruct (lookup_lt_is_Some_2 bars t Ht) as [b Hb].
  pose proof (Forall_lookup_1 _ _ _ _ Hwf Hb) as Hbar. cbv beta in Hbar.
  destruct (rsv_lookup w bars t b Hb) as (lo & hi & Hlo & Hhi & Hrsv).
  assert (x = fmul (Fin 100) (fdiv (fsub (Fin (close b)) lo) (fsub hi lo)))
    as -> by congruence.
  destruct (decide (S t < w)) as [Hwarm|Hfull].
  { unfold rolling_min in Hlo. rewrite rolling_warmup in Hlo
      by (done || (unfold lows; by rewrite !length_fmap)).
    injection Hlo as <-. left. apply rsv_of_nan. }
  destruct (decide (w = 0)) as [->|Hw0].
  { unfold rolling_min in Hlo. rewrite rolling_full in Hlo
      by ((unfold lows; by rewrite length_fmap) || lia).
    rewrite (nil_length_inv (window 0 t _)) in Hlo
      by (rewrite window_length by (unfold lows; by rewrite length_fmap); done).
    injection Hlo as <-. left. apply rsv_of_nan. }
  unfold rolling_min in Hlo. unfold rolling_max in Hhi.
  rewrite rolling_full in Hlo by ((unfold lows; by rewrite length_fmap) || lia).
  rewrite rolling_full in Hhi by ((unfold highs; by rewrite length_fmap) || lia).
  destruct (Rminimum_le (window w t (lows bars)) (low b)) as (m & Hm & Hmle).
  { apply window_has_row; [lia|]. unfold lows. by rewrite list_lookup_fmap, Hb. }
  destruct (Rmaximum_ge (window w t (highs bars)) (high b)) as (M & HM & HMge).
  { apply window_has_row; [lia|]. unfold highs. by rewrite list_lookup_fmap, Hb. }
  rewrite Hm in Hlo. rewrite HM in Hhi.
  assert (lo = Fin m) as -> by congruence. assert (hi = Fin M) as -> by congruence.
  apply rsv_value_range. lra.
Qed.

Lemma ewm_loop_leading_nan a vals : ∀ ow t,
  (∀ j, j ≤ t → vals !! j = Some None) →
  ewm_loop a None ow vals !! t = Some NaN.
Proof.
  induction vals as [|cur rest IH]; intros ow t Hlead.
  - specialize (Hlead 0 ltac:(lia)). done.
  - pose proof (Hlead 0 ltac:(lia)) as H0. simpl in H0. injection H0 as ->.
    destruct t as [|t]; [done|]. simpl. apply IH.
    intros j Hj. apply (Hlead (S j)). lia.
Qed.

(** An exponentially weighted mean is [nan] as long as its input has been. *)
Lemma ewm_mean_leading_nan a (s : series) t :
  (∀ j, j ≤ t → s !! j = Some NaN) → ewm_mean a s !! t = Some NaN.
Proof.
  intros Hlead. unfold ewm_mean.
  destruct s as [|x s]; [specialize (Hlead 0 ltac:(lia)); done|].
  pose proof (Hlead 0 ltac:(lia)) as H0. simpl in H0. injection H0 as ->.
  destruct t as [|t]; [done|]. simpl. apply ewm_loop_leading_nan.
  intros j Hj. rewrite list_lookup_fmap.
  pose proof (Hlead (S j) ltac:(lia)) as Hj'. simpl in Hj'. by rewrite Hj'.
Qed.

Lemma ewm_loop_seed a vals : ∀ ow t v,
  (∀ j, j < t → vals !! j = Some None) → vals !! t = Some (Some v) →
  ewm_loop a None ow vals !! t = Some (Fin v).
Proof.
  induction vals as [|cur rest IH]; intros ow t v Hlead Hv; [done|].
  destruct t as [|t].
  - simpl in Hv. injection Hv as ->. done.
  - pose proof (Hlead 0 ltac:(lia)) as H0. simpl in H0. injection H0 as ->.
    simpl. apply IH; [|done]. intros j Hj. apply (Hlead (S j)). lia.
Qed.

(** The first number in the input seeds the mean. *)
Lemma ewm_mean_seed a (s : series) t v :
  (∀ j, j < t → s !! j = Some NaN) → s !! t = Some (Fin v) →
  ewm_mean a s !! t = Some (Fin v).
Proof.
  intros Hlead Hv. unfold ewm_mean. destruct s as [|x s]; [done|].
  destruct t as [|t].
  - simpl in Hv. injection Hv as ->. done.
  - pose proof (Hlead 0 ltac:(lia)) as H0. simpl in H0. injection H0 as ->.
    simpl. apply ewm_loop_seed.
    + intros j Hj. rewrite list_lookup_fmap.
      pose proof (Hlead (S j) ltac:(lia)) as Hj'. simpl in Hj'. by rewrite Hj'.
    + rewrite list_lookup_fmap. simpl in Hv. by rewrite Hv.
Qed.

(** X5.  On bars whose close lies between their low and high, every value
    of the K line and of the D line is [nan] or a number between 0 and
    100; and the J line is [3 * K - 2 * D] row by row. *)
Theorem kdj_lines_within_0_100 bars n m1 m2 :
  (0 ≤ n)%Z → (1 ≤ m1)%Z → (1 ≤ m2)%Z → well_formed bars →
  let df := run (add_kdj n m1 m2) (frame_of_bars bars) in
  (∀ t x, cell df "kdj_k" t = Some x → in_range 0 100 x)
  ∧ (∀ t x, cell df "kdj_d" t = Some x → in_range 0 100 x)
  ∧ (∀ t k d, cell df "kdj_k" t = Some k → cell df "kdj_d" t = Some d →
       cell df "kdj_j" t = Some (fsub (fmul (Fin 3) k) (fmul (Fin 2) d))).
Proof.
  intros Hn Hm1 Hm2 Hwf df.
  assert (Hk : Forall (in_range 0 100) (k_series (Z.to_nat n) m1 bars)).
  { apply ewm_mean_range; [by apply one_over_range|by apply rsv_range]. }
  assert (Hd : Forall (in_range 0 100) (d_series (Z.to_nat n) m1 m2 bars)).
  { apply ewm_mean_range; [by apply one_over_range|done]. }
  split; [|split].
  - intros t x Hx. destruct (kdj_cells bars n m1 m2 t Hn Hm1 Hm2) as (Hc & _).
    fold df in Hc. rewrite Hc in Hx. by eapply Forall_lookup_1 in Hk.
  - intros t x Hx. destruct (kdj_cells bars n m1 m2 t Hn Hm1 Hm2) as (_ & Hc & _).
    fold df in Hc. rewrite Hc in Hx. by eapply Forall_lookup_1 in Hd.
  - intros t k d Hkt Hdt.
    destruct (kdj_cells bars n m1 m2 t Hn Hm1 Hm2) as (Hck & Hcd & Hcj).
    fold df in Hck, Hcd, Hcj. rewrite Hck in Hkt. rewrite Hcd in Hdt.
    by rewrite Hcj, Hkt, Hdt.
Qed.

Lemma k_series_length w m1 bars : length (k_series w m1 bars) = length bars.
Proof.
  unfold k_series, rsv_series, mul_scalar, div, sub.
  rewrite ewm_mean_length, length_fmap, !length_zip_with.
  unfold rolling_min, rolling_max. rewrite !rolling_length.
  unfold closes, highs, lows. rewrite !length_fmap. lia.
Qed.

Lemma kdj_lines_within_0_100_witness :
  ∃ x, cell (run (add_kdj 2 3 3) (frame_of_bars Examples.bars_1_2_3)) "kdj_k" 2
       = Some x ∧ in_range 0 100 x.
Proof.
  destruct (kdj_lines_within_0_100 Examples.bars_1_2_3 2 3 3) as (Hk & _);
    [lia | lia | lia | repeat constructor; simpl; lra |].
  destruct (kdj_cells Examples.bars_1_2_3 2 3 3 2) as (Hcell & _); [lia..|].
  destruct (lookup_lt_is_Some_2 (k_series (Z.to_nat 2) 3 Examples.bars_1_2_3) 2)
    as [x Hx]; [rewrite k_series_length; simpl; lia|].
  exists x. rewrite Hcell, Hx. split; [done|].
  apply (Hk 2). by rewrite Hcell.
Defined.

(** X6.  Before row [n - 1] the K, D and J lines are [nan].  At the first
    row whose raw stochastic value is a number, K and D both start at
    that number. *)
Theorem kdj_warm_up_and_seed bars n m1 m2 t :
  (0 ≤ n)%Z → (1 ≤ m1)%Z → (1 ≤ m2)%Z → t < length bars →
  let df := run (add_kdj n m1 m2) (frame_of_bars bars) in
  let rsv := rsv_series (Z.to_nat n) bars in
  (S t < Z.to_nat n →
     undefined_at df "kdj_k" t ∧ undefined_at df "kdj_d" t
     ∧ undefined_at df "kdj_j" t)
  ∧ (∀ v, (∀ j, j < t → rsv !! j = Some NaN) → rsv !! t = Some (Fin v) →
       cell df "kdj_k" t = Some (Fin v) ∧ cell df "kdj_d" t = Some (Fin v)).
Proof.
  intros Hn Hm1 Hm2 Ht df rsv.
  destruct (kdj_cells bars n m1 m2 t Hn Hm1 Hm2) as (Hck & Hcd & Hcj).
  fold df in Hck, Hcd, Hcj. unfold undefined_at. rewrite Hck, Hcd, Hcj.
  split.
  - intros Hwarm.
    assert (Hk : ∀ j, j ≤ t → k_series (Z.to_nat n) m1 bars !! j = Some NaN).
    { intros j Hj. apply ewm_mean_leading_nan. intros i Hi.
      apply rsv_warmup; lia. }
    assert (Hd : d_series (Z.to_nat n) m1 m2 bars !! t = Some NaN)
      by (by apply ewm_mean_leading_nan).
    rewrite (Hk t) by lia. rewrite Hd. split; [done|]. split; [done|].
    change (Some (fsub (fmul (Fin 3) NaN) (fmul (Fin 2) NaN)) = Some NaN).
    by rewrite !fmul_nan_r.
  - intros v Hlead Hv.
    assert (Hk : k_series (Z.to_nat n) m1 bars !! t = Some (Fin v))
      by (by apply ewm_mean_seed).
    split; [done|]. apply ewm_mean_seed; [|done].
    intros j Hj. apply ewm_mean_leading_nan. intros i Hi. apply Hlead. lia.
Qed.

Lemma kdj_warm_up_and_seed_witness :
  undefined_at (run (add_kdj 2 3 3) (frame_of_bars Examples.bars_1_2_3)) "kdj_k" 0.
Proof.
  destruct (kdj_warm_up_and_seed Examples.bars_1_2_3 2 3 3 0) as [Hwarm _];
    [lia | lia | lia | simpl; lia |].
  apply Hwarm. simpl. lia.
Defined.

Lemma check_alpha_negative m :
  (m < 0)%Z → check_alpha (1 / IZR m) = Raise ValueError.
Proof.
  intros Hm. apply IZR_lt in Hm. unfold check_alpha.
  rewrite decide_False; [done|]. intros [Hpos _].
  assert (/ IZR m < 0)%R by (by apply Rinv_lt_0_compat). lra.
Qed.

(** X7.  A failing call can leave a half-written frame.  When the
    smoothing parameter [m1] is not positive ([1/0] raises
    [ZeroDivisionError], a negative weight is refused with [ValueError]),
    [add_kdj] raises before it assigns anything, whatever [m2] is.  When
    [m1] is positive and [m2] is not, it raises after it has assigned
    [kdj_k]: the frame keeps that column, the very one a successful call
    with the same [n] and [m1] assigns, and gets neither [kdj_d] nor
    [kdj_j]. *)
Theorem kdj_failure_leaves_k_column bars n m1 m2 :
  (0 ≤ n)%Z →
  let e1 := if decide (m1 = 0)%Z then ZeroDivisionError else ValueError in
  let e2 := if decide (m2 = 0)%Z then ZeroDivisionError else ValueError in
  let k := Floats (k_series (Z.to_nat n) m1 bars) in
  ((m1 ≤ 0)%Z →
     add_kdj n m1 m2 (frame_of_bars bars) = (frame_of_bars bars, Raise e1))
  ∧ ((1 ≤ m1)%Z → (m2 ≤ 0)%Z →
     add_kdj n m1 m2 (frame_of_bars bars)
     = (<["kdj_k" := k]> (frame_of_bars bars), Raise e2)
     ∧ ∀ m, (1 ≤ m)%Z →
         run (add_kdj n m1 m) (frame_of_bars bars) !! "kdj_k" = Some k).
Proof.
  intros Hn e1 e2 k. split.
  - intros Hm1. unfold add_kdj.
    rewrite bind_run, (getitem_run _ _ _ _ (low_of_bars bars)
                         (float_column_numeric low bars)).
    rewrite bind_run, lift_run, (check_window_ok _ Hn).
    rewrite bind_run, (getitem_run _ _ _ _ (high_of_bars bars)
                         (float_column_numeric high bars)).
    rewrite bind_run, (getitem_run _ _ _ _ (close_of_bars bars)
                         (float_column_numeric close bars)).
    rewrite bind_run, lift_run. subst e1. unfold one_over.
    case_decide; [done|]. by rewrite bind_run, lift_run, check_alpha_negative by lia.
  - intros Hm1 Hm2. split.
    + unfold add_kdj.
      rewrite bind_run, (getitem_run _ _ _ _ (low_of_bars bars)
                           (float_column_numeric low bars)).
      rewrite bind_run, lift_run, (check_window_ok _ Hn).
      rewrite bind_run, (getitem_run _ _ _ _ (high_of_bars bars)
                           (float_column_numeric high bars)).
      rewrite bind_run, (getitem_run _ _ _ _ (close_of_bars bars)
                           (float_column_numeric close bars)).
      rewrite bind_run, lift_run, (one_over_ok _ Hm1).
      rewrite bind_run, lift_run, (check_alpha_ok _ (one_over_range _ Hm1)).
      rewrite bind_run, setitem_run.
      rewrite bind_run. unfold getitem at 1. rewrite lookup_insert_eq. cbn [to_numeric].
      rewrite bind_run, lift_run. subst e2. unfold one_over.
      case_decide; [done|].
      by rewrite bind_run, lift_run, check_alpha_negative by lia.
    + intros m Hm. unfold run. rewrite add_kdj_run by done. cbn [fst].
      by rewrite !lookup_insert_ne, lookup_insert_eq by done.
Qed.

Lemma kdj_failure_leaves_k_column_witness :
  add_kdj 9 0 3 (frame_of_bars Examples.bars_1_2_3)
  = (frame_of_bars Examples.bars_1_2_3, Raise ZeroDivisionError)
  ∧ add_kdj 9 3 0 (frame_of_bars Examples.bars_1_2_3)
    = (<["kdj_k" := Floats (k_series (Z.to_nat 9) 3 Examples.bars_1_2_3)]>
         (frame_of_bars Examples.bars_1_2_3),
       Raise ZeroDivisionError).
Proof.
  destruct (kdj_failure_leaves_k_column Examples.bars_1_2_3 9 0 3) as [Hm1 _];
    [lia|].
  destruct (kdj_failure_leaves_k_column Examples.bars_1_2_3 9 3 0) as [_ Hm2];
    [lia|].
  split; [by apply Hm1|]. by apply Hm2.
Defined.

End KdjFacts.

(** ** Cross detection after the moving averages *)

Module CrossAfterMaFacts.
Import Pandas Frame IndicatorEngine Spec RunFacts RollingFacts AtrFacts.
Import RsiFacts WarmupFacts CrossFacts.

Lemma detect_ma_cross_ok (df : DataFrame) fast slow ca cb A B :
  df !! fname "ma" fast = Some ca → to_numeric ca = Ok A →
  df !! fname "ma" slow = Some cb → to_numeric cb = Ok B →
  (detect_ma_cross fast slow df).2 = Ok tt.
Proof.
  intros Ha HA Hb HB. unfold detect_ma_cross.
  rewrite bind_run, (getitem_run _ _ _ _ Ha HA).
  rewrite bind_run, (getitem_run _ _ _ _ Hb HB).
  rewrite bind_run, setitem_run.
  rewrite bind_run. unfold nrows at 1. rewrite lookup_insert_eq.
  rewrite bind_run, setitem_run.
  rewrite bind_run. unfold getitem at 1.
  rewrite lookup_insert_ne, lookup_insert_eq by done. cbn [to_numeric].
  rewrite bind_run. unfold loc_assign at 1. rewrite lookup_insert_eq.
  rewrite bind_run. unfold getitem at 1.
  rewrite !lookup_insert_ne, lookup_insert_eq by done. cbn [to_numeric].
  unfold loc_assign. by rewrite lookup_insert_eq.
Qed.

Lemma detect_ma_cross_no_fast (df : DataFrame) fast slow :
  df !! fname "ma" fast = None →
  detect_ma_cross fast slow df = (df, Raise (KeyError (fname "ma" fast))).
Proof.
  intros Ha. unfold detect_ma_cross. rewrite bind_run. unfold getitem at 1.
  by rewrite Ha.
Qed.

Lemma detect_ma_cross_no_slow (df : DataFrame) fast slow ca A :
  df !! fname "ma" fast = Some ca → to_numeric ca = Ok A →
  df !! fname "ma" slow = None →
  detect_ma_cross fast slow df = (df, Raise (KeyError (fname "ma" slow))).
Proof.
  intros Ha HA Hb. unfold detect_ma_cross.
  rewrite bind_run, (getitem_run _ _ _ _ Ha HA).
  rewrite bind_run. unfold getitem at 1. by rewrite Hb.
Qed.

(** The frame [add_ma] leaves: a column for every period asked for and
    no other [ma] column. *)
Lemma add_ma_frame periods bars :
  Forall (λ p, (0 ≤ p)%Z) periods →
  let df := run (add_ma periods) (frame_of_bars bars) in
  add_ma periods (frame_of_bars bars) = (df, Ok tt)
  ∧ (∀ L, L ∈ periods →
       df !! fname "ma" L
       = Some (Floats (rolling_mean (Z.to_nat L) (Fin <$> closes bars))))
  ∧ (∀ L, L ∉ periods → df !! fname "ma" L = None).
Proof.
  intros Hall df. destruct (add_ma_ok periods bars Hall) as [df' Hrun].
  assert (df = df') as -> by (subst df; unfold run; by rewrite Hrun).
  split; [done|].
  pose proof (period_loop_spec "ma" rolling_mean ltac:(done) periods
                (frame_of_bars bars) df' _ _ (close_of_bars bars)
                (float_column_numeric close bars) Hrun) as [_ Hspec].
  split.
  - intros L HL. destruct (Hspec L) as [Hin _]. destruct (Hin HL) as [_ Hcol].
    by rewrite Hcol.
  - intros L HL. destruct (Hspec L) as [_ Hout]. rewrite (Hout HL).
    apply frame_of_bars_other, FrameFacts.fname_ma_fresh.
Qed.

(** X8.  [detect_ma_cross] needs the two moving averages in the frame.
    After [add_ma periods] on a bar series it returns normally when both
    windows are among the periods; otherwise it raises [KeyError] naming
    the first missing column ([fast] before [slow]) and leaves the frame
    as [add_ma] left it, without [ma_diff] or [cross_signal]. *)
Theorem detect_ma_cross_needs_add_ma bars periods fast slow :
  Forall (λ p, (0 ≤ p)%Z) periods →
  let after_ma := run (add_ma periods) (frame_of_bars bars) in
  let both := add_ma periods ≫= λ _, detect_ma_cross fast slow in
  (fast ∈ periods → slow ∈ periods → (both (frame_of_bars bars)).2 = Ok tt)
  ∧ (fast ∉ periods →
       both (frame_of_bars bars) = (after_ma, Raise (KeyError (fname "ma" fast))))
  ∧ (fast ∈ periods → slow ∉ periods →
       both (frame_of_bars bars) = (after_ma, Raise (KeyError (fname "ma" slow)))).
Proof.
  intros Hall after_ma both.
  destruct (add_ma_frame periods bars Hall) as (Hrun & Hin & Hout).
  fold after_ma in Hrun, Hin, Hout. subst both.
  split; [|split].
  - intros Hf Hs. rewrite bind_run, Hrun.
    by eapply detect_ma_cross_ok; [apply Hin| |apply Hin|].
  - intros Hf. rewrite bind_run, Hrun. apply detect_ma_cross_no_fast. by apply Hout.
  - intros Hf Hs. rewrite bind_run, Hrun.
    eapply detect_ma_cross_no_slow; [by apply Hin|done|by apply Hout].
Qed.

Lemma detect_ma_cross_needs_add_ma_witness :
  (add_ma [5%Z; 20%Z] ≫= λ _, detect_ma_cross 5 10) (frame_of_bars Examples.bars_1_2_3)
  = (run (add_ma [5%Z; 20%Z]) (frame_of_bars Examples.bars_1_2_3),
     Raise (KeyError (fname "ma" 10))).
Proof.
  destruct (detect_ma_cross_needs_add_ma Examples.bars_1_2_3 [5%Z; 20%Z] 5 10)
    as (_ & _ & Hslow); [repeat constructor; lia|].
  apply Hslow; [apply elem_of_cons; by left|].
  intros Hin. apply elem_of_cons in Hin as [Hin|Hin]; [discriminate|].
  apply elem_of_cons in Hin as [Hin|Hin]; [discriminate|].
  by apply elem_of_nil in Hin.
Defined.

Lemma signals_values (d : series) t z :
  signals d !! t = Some z →
  (z = 0 ∨ z = 1 ∨ z = -1)%Z
  ∧ (t = 0 → z = 0%Z)
  ∧ (d !! t = Some NaN → z = 0%Z)
  ∧ (∀ t', t = S t' → d !! t' = Some NaN → z = 0%Z).
Proof.
  intros Hz. assert (Ht : t < length d).
  { apply lookup_lt_Some in Hz. by rewrite signals_length in Hz. }
  destruct (lookup_lt_is_Some_2 d t Ht) as [dt Hdt].
  destruct (lookup_lt_is_Some_2 (shift d) t) as [dp Hdp];
    [by rewrite shift_length|].
  rewrite (signals_lookup d t dt dp Hdt Hdp) in Hz.
  assert (z = if flt dt (Fin 0) && fge dp (Fin 0) then (-1)%Z
              else if fgt dt (Fin 0) && fle dp (Fin 0) then 1%Z else 0%Z)
    as -> by congruence.
  clear Hz. split; [|split; [|split]].
  - destruct (flt dt (Fin 0) && fge dp (Fin 0)); [auto|].
    destruct (fgt dt (Fin 0) && fle dp (Fin 0)); auto.
  - intros ->. rewrite shift_lookup_0 in Hdp by lia.
    assert (dp = NaN) as -> by congruence.
    by rewrite !andb_false_r.
  - intros Hnan. assert (dt = NaN) as -> by congruence. done.
  - intros t' -> Hnan. rewrite shift_lookup_S in Hdp by done.
    assert (dp = NaN) as -> by congruence. by rewrite !andb_false_r.
Qed.

(** X9.  The signal column holds only -1, 0 and 1.  It is 0 in row 0, and
    0 in every row where the difference of the two averages is [nan] in
    that row or in the row before: an undefined average never counts as a
    crossing. *)
Theorem undefined_average_gives_no_cross (df : DataFrame) fast slow ca cb A B t z :
  df !! fname "ma" fast = Some ca → to_numeric ca = Ok A →
  df !! fname "ma" slow = Some cb → to_numeric cb = Ok B →
  cross_signal (run (detect_ma_cross fast slow) df) t = Some z →
  (z = 0 ∨ z = 1 ∨ z = -1)%Z
  ∧ (t = 0 → z = 0%Z)
  ∧ (diff_at A B t = NaN → z = 0%Z)
  ∧ (∀ t', t = S t' → diff_at A B t' = NaN → z = 0%Z).
Proof.
  intros Ha HA Hb HB Hz. unfold cross_signal in Hz.
  rewrite (detect_ma_cross_run df fast slow ca cb A B) in Hz by done.
  destruct (signals_values _ _ _ Hz) as (Hv & H0 & Hnow & Hprev).
  split; [done|]. split; [done|].
  assert (Ht : t < length (sub A B)).
  { apply lookup_lt_Some in Hz. by rewrite signals_length in Hz. }
  split.
  - intros Hnan. apply Hnow.
    destruct (lookup_lt_is_Some_2 _ _ Ht) as [x Hx].
    by rewrite Hx, (sub_lookup_diff_at _ _ _ _ Hx), Hnan.
  - intros t' -> Hnan. apply (Hprev t'); [done|].
    destruct (lookup_lt_is_Some_2 (sub A B) t') as [x Hx]; [lia|].
    by rewrite Hx, (sub_lookup_diff_at _ _ _ _ Hx), Hnan.
Qed.

Lemma undefined_average_gives_no_cross_witness :
  ∃ z, cross_signal (run (detect_ma_cross 5 10) Examples.crossing_frame) 0 = Some z
       ∧ z = 0%Z.
Proof.
  assert (Hcol : run (detect_ma_cross 5 10) Examples.crossing_frame !! "cross_signal"
                 = Some (Ints (signals (sub [Fin 1; Fin 3] [Fin 2; Fin 2]))))
    by (by apply (detect_ma_cross_run _ 5 10 (Floats [Fin 1; Fin 3])
                    (Floats [Fin 2; Fin 2]))).
  destruct (lookup_lt_is_Some_2 (signals (sub [Fin 1; Fin 3] [Fin 2; Fin 2])) 0)
    as [z Hz]; [rewrite signals_length; simpl; lia|].
  assert (Hs : cross_signal (run (detect_ma_cross 5 10) Examples.crossing_frame) 0
               = Some z) by (unfold cross_signal; by rewrite Hcol).
  exists z. split; [done|].
  destruct (undefined_average_gives_no_cross Examples.crossing_frame 5 10
              (Floats [Fin 1; Fin 3]) (Floats [Fin 2; Fin 2])
              [Fin 1; Fin 3] [Fin 2; Fin 2] 0 z) as (_ & H0 & _);
    [reflexivity | reflexivity | reflexivity | reflexivity | exact Hs |].
  by apply H0.
Defined.

Lemma fsub_nan_r x : fsub x NaN = NaN.
Proof. by destruct x. Qed.

(** X10.  On a bar series, with both windows at least 1 and among the
    periods of [add_ma], no cross is reported before row
    [max fast slow]: until then one of the two averages, in that row or in
    the row before, is still in its warm-up. *)
Theorem no_cross_during_warm_up bars periods fast slow t :
  Forall (λ p, (0 ≤ p)%Z) periods →
  fast ∈ periods → slow ∈ periods → (1 ≤ fast)%Z → (1 ≤ slow)%Z →
  t < length bars → (Z.of_nat t < Z.max fast slow)%Z →
  cross_signal
    (run (add_ma periods ≫= λ _, detect_ma_cross fast slow) (frame_of_bars bars)) t
  = Some 0%Z.
Proof.
  intros Hall Hf Hs Hf1 Hs1 Ht Hwarm.
  destruct (add_ma_frame periods bars Hall) as (Hrun & Hin & _).
  set (after_ma := run (add_ma periods) (frame_of_bars bars)) in *.
  assert (run (add_ma periods ≫= λ _, detect_ma_cross fast slow) (frame_of_bars bars)
          = run (detect_ma_cross fast slow) after_ma) as ->.
  { unfold run at 1. by rewrite bind_run, Hrun. }
  set (A := rolling_mean (Z.to_nat fast) (Fin <$> closes bars)).
  set (B := rolling_mean (Z.to_nat slow) (Fin <$> closes bars)).
  assert (Hcol := detect_ma_cross_run after_ma fast slow _ _ A B
                    (Hin fast Hf) eq_refl (Hin slow Hs) eq_refl).
  unfold cross_signal. rewrite Hcol.
  assert (HlenA : length A = length bars).
  { subst A. unfold rolling_mean. by rewrite rolling_length, length_fmap, closes_length. }
  assert (HlenB : length B = length bars).
  { subst B. unfold rolling_mean. by rewrite rolling_length, length_fmap, closes_length. }
  assert (Hlen : length (sub A B) = length bars).
  { unfold sub. rewrite length_zip_with. lia. }
  destruct (lookup_lt_is_Some_2 (signals (sub A B)) t) as [z Hz];
    [rewrite signals_length; lia|].
  rewrite Hz. f_equal.
  destruct (signals_values _ _ _ Hz) as (_ & H0 & _ & Hprev).
  destruct t as [|t']; [by apply H0|]. apply (Hprev t'); [done|].
  assert (Hnan : A !! t' = Some NaN ∨ B !! t' = Some NaN).
  { destruct (Z.max_spec fast slow) as [[_ Hmax]|[_ Hmax]]; rewrite Hmax in Hwarm.
    - right. subst B. apply rolling_mean_warmup;
        [rewrite length_fmap, closes_length|]; lia.
    - left. subst A. apply rolling_mean_warmup;
        [rewrite length_fmap, closes_length|]; lia. }
  unfold sub. rewrite lookup_zip_with.
  destruct (lookup_lt_is_Some_2 A t') as [a Ha]; [lia|].
  destruct (lookup_lt_is_Some_2 B t') as [b Hb]; [lia|].
  rewrite Ha, Hb. simpl. f_equal.
  destruct Hnan as [Hn|Hn]; rewrite Hn in *.
  - by injection Ha as <-.
  - injection Hb as <-. apply fsub_nan_r.
Qed.

Lemma no_cross_during_warm_up_witness :
  cross_signal
    (run (add_ma [1%Z; 2%Z] ≫= λ _, detect_ma_cross 1 2)
         (frame_of_bars Examples.bars_1_2_3)) 1
  = Some 0%Z.
Proof.
  apply (no_cross_during_warm_up Examples.bars_1_2_3 [1%Z; 2%Z] 1 2 1).
  - repeat constructor; lia.
  - apply elem_of_cons. by left.
  - apply elem_of_cons. right. apply elem_of_cons. by left.
  - lia.
  - lia.
  - simpl. lia.
  - lia.
Defined.

End CrossAfterMaFacts.

(** ** The life of a position: fills, ticks and bars *)

Module SessionFacts.
Import BaseStrategy RiskSpec SessionSpec.

Lemma py_min_fin l low e :
  fle l (Fin e) = true → fle (py_min l (Fin low)) (Fin e) = true.
Proof.
  intros Hl. unfold py_min. destruct l as [| | |x]; try done; simpl in *.
  apply bool_decide_eq_true in Hl.
  case_bool_decide; simpl; apply bool_decide_eq_true; lra.
Qed.

(** What [on_tick] and [on_bar] do to the fields the risk manager reads. *)
Lemma on_tick_risk_state tick self :
  let self' := on_tick tick self in
  pos self' = pos self
  ∧ entry_price self' = entry_price self
  ∧ ((pos self > 0)%Z → (highest_price self <= highest_price self')%R)
  ∧ ((pos self < 0)%Z → ∀ e, fle (lowest_price self) (Fin e) = true →
       fle (lowest_price self') (Fin e) = true).
Proof.
  unfold on_tick. simpl. repeat case_decide; simpl;
    (split; [done|]); (split; [done|]); split;
    first [ by intros; lia
          | by intros _; apply ExtremesFacts.py_max_ge
          | by intros _ e He; apply py_min_fin
          | by intros; lra
          | done ].
Qed.

Lemma seen_risk_state self bar :
  let self' := seen_by_risk_management self bar in
  pos self' = pos self
  ∧ entry_price self' = entry_price self
  ∧ ((pos self > 0)%Z → (highest_price self <= highest_price self')%R)
  ∧ ((pos self < 0)%Z → ∀ e, fle (lowest_price self) (Fin e) = true →
       fle (lowest_price self') (Fin e) = true).
Proof.
  unfold seen_by_risk_management, update_extremes. simpl.
  repeat case_decide; simpl;
    (split; [done|]); (split; [done|]); split;
    first [ by intros; lia
          | by intros _; apply ExtremesFacts.py_max_ge
          | by intros _ e He; apply py_min_fin
          | by intros; lra
          | done ].
Qed.

Lemma on_bar_risk_state logic self bar :
  keeps_risk_state logic →
  let self' := (on_bar logic self bar).1.1 in
  pos self' = pos self
  ∧ entry_price self' = entry_price self
  ∧ ((pos self > 0)%Z → (highest_price self <= highest_price self')%R)
  ∧ ((pos self < 0)%Z → ∀ e, fle (lowest_price self) (Fin e) = true →
       fle (lowest_price self') (Fin e) = true).
Proof.
  intros Hkeeps self'.
  assert (Hseen : pos self' = pos (seen_by_risk_management self bar)
                  ∧ entry_price self' = entry_price (seen_by_risk_management self bar)
                  ∧ highest_price self' = highest_price (seen_by_risk_management self bar)
                  ∧ lowest_price self' = lowest_price (seen_by_risk_management self bar)).
  { subst self'. unfold on_bar. fold (seen_by_risk_management self bar).
    destruct (risk_management _ bar); [|done].
    specialize (Hkeeps (seen_by_risk_management self bar) bar).
    by destruct (logic _ bar) as [[s' sent'] r]. }
  destruct Hseen as (Hp & He & Hh & Hl). rewrite Hp, He, Hh, Hl.
  apply seen_risk_state.
Qed.

Lemma feed_risk_state logic self ev :
  keeps_risk_state logic →
  let self' := feed logic self ev in
  pos self' = pos self
  ∧ entry_price self' = entry_price self
  ∧ ((pos self > 0)%Z → (highest_price self <= highest_price self')%R)
  ∧ ((pos self < 0)%Z → ∀ e, fle (lowest_price self) (Fin e) = true →
       fle (lowest_price self') (Fin e) = true).
Proof.
  intros Hkeeps. destruct ev as [tick|bar]; simpl.
  - apply on_tick_risk_state.
  - by apply on_bar_risk_state.
Qed.

Lemma feed_all_risk_state logic evs : ∀ self p,
  keeps_risk_state logic →
  ((pos self > 0)%Z → (p <= highest_price self)%R) →
  ((pos self < 0)%Z → fle (lowest_price self) (Fin p) = true) →
  let s := feed_all logic self evs in
  pos s = pos self
  ∧ entry_price s = entry_price self
  ∧ ((pos self > 0)%Z → (p <= highest_price s)%R)
  ∧ ((pos self < 0)%Z → fle (lowest_price s) (Fin p) = true).
Proof.
  induction evs as [|ev rest IH]; intros self p Hkeeps Hhigh Hlow; [done|].
  unfold feed_all. simpl. fold (feed_all logic (feed logic self ev) rest).
  destruct (feed_risk_state logic self ev Hkeeps) as (Hp & He & Hh & Hl).
  destruct (IH (feed logic self ev) p Hkeeps) as (IHp & IHe & IHh & IHl).
  - rewrite Hp. intros Hlong. specialize (Hh Hlong). specialize (Hhigh Hlong). lra.
  - rewrite Hp. intros Hshort. apply Hl; [done|]. by apply Hlow.
  - rewrite IHp, IHe, Hp, He. rewrite Hp in IHh, IHl. done.
Qed.

Lemma on_trade_open trade self :
  offset trade = OPEN →
  let opened := (on_trade trade self).1 in
  pos opened = pos self
  ∧ entry_price opened = price trade
  ∧ highest_price opened = price trade
  ∧ lowest_price opened = Fin (price trade).
Proof. intros Hopen. unfold on_trade. by rewrite decide_True by done. Qed.

(** X11.  From an opening fill on, over any sequence of ticks and bars and
    under a [trading_logic] that only sends orders, the entry price stays
    the fill price, the highest price of a long position is never below
    it and the lowest price of a short position is never above it. *)
Theorem entry_stays_within_extremes (logic : callback) trade self evs :
  keeps_risk_state logic → offset trade = OPEN →
  let s := feed_all logic (on_trade trade self).1 evs in
  pos s = pos self
  ∧ entry_price s = price trade
  ∧ ((pos self > 0)%Z → (entry_price s <= highest_price s)%R)
  ∧ ((pos self < 0)%Z → fle (lowest_price s) (Fin (entry_price s)) = true).
Proof.
  intros Hkeeps Hopen s.
  destruct (on_trade_open trade self Hopen) as (Hp & He & Hh & Hl).
  destruct (feed_all_risk_state logic evs (on_trade trade self).1 (price trade)
              Hkeeps) as (Hp' & He' & Hh' & Hl').
  - intros _. rewrite Hh. lra.
  - intros _. rewrite Hl. simpl. apply bool_decide_eq_true. lra.
  - fold s in Hp', He', Hh', Hl'. rewrite Hp in Hp', Hh', Hl'.
    rewrite He in He'. rewrite He'. done.
Qed.

Lemma keeps_risk_state_base : keeps_risk_state trading_logic.
Proof. by intros self bar. Qed.

Lemma entry_stays_within_extremes_witness :
  let opened := (on_trade (Examples.open_long_at 100) (set_pos 100 initial)).1 in
  let s := feed_all trading_logic opened
             [TickEvent (mkTickData 101 103 99);
              BarEvent (Examples.bar_closing_at 102)] in
  pos s = 100%Z
  ∧ entry_price s = 100%R
  ∧ (entry_price s <= highest_price s)%R.
Proof.
  intros opened s.
  destruct (entry_stays_within_extremes trading_logic
              (Examples.open_long_at 100) (set_pos 100 initial)
              [TickEvent (mkTickData 101 103 99);
               BarEvent (Examples.bar_closing_at 102)])
    as (Hp & He & Hh & _); [apply keeps_risk_state_base | done |].
  split; [done|]. split; [done|]. apply Hh. simpl. lia.
Defined.

Lemma risk_management_returns self bar :
  (pos self > 0)%Z ∨ (pos self < 0)%Z ∨ pos self = 0%Z →
  (0 < entry_price self)%R →
  ((pos self > 0)%Z → (entry_price self <= highest_price self)%R) →
  ∃ sent, risk_management self bar = Ok sent.
Proof.
  intros _ Hentry Hhigh. unfold risk_management.
  destruct (decide (pos self = 0)%Z); [by eexists|].
  destruct (decide (pos self > 0)%Z) as [Hlong|].
  - rewrite (RiskFacts.py_div_ok _ (entry_price self)) by lra.
    rewrite RiskFacts.result_bind_ok. cbv beta zeta.
    destruct (decide _); [by eexists|].
    specialize (Hhigh Hlong).
    rewrite (RiskFacts.py_div_ok _ (highest_price self)) by lra.
    rewrite RiskFacts.result_bind_ok. cbv beta zeta.
    destruct (decide _); by eexists.
  - destruct (decide (pos self < 0)%Z); [|by eexists].
    rewrite (RiskFacts.py_div_ok _ (entry_price self)) by lra.
    rewrite RiskFacts.result_bind_ok. cbv beta zeta.
    destruct (decide _); by eexists.
Qed.

(** X12.  After an opening fill at a positive price, over any sequence of
    ticks and bars and under a [trading_logic] that only sends orders,
    the risk manager never raises: on every bar [on_bar] reaches
    [trading_logic], and what it sends starts with what the risk manager
    sent. *)
Theorem risk_management_safe_after_opening_fill
    (logic : callback) trade self evs bar :
  keeps_risk_state logic → offset trade = OPEN → (0 < price trade)%R →
  let s := feed_all logic (on_trade trade self).1 evs in
  ∃ sent,
    risk_management (seen_by_risk_management s bar) bar = Ok sent
    ∧ on_bar logic s bar
      = (let '(self', sent', r) := logic (seen_by_risk_management s bar) bar in
         (self', sent ++ sent', r)).
Proof.
  intros Hkeeps Hopen Hprice s.
  destruct (on_trade_open trade self Hopen) as (Hp & He & Hh & Hl).
  destruct (feed_all_risk_state logic evs (on_trade trade self).1 (price trade)
              Hkeeps) as (Hp' & He' & Hh' & _).
  { intros _. rewrite Hh. lra. }
  { intros _. rewrite Hl. simpl. apply bool_decide_eq_true. lra. }
  fold s in Hp', He', Hh'. rewrite He in He'.
  destruct (seen_risk_state s bar) as (Hsp & Hse & Hsh & _).
  destruct (risk_management_returns (seen_by_risk_management s bar) bar)
    as [sent Hsent].
  - lia.
  - rewrite Hse, He'. done.
  - rewrite Hsp, Hse, He', Hp'. intros Hlong.
    rewrite Hp' in Hsh. specialize (Hsh Hlong). rewrite Hp in Hh', Hlong.
    specialize (Hh' Hlong). lra.
  - exists sent. split; [done|].
    unfold on_bar. fold (seen_by_risk_management s bar). by rewrite Hsent.
Qed.

Lemma risk_management_safe_after_opening_fill_witness :
  let opened := (on_trade (Examples.open_long_at 100) (set_pos 100 initial)).1 in
  let s := feed_all trading_logic opened [TickEvent (mkTickData 101 103 99)] in
  ∃ sent,
    risk_management (seen_by_risk_management s (Examples.bar_closing_at 102))
      (Examples.bar_closing_at 102) = Ok sent
    ∧ on_bar trading_logic s (Examples.bar_closing_at 102)
      = (seen_by_risk_management s (Examples.bar_closing_at 102),
         sent ++ [], Some NotImplementedError).
Proof.
  intros opened s.
  apply (risk_management_safe_after_opening_fill trading_logic
           (Examples.open_long_at 100) (set_pos 100 initial)
           [TickEvent (mkTickData 101 103 99)] (Examples.bar_closing_at 102)).
  - apply keeps_risk_state_base.
  - done.
  - simpl. lra.
Defined.

Lemma on_bar_raises_without_entry_price logic self bar :
  pos self ≠ 0%Z → entry_price self = 0%R →
  on_bar logic self bar
  = (seen_by_risk_management self bar, [], Some ZeroDivisionError).
Proof.
  intros Hpos Hentry. unfold on_bar. fold (seen_by_risk_management self bar).
  destruct (seen_risk_state self bar) as (Hsp & Hse & _).
  assert (risk_management (seen_by_risk_management self bar) bar
          = Raise ZeroDivisionError) as ->; [|done].
  unfold risk_management. rewrite Hsp, Hse, Hentry.
  rewrite decide_False by done.
  destruct (decide (pos self > 0)%Z).
  - by rewrite RiskFacts.py_div_zero.
  - rewrite decide_True by lia. by rewrite RiskFacts.py_div_zero.
Qed.

(** X13.  A fill that is not an opening one resets the entry price to 0.
    If a position is still held after it (a partial exit), the next bar
    makes [on_bar] raise [ZeroDivisionError] inside the risk manager:
    nothing is sent and [trading_logic] is not reached. *)
Theorem partial_exit_breaks_next_bar (logic : callback) trade self bar :
  offset trade ≠ OPEN → pos self ≠ 0%Z →
  let after := (on_trade trade self).1 in
  entry_price after = 0%R
  ∧ on_bar logic after bar
    = (seen_by_risk_management after bar, [], Some ZeroDivisionError).
Proof.
  intros Hclose Hpos after.
  assert (Hafter : entry_price after = 0%R ∧ pos after = pos self).
  { subst after. unfold on_trade. by rewrite decide_False by done. }
  destruct Hafter as [He Hp]. split; [done|].
  apply on_bar_raises_without_entry_price; [by rewrite Hp | done].
Qed.

Lemma partial_exit_breaks_next_bar_witness :
  let after := (on_trade (mkTradeData CLOSE SHORT 110 40)
                  (set_pos 60 Examples.long_100_peak_120)).1 in
  (on_bar trading_logic after (Examples.bar_closing_at 111)).2
  = Some ZeroDivisionError.
Proof.
  intros after.
  destruct (partial_exit_breaks_next_bar trading_logic
              (mkTradeData CLOSE SHORT 110 40)
              (set_pos 60 Examples.long_100_peak_120)
              (Examples.bar_closing_at 111)) as [_ Hbar]; [done | done |].
  fold after in Hbar. by rewrite Hbar.
Defined.

End SessionFacts.

(** ** Position sizing and the risk budget *)

Module BudgetFacts.
Import BaseStrategy RiskSpec SessionSpec.






End BudgetFacts.

(** ** [calculate_all]: the seven indicators together *)

Module CalculateAllFacts.
Import Pandas Frame IndicatorEngine Spec SmoothingSpec CompositionSpec.
Import RunFacts RollingFacts.

Lemma write_columns_union cols (df : DataFrame) :
  write_columns cols df = (list_to_map cols : DataFrame) ∪ df.
Proof.
  induction cols as [|[k v] cols IH]; simpl.
  - by rewrite (left_id ∅ (∪)).
  - rewrite IH. by rewrite insert_union_l.
Qed.

Lemma write_columns_app cols1 cols2 (df : DataFrame) :
  write_columns (cols1 ++ cols2) df
  = write_columns cols1 (write_columns cols2 df).
Proof. unfold write_columns. by rewrite foldr_app. Qed.

Lemma write_columns_other cols (df : DataFrame) name :
  name ∉ cols.*1 → write_columns cols df !! name = df !! name.
Proof.
  intros Hname. rewrite write_columns_union, lookup_union_r; [done|].
  by apply not_elem_of_list_to_map_1.
Qed.

Lemma write_columns_lookup cols (df : DataFrame) name c :
  NoDup cols.*1 → (name, c) ∈ cols → write_columns cols df !! name = Some c.
Proof.
  intros Hnodup Hin. rewrite write_columns_union.
  apply lookup_union_Some_l. by apply elem_of_list_to_map_1.
Qed.

Lemma write_columns_cases cols (df : DataFrame) name :
  (∃ c, (name, c) ∈ cols ∧ write_columns cols df !! name = Some c)
  ∨ ((name ∉ cols.*1) ∧ write_columns cols df !! name = df !! name).
Proof.
  rewrite write_columns_union.
  destruct ((list_to_map cols : DataFrame) !! name) as [c|] eqn:Hc.
  - left. exists c. split; [by apply elem_of_list_to_map_2|].
    by apply lookup_union_Some_l.
  - right. split; [by apply not_elem_of_list_to_map_2|].
    by rewrite lookup_union_r.
Qed.

Lemma write_columns_twice cols (df : DataFrame) :
  write_columns cols (write_columns cols df) = write_columns cols df.
Proof.
  rewrite !write_columns_union, (assoc_L (∪)). by rewrite (idemp_L (∪)).
Qed.

Lemma holds_bars_write cols (df : DataFrame) bars :
  "close" ∉ cols.*1 → "high" ∉ cols.*1 → "low" ∉ cols.*1 →
  holds_bars df bars → holds_bars (write_columns cols df) bars.
Proof.
  intros Hc Hh Hl (Hdc & Hdh & Hdl). unfold holds_bars.
  by rewrite !write_columns_other.
Qed.

Lemma writes_seq op1 op2 bars cols1 cols2 :
  "close" ∉ cols1.*1 → "high" ∉ cols1.*1 → "low" ∉ cols1.*1 →
  writes op1 bars cols1 → writes op2 bars cols2 →
  writes (op1 ;; op2) bars (cols2 ++ cols1).
Proof.
  intros Hc Hh Hl H1 H2 df Hdf.
  rewrite bind_run, (H1 df Hdf).
  rewrite (H2 _ (holds_bars_write _ _ _ Hc Hh Hl Hdf)).
  by rewrite write_columns_app.
Qed.

(** Reading a column of a frame that holds the bars, possibly under
    columns assigned since. *)
Ltac run_read :=
  rewrite bind_run; unfold getitem at 1;
  repeat (rewrite lookup_insert_ne by done);
  first [ rewrite lookup_insert_eq
        | match goal with H : _ !! _ = Some _ |- _ => rewrite H end ];
  cbn [to_numeric float_column].

Ltac run_lift H := rewrite bind_run, lift_run, H.

Ltac len :=
  unfold rsi_of, rsi_gain, rsi_loss, diff;
  unfold rsub_scalar, rdiv_scalar, add_scalar, mul_scalar, div, sub, neg, abs,
    where_, gt_scalar, lt_scalar,
    rolling_mean, rolling_std, rolling_min, rolling_max;
  repeat (progress (rewrite ?length_fmap, ?length_zip_with, ?rolling_length,
                      ?EwmFacts.ewm_mean_length, ?AtrFacts.shift_length));
  try lia.

Ltac solve_aligned :=
  cbn [fmap list_fmap snd];
  repeat (apply Forall_cons_2; [eexists; split; [reflexivity | len] |]);
  apply Forall_nil_2.

(** The loops of [add_ma], [add_ema] and [add_rsi]. *)
Section loop_writes.
Context {X : Type}.
Variable prefix : string.
Variable chk : Z → result X.
Variable g : X → series → series.
Variable val : Z → X.
Hypothesis prefix_not_close : ∀ p, fname prefix p ≠ "close".

Let body : Z → M unit := λ period,
  close ← getitem "close";
  x ← lift (chk period);
  setitem (fname prefix period) (Floats (g x close)).

Lemma loop_writes periods cl : ∀ df : DataFrame,
  df !! "close" = Some (Floats cl) →
  Forall (λ p, chk p = Ok (val p)) periods →
  for_each periods body df
  = (write_columns
       (reverse ((λ p, (fname prefix p, Floats (g (val p) cl))) <$> periods))
       df, Ok tt).
Proof.
  induction periods as [|p ps IH]; intros df Hc Hall; [done|].
  apply Forall_cons in Hall as [Hp Hall].
  change (for_each (p :: ps) body df)
    with ((body p ≫= λ _, for_each ps body) df).
  rewrite bind_run. unfold body at 1.
  rewrite bind_run, (getitem_run _ _ _ _ Hc eq_refl), bind_run, lift_run, Hp.
  rewrite setitem_run.
  rewrite IH; [|by rewrite lookup_insert_ne|done].
  by rewrite fmap_cons, reverse_cons, write_columns_app.
Qed.
End loop_writes.

Lemma add_ma_writes bars periods :
  Forall (λ p, (0 ≤ p)%Z) periods →
  ∃ cols, cols.*1 = reverse (fname "ma" <$> periods)
    ∧ Forall (aligned bars) cols.*2
    ∧ writes (add_ma periods) bars cols.
Proof.
  intros Hall.
  exists (reverse ((λ p, (fname "ma" p,
                          Floats (rolling_mean (Z.to_nat p)
                                    ((λ b, Fin (close b)) <$> bars))))
                   <$> periods)).
  split; [|split].
  - by rewrite fmap_reverse, <- list_fmap_compose.
  - rewrite fmap_reverse. apply Forall_reverse. rewrite <- list_fmap_compose.
    apply Forall_fmap, Forall_true. intros p. eexists. split; [done|]. len.
  - intros df (Hc & _).
    apply (loop_writes "ma" check_window rolling_mean Z.to_nat); [done|done|].
    eapply Forall_impl; [done|]. intros p Hp. by apply check_window_ok.
Qed.

Lemma add_ema_writes bars periods :
  Forall (λ p, (1 ≤ p)%Z) periods →
  ∃ cols, cols.*1 = reverse (fname "ema" <$> periods)
    ∧ Forall (aligned bars) cols.*2
    ∧ writes (add_ema periods) bars cols.
Proof.
  intros Hall.
  exists (reverse ((λ p, (fname "ema" p,
                          Floats (ewm_mean (2 / (IZR p + 1))
                                    ((λ b, Fin (close b)) <$> bars))))
                   <$> periods)).
  split; [|split].
  - by rewrite fmap_reverse, <- list_fmap_compose.
  - rewrite fmap_reverse. apply Forall_reverse. rewrite <- list_fmap_compose.
    apply Forall_fmap, Forall_true. intros p. eexists. split; [done|]. len.
  - intros df (Hc & _).
    apply (loop_writes "ema" alpha_of_span ewm_mean (λ p, (2 / (IZR p + 1))%R));
      [done|done|].
    eapply Forall_impl; [done|]. intros p Hp. by apply EmaFacts.alpha_of_span_ok.
Qed.

Lemma add_rsi_writes bars periods :
  Forall (λ p, (0 ≤ p)%Z) periods →
  ∃ cols, cols.*1 = reverse (fname "rsi" <$> periods)
    ∧ Forall (aligned bars) cols.*2
    ∧ writes (add_rsi periods) bars cols.
Proof.
  intros Hall.
  exists (reverse ((λ p, (fname "rsi" p,
                          Floats (rsi_of
                                    (rsi_gain (Z.to_nat p)
                                       ((λ b, Fin (close b)) <$> bars))
                                    (rsi_loss (Z.to_nat p)
                                       ((λ b, Fin (close b)) <$> bars)))))
                   <$> periods)).
  split; [|split].
  - by rewrite fmap_reverse, <- list_fmap_compose.
  - rewrite fmap_reverse. apply Forall_reverse. rewrite <- list_fmap_compose.
    apply Forall_fmap, Forall_true. intros p. eexists. split; [done|]. len.
  - intros df (Hc & _).
    apply (loop_writes "rsi" check_window
             (λ w close, rsi_of (rsi_gain w close) (rsi_loss w close))
             Z.to_nat); [done|done|].
    eapply Forall_impl; [done|]. intros p Hp. by apply check_window_ok.
Qed.

Lemma add_macd_writes bars fast slow signal :
  (1 ≤ fast)%Z → (1 ≤ slow)%Z → (1 ≤ signal)%Z →
  ∃ cols, cols.*1 = ["macd_hist"; "macd_dea"; "macd_dif"]
    ∧ Forall (aligned bars) cols.*2
    ∧ writes (add_macd fast slow signal) bars cols.
Proof.
  intros Hf Hs Hg.
  refine (ex_intro _ [("macd_hist", _); ("macd_dea", _); ("macd_dif", _)] _).
  split; [done|]. split; [|intros df (Hc & Hh & Hl)].
  2: { unfold add_macd.
       run_read. run_lift (EmaFacts.alpha_of_span_ok _ Hf).
       run_read. run_lift (EmaFacts.alpha_of_span_ok _ Hs).
       rewrite bind_run, setitem_run.
       run_read. run_lift (EmaFacts.alpha_of_span_ok _ Hg).
       rewrite bind_run, setitem_run.
       run_read. run_read. rewrite setitem_run. reflexivity. }
  solve_aligned.
Qed.

Lemma add_kdj_writes bars n m1 m2 :
  (0 ≤ n)%Z → (1 ≤ m1)%Z → (1 ≤ m2)%Z →
  ∃ cols, cols.*1 = ["kdj_j"; "kdj_d"; "kdj_k"]
    ∧ Forall (aligned bars) cols.*2
    ∧ writes (add_kdj n m1 m2) bars cols.
Proof.
  intros Hn Hm1 Hm2.
  refine (ex_intro _ [("kdj_j", _); ("kdj_d", _); ("kdj_k", _)] _).
  split; [done|]. split; [|intros df (Hc & Hh & Hl)].
  2: { unfold add_kdj.
       run_read. run_lift (check_window_ok _ Hn). run_read. run_read.
       run_lift (KdjFacts.one_over_ok _ Hm1).
       run_lift (KdjFacts.check_alpha_ok _ (KdjFacts.one_over_range _ Hm1)).
       rewrite bind_run, setitem_run.
       run_read.
       run_lift (KdjFacts.one_over_ok _ Hm2).
       run_lift (KdjFacts.check_alpha_ok _ (KdjFacts.one_over_range _ Hm2)).
       rewrite bind_run, setitem_run.
       run_read. run_read. rewrite setitem_run. reflexivity. }
  solve_aligned.
Qed.

Lemma add_boll_writes bars period k :
  (0 ≤ period)%Z →
  ∃ cols, cols.*1 = ["boll_down"; "boll_up"; "boll_std"; "boll_mid"]
    ∧ Forall (aligned bars) cols.*2
    ∧ writes (add_boll period k) bars cols.
Proof.
  intros Hp.
  refine (ex_intro _ [("boll_down", _); ("boll_up", _);
                      ("boll_std", _); ("boll_mid", _)] _).
  split; [done|]. split; [|intros df (Hc & Hh & Hl)].
  2: { unfold add_boll.
       run_read. run_lift (check_window_ok _ Hp).
       rewrite bind_run, setitem_run. run_read.
       rewrite bind_run, setitem_run. run_read. run_read.
       rewrite bind_run, setitem_run. run_read. run_read.
       rewrite setitem_run. reflexivity. }
  solve_aligned.
Qed.

Lemma true_range_aligned (bars : list Bar) :
  length (true_range ((λ b, Fin (high b)) <$> bars)
            ((λ b, Fin (low b)) <$> bars) ((λ b, Fin (close b)) <$> bars))
  = length bars.
Proof.
  unfold true_range. rewrite AtrFacts.max_axis1_length; len.
Qed.

Lemma add_atr_writes bars period :
  (0 ≤ period)%Z →
  ∃ cols, cols.*1 = [fname "atr" period]
    ∧ Forall (aligned bars) cols.*2
    ∧ writes (add_atr period) bars cols.
Proof.
  intros Hp.
  refine (ex_intro _ [(fname "atr" period, _)] _).
  split; [done|]. split; [|intros df (Hc & Hh & Hl)].
  2: { unfold add_atr. run_read. run_read. run_read.
       run_lift (check_window_ok _ Hp). rewrite setitem_run. reflexivity. }
  cbn [fmap list_fmap snd]. apply Forall_cons_2; [|apply Forall_nil_2].
  eexists. split; [done|]. unfold rolling_mean.
  by rewrite rolling_length, true_range_aligned.
Qed.

Ltac decide_names := apply (bool_decide_unpack _); vm_compute; exact I.

Lemma unique_column (cols : list (string * column)) name (c c' : column) :
  NoDup cols.*1 → (name, c) ∈ cols → (name, c') ∈ cols → c = c'.
Proof.
  intros Hnodup Hc Hc'.
  apply (elem_of_list_to_map_1 (M := gmap string)) in Hc; [|done].
  apply (elem_of_list_to_map_1 (M := gmap string)) in Hc'; [|done].
  congruence.
Qed.

Lemma sub_columns_lookup (c cols : list (string * column)) (df : DataFrame) name v :
  NoDup cols.*1 → c ⊆ cols → (name, v) ∈ c →
  write_columns c df !! name = Some v.
Proof.
  intros Hnodup Hsub Hin.
  destruct (write_columns_cases c df name) as [(v' & Hin' & ->)|[Hout _]].
  - f_equal. apply (unique_column cols name); [done | by apply Hsub..].
  - exfalso. apply Hout. apply list_elem_of_fmap. by exists (name, v).
Qed.

(** All that [calculate_all] does to a frame that holds the bars is to
    assign twenty columns; each of the seven calls on its own assigns
    some of them. *)
Lemma calculate_all_writes bars :
  ∃ cols,
    cols.*1 = reverse default_columns
    ∧ Forall (aligned bars) cols.*2
    ∧ writes calculate_all bars cols
    ∧ (∀ op, op ∈ default_indicators → ∃ c, c ⊆ cols ∧ writes op bars c)
    ∧ (∀ x, x ∈ cols →
         ∃ op c, op ∈ default_indicators ∧ writes op bars c ∧ c ⊆ cols ∧ x ∈ c).
Proof.
  destruct (add_ma_writes bars [5; 10; 20; 60]%Z) as (c1 & N1 & A1 & W1);
    [repeat constructor; lia|].
  destruct (add_ema_writes bars [12; 26]%Z) as (c2 & N2 & A2 & W2);
    [repeat constructor; lia|].
  destruct (add_macd_writes bars 12 26 9) as (c3 & N3 & A3 & W3); [lia..|].
  destruct (add_kdj_writes bars 9 3 3) as (c4 & N4 & A4 & W4); [lia..|].
  destruct (add_rsi_writes bars [6; 12; 24]%Z) as (c5 & N5 & A5 & W5);
    [repeat constructor; lia|].
  destruct (add_boll_writes bars 20 2) as (c6 & N6 & A6 & W6); [lia|].
  destruct (add_atr_writes bars 14) as (c7 & N7 & A7 & W7); [lia|].
  exists ((((((c7 ++ c6) ++ c5) ++ c4) ++ c3) ++ c2) ++ c1).
  split; [by rewrite !fmap_app, N1, N2, N3, N4, N5, N6, N7|].
  split; [rewrite !fmap_app, !Forall_app; tauto|].
  split.
  { unfold calculate_all.
    apply writes_seq; [rewrite N1; decide_names.. | done |].
    apply writes_seq; [rewrite N2; decide_names.. | done |].
    apply writes_seq; [rewrite N3; decide_names.. | done |].
    apply writes_seq; [rewrite N4; decide_names.. | done |].
    apply writes_seq; [rewrite N5; decide_names.. | done |].
    apply writes_seq; [rewrite N6; decide_names.. | done |]. done. }
  split.
  - intros op Hop. unfold default_indicators in Hop.
    repeat (apply elem_of_cons in Hop as [->|Hop]);
      [exists c1 | exists c2 | exists c3 | exists c4 | exists c5 | exists c6
       | exists c7 | by apply elem_of_nil in Hop];
      (split; [|done]); intros x Hx; rewrite !elem_of_app; tauto.
  - intros x Hx. rewrite !elem_of_app in Hx. unfold default_indicators.
    destruct Hx as [[[[[[Hx|Hx]|Hx]|Hx]|Hx]|Hx]|Hx];
      [exists (add_atr 14), c7 | exists (add_boll 20 2), c6
       | exists (add_rsi [6; 12; 24]%Z), c5 | exists (add_kdj 9 3 3), c4
       | exists (add_macd 12 26 9), c3 | exists (add_ema [12; 26]%Z), c2
       | exists (add_ma [5; 10; 20; 60]%Z), c1];
      (split; [rewrite !elem_of_cons; tauto|]); (split; [done|]);
      (split; [|done]); intros y Hy; rewrite !elem_of_app; tauto.
Qed.

Lemma default_columns_nodup : NoDup (reverse default_columns).
Proof. decide_names. Qed.

Lemma default_columns_avoid_inputs :
  ("close" ∉ reverse default_columns)
  ∧ ("high" ∉ reverse default_columns)
  ∧ ("low" ∉ reverse default_columns).
Proof. repeat split; decide_names. Qed.

(** X18.  On a frame that holds the [close], [high] and [low] columns of
    a bar series, whatever else it holds, [calculate_all] returns
    normally, and the seven indicators do not interfere: every column
    that one of the seven calls, made on its own with its default
    arguments, would change is in the result exactly as that call leaves
    it, and a column that none of them would change is not changed. *)
Theorem calculate_all_combines_the_indicators (df : DataFrame) bars :
  holds_bars df bars →
  (calculate_all df).2 = Ok tt
  ∧ (∀ op name, op ∈ default_indicators →
       run op df !! name ≠ df !! name →
       run calculate_all df !! name = run op df !! name)
  ∧ (∀ name,
       (∀ op, op ∈ default_indicators → run op df !! name = df !! name) →
       run calculate_all df !! name = df !! name).
Proof.
  intros Hdf.
  destruct (calculate_all_writes bars) as (cols & Hnames & _ & Hall & Hops & Hcov).
  assert (Hnodup : NoDup cols.*1)
    by (rewrite Hnames; apply default_columns_nodup).
  unfold run. rewrite (Hall df Hdf). cbn [fst snd].
  split; [done|]. split.
  - intros op name Hop Hchanged.
    destruct (Hops op Hop) as (c & Hsub & Hop_writes).
    rewrite (Hop_writes df Hdf) in *. cbn [fst] in *.
    destruct (write_columns_cases c df name) as [(v & Hin & Hv)|[_ Hsame]];
      [|done].
    rewrite Hv. apply write_columns_lookup; [done|]. by apply Hsub.
  - intros name Hnone.
    destruct (write_columns_cases cols df name) as [(v & Hin & Hv)|[_ Hsame]];
      [|done].
    destruct (Hcov _ Hin) as (op & c & Hop & Hop_writes & Hsub & Hinc).
    specialize (Hnone op Hop). rewrite (Hop_writes df Hdf) in Hnone.
    cbn [fst] in Hnone.
    rewrite (sub_columns_lookup c cols df name v) in Hnone by done.
    by rewrite Hv.
Qed.

Lemma frame_of_bars_holds bars : holds_bars (frame_of_bars bars) bars.
Proof. done. Qed.

Lemma calculate_all_combines_the_indicators_witness :
  (calculate_all (frame_of_bars Examples.bars_1_2_3)).2 = Ok tt
  ∧ run calculate_all (frame_of_bars Examples.bars_1_2_3) !! "volume"
    = frame_of_bars Examples.bars_1_2_3 !! "volume".
Proof.
  destruct (calculate_all_combines_the_indicators
              (frame_of_bars Examples.bars_1_2_3) Examples.bars_1_2_3)
    as (Hok & _ & Hkeep); [apply frame_of_bars_holds|].
  split; [done|]. apply Hkeep. intros op Hop.
  unfold default_indicators in Hop.
  repeat (apply elem_of_cons in Hop as [->|Hop]);
    [apply FrameFacts.keeps_add_ma | apply FrameFacts.keeps_add_ema
     | apply FrameFacts.keeps_add_macd | apply FrameFacts.keeps_add_kdj
     | apply FrameFacts.keeps_add_rsi | apply FrameFacts.keeps_add_boll
     | apply FrameFacts.keeps_add_atr | by apply elem_of_nil in Hop];
    unfold input_columns; rewrite !elem_of_cons; tauto.
Defined.

(** X19.  [calculate_all] is idempotent on such a frame: called again on
    its own result, it returns normally and leaves the frame as it is. *)
Theorem calculate_all_is_idempotent (df : DataFrame) bars :
  holds_bars df bars →
  calculate_all (run calculate_all df) = (run calculate_all df, Ok tt).
Proof.
  intros Hdf.
  destruct (calculate_all_writes bars) as (cols & Hnames & _ & Hall & _).
  destruct default_columns_avoid_inputs as (Hc & Hh & Hl).
  unfold run. rewrite (Hall df Hdf). cbn [fst].
  rewrite Hall.
  - by rewrite write_columns_twice.
  - apply holds_bars_write; [by rewrite Hnames.. | done].
Qed.

Lemma calculate_all_is_idempotent_witness :
  calculate_all (run calculate_all (frame_of_bars Examples.bars_1_2_3))
  = (run calculate_all (frame_of_bars Examples.bars_1_2_3), Ok tt).
Proof.
  apply (calculate_all_is_idempotent _ Examples.bars_1_2_3).
  apply frame_of_bars_holds.
Defined.

(** X20.  On such a frame [calculate_all] leaves twenty indicator columns
    ([ma5] ... [atr14]), each a float column with exactly one row per
    bar, and changes no other column. *)
Theorem calculate_all_columns_are_aligned (df : DataFrame) bars :
  holds_bars df bars →
  (∀ name, name ∈ default_columns →
     ∃ s, run calculate_all df !! name = Some (Floats s)
          ∧ length s = length bars)
  ∧ (∀ name, name ∉ default_columns →
       run calculate_all df !! name = df !! name).
Proof.
  intros Hdf.
  destruct (calculate_all_writes bars) as (cols & Hnames & Haligned & Hall & _).
  assert (Hnodup : NoDup cols.*1)
    by (rewrite Hnames; apply default_columns_nodup).
  unfold run. rewrite (Hall df Hdf). cbn [fst]. split.
  - intros name Hname. apply elem_of_reverse in Hname. rewrite <- Hnames in Hname.
    apply list_elem_of_fmap in Hname as ([k c] & -> & Hin). cbn [fst].
    assert (Hc : aligned bars c).
    { rewrite Forall_forall in Haligned. apply Haligned.
      apply list_elem_of_fmap. by exists (k, c). }
    destruct Hc as (s & -> & Hlen). exists s. split; [|done].
    by apply write_columns_lookup.
  - intros name Hname. apply write_columns_other.
    rewrite Hnames. by rewrite elem_of_reverse.
Qed.

Lemma calculate_all_columns_are_aligned_witness :
  ∃ s, run calculate_all (frame_of_bars Examples.bars_1_2_3) !! "rsi12"
       = Some (Floats s)
       ∧ length s = 3.
Proof.
  destruct (calculate_all_columns_are_aligned
              (frame_of_bars Examples.bars_1_2_3) Examples.bars_1_2_3)
    as [Hcols _]; [apply frame_of_bars_holds|].
  apply Hcols. unfold default_columns. rewrite !elem_of_cons. tauto.
Defined.

End CalculateAllFacts.

(** ** Order and sign of the windowed indicators *)

Module BandFacts.
Import Pandas Frame IndicatorEngine Spec SmoothingSpec RunFacts RollingFacts.

Lemma Rsum_bounds lo hi (xs : list R) :
  Forall (λ x, (lo <= x <= hi)%R) xs →
  (lo * INR (length xs) <= Rsum xs <= hi * INR (length xs))%R.
Proof.
  induction 1 as [|x xs Hx _ IH]; [simpl; lra|].
  change (length (x :: xs)) with (S (length xs)). rewrite S_INR.
  simpl. lra.
Qed.

Lemma window_mean_bounds lo hi w i (xs : list R) :
  1 ≤ w → w ≤ S i → i < length xs →
  Forall (λ x, (lo <= x <= hi)%R) xs →
  (lo <= window_mean w i xs <= hi)%R.
Proof.
  intros Hw Hi Hlen Hall. unfold window_mean.
  pose proof (Rsum_bounds lo hi (window w i xs)
                (RsiFacts.window_Forall _ w i xs Hall)) as Hsum.
  rewrite window_length in Hsum by done.
  replace (w `min` S i) with w in Hsum by lia.
  assert (Hpos : (0 < INR w)%R) by (apply lt_0_INR; lia).
  split.
  - apply Rmult_le_reg_r with (INR w); [done|].
    replace (Rsum (window w i xs) / INR w * INR w)%R
      with (Rsum (window w i xs)) by (field; lra). lra.
  - apply Rmult_le_reg_r with (INR w); [done|].
    replace (Rsum (window w i xs) / INR w * INR w)%R
      with (Rsum (window w i xs)) by (field; lra). lra.
Qed.

(** X21.  From row [L - 1] on, the moving average [ma{L}] is the mean of
    the last [L] closes, and so lies between any two bounds of the
    closes. *)
Theorem moving_average_within_closes bars periods L i lo hi :
  Forall (λ p, (0 ≤ p)%Z) periods → L ∈ periods → (1 ≤ L)%Z →
  i < length bars → Z.to_nat L ≤ S i →
  Forall (λ c, (lo <= c <= hi)%R) (closes bars) →
  ∃ v, cell (run (add_ma periods) (frame_of_bars bars)) (fname "ma" L) i
       = Some (Fin v)
       ∧ v = window_mean (Z.to_nat L) i (closes bars)
       ∧ (lo <= v <= hi)%R.
Proof.
  intros Hall HL HL1 Hi Hw Hbounds.
  exists (window_mean (Z.to_nat L) i (closes bars)).
  split; [by apply WarmupFacts.ma_cell_full|]. split; [done|].
  apply window_mean_bounds; [lia | done | | done].
  by rewrite WarmupFacts.closes_length.
Qed.

Lemma moving_average_within_closes_witness :
  ∃ v, cell (run (add_ma [2]%Z) (frame_of_bars Examples.bars_1_2_3))
         (fname "ma" 2) 2 = Some (Fin v)
       ∧ v = window_mean 2 2 (closes Examples.bars_1_2_3)
       ∧ (1 <= v <= 3)%R.
Proof.
  apply (moving_average_within_closes Examples.bars_1_2_3 [2]%Z 2 2 1 3).
  - apply Forall_singleton. lia.
  - apply list_elem_of_singleton. reflexivity.
  - lia.
  - simpl. lia.
  - simpl. lia.
  - repeat constructor; simpl; lra.
Defined.

(** X22.  The middle Bollinger band is the moving average of the same
    period: [add_boll period k] writes into [boll_mid] the column that
    [add_ma [period]] writes into [ma{period}]. *)
Theorem boll_mid_is_the_moving_average bars period k :
  (0 ≤ period)%Z →
  ∃ s, run (add_boll period k) (frame_of_bars bars) !! "boll_mid"
       = Some (Floats s)
       ∧ run (add_ma [period]) (frame_of_bars bars) !! fname "ma" period
         = Some (Floats s).
Proof.
  intros Hp.
  exists (rolling_mean (Z.to_nat period) (Fin <$> closes bars)). split.
  - unfold run. rewrite BollFacts.add_boll_run by done. cbn [fst].
    by rewrite !lookup_insert_ne, lookup_insert_eq by done.
  - destruct (add_ma_ok [period] bars) as [df' Hrun];
      [by apply Forall_singleton|].
    unfold run. rewrite Hrun. cbn [fst].
    eapply add_ma_column; [done|]. by apply list_elem_of_singleton.
Qed.

Lemma boll_mid_is_the_moving_average_witness :
  ∃ s, run (add_boll 2 2) (frame_of_bars Examples.bars_1_2_3) !! "boll_mid"
       = Some (Floats s)
       ∧ run (add_ma [2]%Z) (frame_of_bars Examples.bars_1_2_3) !! "ma2"
         = Some (Floats s).
Proof.
  apply (boll_mid_is_the_moving_average Examples.bars_1_2_3 2 2). lia.
Defined.

(** X23.  From row [period - 1] on, for a period of at least 2 and a
    non-negative width [k], the four Bollinger cells are numbers, the
    deviation is not negative, and the bands enclose the middle one at
    equal distances: [boll_down <= boll_mid <= boll_up] and
    [boll_up - boll_mid = boll_mid - boll_down = k * boll_std]. *)
Theorem bollinger_bands_enclose_the_mean bars period k i :
  (2 ≤ period)%Z → (period - 1 ≤ Z.of_nat i)%Z → i < length bars →
  (0 <= k)%R →
  let df := run (add_boll period k) (frame_of_bars bars) in
  ∃ mid sd up down,
    cell df "boll_mid" i = Some (Fin mid)
    ∧ cell df "boll_std" i = Some (Fin sd)
    ∧ cell df "boll_up" i = Some (Fin up)
    ∧ cell df "boll_down" i = Some (Fin down)
    ∧ (0 <= sd)%R
    ∧ (down <= mid <= up)%R
    ∧ (up - mid = k * sd)%R ∧ (mid - down = k * sd)%R.
Proof.
  intros Hp Hi Hlen Hk df.
  destruct (BollFacts.boll_aggregates bars period i Hp Hi Hlen)
    as (_ & Hmean & Hstd).
  destruct (BollFacts.boll_cells_of bars period k i _ _ ltac:(lia) Hmean Hstd)
    as (Hm & Hs & Hu & Hd).
  set (xs := window (Z.to_nat period) i (closes bars)) in *.
  assert (Hsd : (0 <= sample_std xs)%R) by apply sqrt_pos.
  exists (Rsum xs / INR (length xs))%R, (sample_std xs),
    (Rsum xs / INR (length xs) + k * sample_std xs)%R,
    (Rsum xs / INR (length xs) + - (k * sample_std xs))%R.
  split; [done|]. split; [done|]. split; [done|]. split; [done|].
  split; [done|]. assert (0 <= k * sample_std xs)%R by nra.
  split; [lra|]. split; lra.
Qed.

Lemma bollinger_bands_enclose_the_mean_witness :
  ∃ mid sd up down,
    cell (run (add_boll 2 2) (frame_of_bars Examples.bars_1_2_3)) "boll_mid" 1
    = Some (Fin mid)
    ∧ cell (run (add_boll 2 2) (frame_of_bars Examples.bars_1_2_3)) "boll_std" 1
      = Some (Fin sd)
    ∧ cell (run (add_boll 2 2) (frame_of_bars Examples.bars_1_2_3)) "boll_up" 1
      = Some (Fin up)
    ∧ cell (run (add_boll 2 2) (frame_of_bars Examples.bars_1_2_3)) "boll_down" 1
      = Some (Fin down)
    ∧ (0 <= sd)%R
    ∧ (down <= mid <= up)%R
    ∧ (up - mid = 2 * sd)%R ∧ (mid - down = 2 * sd)%R.
Proof.
  apply (bollinger_bands_enclose_the_mean Examples.bars_1_2_3 2 2 1).
  - lia.
  - lia.
  - simpl. lia.
  - lra.
Defined.

Lemma true_ranges_nonneg bars :
  Forall (λ b, (low b <= high b)%R) bars →
  Forall (λ x, (0 <= x)%R) (true_ranges bars).
Proof.
  intros Hall. apply Forall_lookup. intros t x Hx.
  unfold true_ranges in Hx. rewrite list_lookup_imap in Hx.
  destruct (bars !! t) as [b|] eqn:Hb; [|done].
  rewrite Forall_lookup in Hall. specialize (Hall t b Hb).
  simpl in Hx. assert (x = match t with
                           | 0 => (high b - low b)%R
                           | S t' =>
                               match bars !! t' with
                               | Some pb =>
                                   Rmax (high b - low b)
                                     (Rmax (Rabs (high b - close pb))
                                           (Rabs (low b - close pb)))
                               | None => (high b - low b)%R
                               end
                           end) as -> by congruence.
  destruct t as [|t']; [lra|].
  destruct (bars !! t') as [pb|]; [|lra].
  pose proof (Rmax_l (high b - low b)
                (Rmax (Rabs (high b - close pb)) (Rabs (low b - close pb)))).
  lra.
Qed.

(** X24.  On bars whose low is not above their high, the average true
    range is never negative: from row [period - 1] on it is a number at
    least 0. *)
Theorem atr_is_nonnegative bars period i :
  Forall (λ b, (low b <= high b)%R) bars →
  (1 ≤ period)%Z → (period - 1 ≤ Z.of_nat i)%Z → i < length bars →
  ∃ v, cell (run (add_atr period) (frame_of_bars bars)) (fname "atr" period) i
       = Some (Fin v)
       ∧ (0 <= v)%R.
Proof.
  intros Hall Hp Hi Hlen. eexists. split; [by apply AtrFacts.atr_cell|].
  apply (RsiFacts.window_mean_nonneg (Z.to_nat period) i (true_ranges bars)).
  by apply true_ranges_nonneg.
Qed.

Lemma atr_is_nonnegative_witness :
  ∃ v, cell (run (add_atr 2) (frame_of_bars Examples.bars_1_2_3))
         (fname "atr" 2) 1 = Some (Fin v)
       ∧ (0 <= v)%R.
Proof.
  apply (atr_is_nonnegative Examples.bars_1_2_3 2 1).
  - repeat constructor; simpl; lra.
  - lia.
  - lia.
  - simpl. lia.
Defined.

End BandFacts.

(** ** The template on its own *)

Module TemplateFacts.
Import BaseStrategy RiskSpec.

Lemma risk_management_raises_only_zero_division self bar e :
  risk_management self bar = Raise e → e = ZeroDivisionError.
Proof.
  unfold risk_management, py_div.
  repeat (case_decide; simpl); congruence.
Qed.

(** X25.  [BaseStrategy.on_bar] never returns normally while
    [trading_logic] is not overridden: it updates the current price and
    the extremes, then either the risk manager raises
    [ZeroDivisionError] and nothing is sent, or what the risk manager
    decided is sent and [trading_logic] raises [NotImplementedError]. *)
Theorem base_on_bar_always_raises self bar :
  ∃ sent e,
    on_bar trading_logic self bar
    = (seen_by_risk_management self bar, sent, Some e)
    ∧ ((e = ZeroDivisionError ∧ sent = []
        ∧ risk_management (seen_by_risk_management self bar) bar = Raise e)
       ∨ (e = NotImplementedError
          ∧ risk_management (seen_by_risk_management self bar) bar = Ok sent)).
Proof.
  unfold on_bar. fold (seen_by_risk_management self bar).
  destruct (risk_management (seen_by_risk_management self bar) bar)
    as [sent|e] eqn:Hrisk.
  - exists sent, NotImplementedError. split; [|by right].
    unfold trading_logic. by rewrite app_nil_r.
  - apply risk_management_raises_only_zero_division in Hrisk as Hzero.
    exists [], e. split; [done|]. left. by rewrite Hzero in *.
Qed.

End TemplateFacts.

(** ** The RSI as a share of the gains *)

Module RsiShareFacts.
Import Pandas Frame IndicatorEngine Spec RunFacts RollingFacts.

Lemma rsi_share g l :
  (0 <= g)%R → (0 < l)%R →
  (100 - 100 / (1 + g / l) = 100 * g / (g + l))%R.
Proof. intros Hg Hl. field. split; lra. Qed.

(** X26.  At a row where the window of [L] rows is full and holds a loss,
    the RSI is the share of the gains in the total movement,
    [100 * avg_gain / (avg_gain + avg_loss)]: 0 when the window holds no
    gain, 50 when average gain and average loss are equal. *)
Theorem rsi_is_the_share_of_gains bars periods L i :
  Forall (λ p, (0 ≤ p)%Z) periods → L ∈ periods → (1 ≤ L)%Z →
  i < length bars → Z.to_nat L ≤ S i →
  let avg_gain := window_mean (Z.to_nat L) i (gains (closes bars)) in
  let avg_loss := window_mean (Z.to_nat L) i (losses (closes bars)) in
  (0 < avg_loss)%R →
  cell (run (add_rsi periods) (frame_of_bars bars)) (fname "rsi" L) i
  = Some (Fin (100 * avg_gain / (avg_gain + avg_loss)))
  ∧ (avg_gain = 0%R →
     cell (run (add_rsi periods) (frame_of_bars bars)) (fname "rsi" L) i
     = Some (Fin 0))
  ∧ (avg_gain = avg_loss →
     cell (run (add_rsi periods) (frame_of_bars bars)) (fname "rsi" L) i
     = Some (Fin 50)).
Proof.
  intros Hall HL HL1 Hi Hfull avg_gain avg_loss Hloss.
  assert (Hgain : (0 <= avg_gain)%R)
    by apply RsiFacts.window_mean_nonneg, RsiFacts.gains_nonneg.
  assert (Hcell :
    cell (run (add_rsi periods) (frame_of_bars bars)) (fname "rsi" L) i
    = Some (Fin (100 * avg_gain / (avg_gain + avg_loss)))).
  { rewrite RsiFacts.rsi_cell_full by done. fold avg_gain avg_loss.
    rewrite RsiFacts.rsi_value_loss by done. by rewrite rsi_share. }
  split; [done|]. rewrite Hcell. split.
  - intros Hzero. do 2 f_equal. rewrite Hzero. field. lra.
  - intros Heq. do 2 f_equal. rewrite Heq. field. lra.
Qed.

Lemma rsi_is_the_share_of_gains_witness :
  cell (run (add_rsi [2]%Z)
          (frame_of_bars [Examples.flat_bar 3; Examples.flat_bar 2;
                          Examples.flat_bar 1]))
    (fname "rsi" 2) 2
  = Some (Fin 0).
Proof.
  set (bars := [Examples.flat_bar 3; Examples.flat_bar 2; Examples.flat_bar 1]).
  assert (Hgain : window_mean 2 2 (gains (closes bars)) = 0%R).
  { unfold window_mean, window, gains, closes. simpl.
    unfold Rmax. repeat destruct (Rle_dec _ _); lra. }
  assert (Hloss : window_mean 2 2 (losses (closes bars)) = 1%R).
  { unfold window_mean, window, losses, closes. simpl.
    unfold Rmax. repeat destruct (Rle_dec _ _); lra. }
  destruct (rsi_is_the_share_of_gains bars [2]%Z 2 2) as (_ & Hzero & _).
  - apply Forall_singleton. lia.
  - apply list_elem_of_singleton. reflexivity.
  - lia.
  - simpl. lia.
  - simpl. lia.
  - change (Z.to_nat 2) with 2. rewrite Hloss. lra.
  - apply Hzero. change (Z.to_nat 2) with 2. exact Hgain.
Defined.

End RsiShareFacts.

(** ** Risk management on binary64 *)

Module Risk64Facts.
Import Float64 BaseStrategy64 RiskSpec64.

Lemma percentage_inv a b pct :
  (q ← py_div a b; Ok (q * 100)%float) = Ok pct →
  py_div a b = Ok (a / b)%float ∧ pct = (a / b * 100)%float.
Proof.
  unfold py_div. destruct (b =? 0)%float; [done|].
  intros Hpct. split; [done|]. cbn in Hpct. congruence.
Qed.

Lemma risk_management_stop_loss self bar loss :
  (pos self > 0)%Z → loss_pct self bar = Ok loss →
  py_ge loss (stop_loss_pct self) = true →
  risk_management self bar = Ok (stop_loss_exit self bar loss).
Proof.
  intros Hpos Hloss Hge. apply percentage_inv in Hloss as [Hdiv ->].
  unfold risk_management, stop_loss_exit.
  rewrite decide_False by lia. rewrite decide_True by done.
  rewrite Hdiv, RiskFacts.result_bind_ok. cbv zeta. by rewrite Hge.
Qed.

Lemma risk_management_trailing self bar loss drawdown :
  (pos self > 0)%Z → loss_pct self bar = Ok loss →
  py_ge loss (stop_loss_pct self) = false →
  drawdown_pct self bar = Ok drawdown →
  py_ge drawdown (take_profit_pct self) = true →
  risk_management self bar = Ok (trailing_take_profit_exit self bar drawdown).
Proof.
  intros Hpos Hloss Hlt Hdd Hge.
  apply percentage_inv in Hloss as [Hdiv ->].
  apply percentage_inv in Hdd as [Hdiv' ->].
  unfold risk_management, trailing_take_profit_exit.
  rewrite decide_False by lia. rewrite decide_True by done.
  rewrite Hdiv, RiskFacts.result_bind_ok. cbv zeta. rewrite Hlt.
  rewrite Hdiv', RiskFacts.result_bind_ok. cbv zeta. by rewrite Hge.
Qed.

Lemma risk_management_long_quiet self bar loss drawdown :
  (pos self > 0)%Z → loss_pct self bar = Ok loss →
  py_ge loss (stop_loss_pct self) = false →
  drawdown_pct self bar = Ok drawdown →
  py_ge drawdown (take_profit_pct self) = false →
  risk_management self bar = Ok [].
Proof.
  intros Hpos Hloss Hlt Hdd Hge.
  apply percentage_inv in Hloss as [Hdiv ->].
  apply percentage_inv in Hdd as [Hdiv' ->].
  unfold risk_management.
  rewrite decide_False by lia. rewrite decide_True by done.
  rewrite Hdiv, RiskFacts.result_bind_ok. cbv zeta. rewrite Hlt.
  rewrite Hdiv', RiskFacts.result_bind_ok. cbv zeta. by rewrite Hge.
Qed.

Lemma on_bar_sends logic self bar sent :
  risk_management (seen_by_risk_management self bar) bar = Ok sent →
  ∃ self' sent' r, on_bar logic self bar = (self', sent ++ sent', r).
Proof.
  intros Hrisk. unfold on_bar. fold (seen_by_risk_management self bar).
  rewrite Hrisk. destruct (logic _ bar) as [[self' sent'] r]. by eexists _, _, _.
Qed.

(** C4 (as the code has it).  With a long position, on a bar where the
    loss percentage the code computes, [(entry_price - close) /
    entry_price * 100] with each operation rounded to binary64, is at
    least [stop_loss_pct], the risk manager sends exactly one order, the
    sale of the whole position at the close, logged as a stop-loss;
    whether the trailing take-profit condition holds as well plays no
    part.  [on_bar] sends that exit first. *)
Theorem stop_loss_takes_priority (logic : callback) self bar loss :
  (pos self > 0)%Z → loss_pct self bar = Ok loss →
  py_ge loss (stop_loss_pct self) = true →
  risk_management self bar = Ok (stop_loss_exit self bar loss)
  ∧ ∀ before, seen_by_risk_management before bar = self →
      ∃ self' sent' r,
        on_bar logic before bar = (self', stop_loss_exit self bar loss ++ sent', r).
Proof.
  intros Hpos Hloss Hge.
  pose proof (risk_management_stop_loss self bar loss Hpos Hloss Hge) as Hrisk.
  split; [done|]. intros before <-. by apply on_bar_sends.
Qed.

Lemma stop_loss_takes_priority_witness :
  let self := Examples64.long_100_peak_120 in
  let bar := Examples64.bar_closing_at 94 in
  (∃ drawdown, drawdown_pct self bar = Ok drawdown
               ∧ py_ge drawdown (take_profit_pct self) = true)
  ∧ ∃ loss, risk_management self bar
            = Ok [write_log (StopLossTriggered loss); sell 94 100].
Proof.
  intros self bar. split.
  - eexists. split; [reflexivity|]. vm_compute. reflexivity.
  - eexists.
    apply (stop_loss_takes_priority trading_logic self bar).
    + vm_compute. reflexivity.
    + reflexivity.
    + vm_compute. reflexivity.
Defined.

(** With an entry price of 100, a close of 85.5 and a stop-loss
    percentage of 14.5 the loss is 14.5 % exactly, and the stop-loss
    condition holds; the code computes 14.5 / 100 * 100 in binary64,
    which is below 14.5, skips the stop-loss and, the close being far
    below the highest price, logs a trailing take-profit. *)
Lemma stop_loss_skipped_at_the_threshold_counterexample :
  let self := set_stop_loss_pct 14.5 Examples64.long_100_peak_120 in
  let bar := Examples64.bar_closing_at 85.5 in
  (pos self > 0)%Z
  ∧ ((100 - 85.5) / 100 * 100 >= 14.5)%R
  ∧ (∃ loss, loss_pct self bar = Ok loss ∧ (loss <? 14.5)%float = true)
  ∧ ∃ drawdown,
      risk_management self bar
      = Ok [write_log (TrailingTakeProfitTriggered drawdown); sell 85.5 100].
Proof.
  intros self bar. split; [vm_compute; reflexivity|]. split; [lra|]. split.
  - eexists. split; [reflexivity|]. vm_compute. reflexivity.
  - eexists. vm_compute. reflexivity.
Qed.

(** After the sale of a part of a long position the entry price is 0
    although 60 are still held.  On the next bar the close, 107, has
    retreated from the highest price, 120, by more than the take-profit
    percentage, 10; the risk manager does not sell: its first division
    raises [ZeroDivisionError], [on_bar] sends nothing and does not reach
    [trading_logic]. *)
Lemma partial_exit_loses_the_trailing_exit (logic : callback) :
  let held := set_pos 60 Examples64.long_100_peak_120 in
  let after := (on_trade Examples64.partial_exit held).1 in
  let bar := Examples64.bar_closing_at 107 in
  let seen := seen_by_risk_management after bar in
  pos after = 60%Z
  ∧ entry_price after = 0%float
  ∧ highest_price seen = 120%float
  ∧ (∃ drawdown, drawdown_pct seen bar = Ok drawdown
                 ∧ py_ge drawdown (take_profit_pct seen) = true)
  ∧ risk_management seen bar = Raise ZeroDivisionError
  ∧ on_bar logic after bar = (seen, [], Some ZeroDivisionError).
Proof.
  intros held after bar seen.
  assert (Hrisk : risk_management seen bar = Raise ZeroDivisionError)
    by (vm_compute; reflexivity).
  split; [reflexivity|]. split; [reflexivity|].
  split; [vm_compute; reflexivity|]. split.
  - eexists. split; [vm_compute; reflexivity|]. vm_compute. reflexivity.
  - split; [done|]. unfold on_bar.
    fold (seen_by_risk_management after bar). fold seen. by rewrite Hrisk.
Qed.

(** C3 (as the code has it).  With a long position whose entry price and
    highest price are not zero and whose loss percentage, as the code
    computes it in binary64, is below [stop_loss_pct], on a bar where the
    drawdown the code computes, [(highest_price - close) / highest_price
    * 100] with each operation rounded to binary64, is at least
    [take_profit_pct], the risk manager sends the sale of the whole
    position at the close, logged as a trailing take-profit, and [on_bar]
    sends that exit first; the close may still be above the entry price.
    When that drawdown is below [take_profit_pct] as well, nothing is
    sent. *)
Theorem trailing_take_profit_on_drawdown (logic : callback) self bar loss drawdown :
  (pos self > 0)%Z → loss_pct self bar = Ok loss →
  py_ge loss (stop_loss_pct self) = false →
  drawdown_pct self bar = Ok drawdown →
  (py_ge drawdown (take_profit_pct self) = true →
     risk_management self bar = Ok (trailing_take_profit_exit self bar drawdown)
     ∧ ∀ before, seen_by_risk_management before bar = self →
         ∃ self' sent' r,
           on_bar logic before bar
           = (self', trailing_take_profit_exit self bar drawdown ++ sent', r))
  ∧ (py_ge drawdown (take_profit_pct self) = false →
     risk_management self bar = Ok []).
Proof.
  intros Hpos Hloss Hlt Hdd. split.
  - intros Hge.
    pose proof (risk_management_trailing self bar loss drawdown
                  Hpos Hloss Hlt Hdd Hge) as Hrisk.
    split; [done|]. intros before <-. by apply on_bar_sends.
  - intros Hquiet. by apply (risk_management_long_quiet self bar loss drawdown).
Qed.

Lemma trailing_take_profit_on_drawdown_witness :
  let self := Examples64.long_100_peak_120 in
  let bar := Examples64.bar_closing_at 107 in
  (entry_price self <? close_price bar)%float = true
  ∧ ∃ drawdown, risk_management self bar
                = Ok [write_log (TrailingTakeProfitTriggered drawdown);
                      sell 107 100].
Proof.
  intros self bar. split; [reflexivity|].
  edestruct (trailing_take_profit_on_drawdown trading_logic self bar)
    as [Hexit _].
  - vm_compute. reflexivity.
  - reflexivity.
  - vm_compute. reflexivity.
  - reflexivity.
  - eexists. apply Hexit. vm_compute. reflexivity.
Defined.

(** With a highest price of 100, a close of 85.5 and a take-profit
    percentage of 14.5 the drawdown is 14.5 % exactly and the close is
    above the entry price, 80: the trailing condition holds and the
    stop-loss condition does not; the code computes a drawdown below
    14.5 and sends nothing.  And after a partial exit, with the entry
    price reset to 0, a drawdown above the take-profit percentage sends
    nothing either: the risk manager raises. *)
Lemma trailing_exit_not_sent_counterexample :
  let self := set_take_profit_pct 14.5
                (set_pos 100 (set_highest_price 100
                                (set_entry_price 80 initial))) in
  let bar := Examples64.bar_closing_at 85.5 in
  let after := (on_trade Examples64.partial_exit
                  (set_pos 60 Examples64.long_100_peak_120)).1 in
  ((pos self > 0)%Z
   ∧ ((100 - 85.5) / 100 * 100 >= 14.5)%R
   ∧ ¬ ((80 - 85.5) / 80 * 100 >= 5)%R
   ∧ risk_management self bar = Ok [])
  ∧ ((pos after > 0)%Z
     ∧ (∃ drawdown,
          drawdown_pct
            (seen_by_risk_management after (Examples64.bar_closing_at 107))
            (Examples64.bar_closing_at 107) = Ok drawdown
          ∧ py_ge drawdown (take_profit_pct after) = true)
     ∧ (on_bar trading_logic after (Examples64.bar_closing_at 107)).1.2 = []
     ∧ (on_bar trading_logic after (Examples64.bar_closing_at 107)).2
       = Some ZeroDivisionError).
Proof.
  intros self bar after. split.
  - split; [vm_compute; reflexivity|]. split; [lra|]. split; [lra|].
    vm_compute. reflexivity.
  - destruct (partial_exit_loses_the_trailing_exit trading_logic)
      as (_ & _ & _ & Hdd & _ & Hbar).
    split; [vm_compute; reflexivity|]. split; [exact Hdd|].
    fold after in Hbar. by rewrite Hbar.
Qed.

Lemma risk_management_short self bar loss :
  (pos self < 0)%Z → short_loss_pct self bar = Ok loss →
  risk_management self bar
  = Ok (if py_ge loss (stop_loss_pct self)
        then short_stop_loss_exit self bar loss else []).
Proof.
  intros Hpos Hloss. apply percentage_inv in Hloss as [Hdiv ->].
  unfold risk_management, short_stop_loss_exit.
  rewrite decide_False by lia. rewrite decide_False by lia.
  rewrite decide_True by done.
  rewrite Hdiv, RiskFacts.result_bind_ok. cbv zeta. by destruct (py_ge _ _).
Qed.

(** X15.  A short position has one exit only.  On a bar where the loss
    the code computes, [(close - entry_price) / entry_price * 100] in
    binary64, is at least [stop_loss_pct], the risk manager logs a
    stop-loss and buys back the whole position at the close; otherwise it
    sends nothing.  The highest and lowest price and the take-profit
    percentage play no part: the decision is the same whatever they are. *)
Theorem short_side_has_only_a_stop_loss self bar loss :
  (pos self < 0)%Z → short_loss_pct self bar = Ok loss →
  (py_ge loss (stop_loss_pct self) = true →
     risk_management self bar = Ok (short_stop_loss_exit self bar loss))
  ∧ (py_ge loss (stop_loss_pct self) = false →
     risk_management self bar = Ok [])
  ∧ ∀ highest lowest take_profit,
      risk_management
        (set_take_profit_pct take_profit
           (set_lowest_price lowest (set_highest_price highest self))) bar
      = risk_management self bar.
Proof.
  intros Hpos Hloss.
  pose proof (risk_management_short self bar loss Hpos Hloss) as Hrisk.
  split; [|split].
  - intros Hge. by rewrite Hrisk, Hge.
  - intros Hlt. by rewrite Hrisk, Hlt.
  - intros highest lowest take_profit. rewrite Hrisk.
    by rewrite (risk_management_short _ bar loss).
Qed.

Lemma short_side_has_only_a_stop_loss_witness :
  let self := set_lowest_price 50
                (set_pos (-100) (set_entry_price 100 initial)) in
  risk_management self (Examples64.bar_closing_at 104) = Ok []
  ∧ ∃ loss, risk_management self (Examples64.bar_closing_at 105)
            = Ok [write_log (StopLossTriggered loss); cover 105 100].
Proof.
  intros self. split.
  - edestruct (short_side_has_only_a_stop_loss self
                 (Examples64.bar_closing_at 104)) as (_ & Hquiet & _).
    + vm_compute. reflexivity.
    + reflexivity.
    + apply Hquiet. vm_compute. reflexivity.
  - edestruct (short_side_has_only_a_stop_loss self
                 (Examples64.bar_closing_at 105)) as (Hexit & _).
    + vm_compute. reflexivity.
    + reflexivity.
    + eexists. apply Hexit. vm_compute. reflexivity.
Defined.

Lemma seen_long self bar :
  (pos self > 0)%Z →
  let seen := seen_by_risk_management self bar in
  pos seen = pos self
  ∧ entry_price seen = entry_price self
  ∧ stop_loss_pct seen = stop_loss_pct self
  ∧ take_profit_pct seen = take_profit_pct self
  ∧ highest_price seen = py_max (highest_price self) (high_price bar).
Proof.
  intros Hpos. unfold seen_by_risk_management, update_extremes. simpl.
  by rewrite decide_True by done.
Qed.

(** X27.  [on_bar] raises the highest price to the bar's high before the
    risk manager looks at the close: the drawdown is measured from
    [max highest_price bar.high].  So for a long position whose computed
    loss is below [stop_loss_pct], the trailing exit is sent exactly when
    [(peak - close) / peak * 100], computed in binary64 from that raised
    peak, is at least [take_profit_pct]: a bar that makes a new high and
    closes far enough below it exits on that same bar.  Otherwise the
    risk manager sends nothing and [on_bar] is what [trading_logic]
    does. *)
Theorem trailing_level_counts_the_bar_high (logic : callback) self bar loss :
  (pos self > 0)%Z → loss_pct self bar = Ok loss →
  py_ge loss (stop_loss_pct self) = false →
  let seen := seen_by_risk_management self bar in
  let peak := py_max (highest_price self) (high_price bar) in
  let drawdown := ((peak - close_price bar) / peak * 100)%float in
  (peak =? 0)%float = false →
  highest_price seen = peak
  ∧ (py_ge drawdown (take_profit_pct self) = true →
     ∃ self' sent' r,
       on_bar logic self bar
       = (self', trailing_take_profit_exit self bar drawdown ++ sent', r))
  ∧ (py_ge drawdown (take_profit_pct self) = false →
     on_bar logic self bar = logic seen bar).
Proof.
  intros Hpos Hloss Hlt seen peak drawdown Hpeak.
  destruct (seen_long self bar Hpos) as (Hsp & Hse & Hss & Hst & Hsh).
  fold seen in Hsp, Hse, Hss, Hst, Hsh. fold peak in Hsh.
  assert (Hloss' : loss_pct seen bar = Ok loss).
  { unfold loss_pct in *. by rewrite Hse. }
  assert (Hdd : drawdown_pct seen bar = Ok drawdown).
  { unfold drawdown_pct, py_div. by rewrite Hsh, Hpeak. }
  split; [done|]. split.
  - intros Hge. apply on_bar_sends. fold seen.
    replace (trailing_take_profit_exit self bar drawdown)
      with (trailing_take_profit_exit seen bar drawdown)
      by (unfold trailing_take_profit_exit; by rewrite Hsp).
    apply (risk_management_trailing seen bar loss drawdown);
      [lia | done | by rewrite Hss | done | by rewrite Hst].
  - intros Hquiet. unfold on_bar.
    fold (seen_by_risk_management self bar). fold seen.
    rewrite (risk_management_long_quiet seen bar loss drawdown);
      [| lia | done | by rewrite Hss | done | by rewrite Hst].
    by destruct (logic seen bar) as [[s' sent'] r].
Qed.

Lemma trailing_level_counts_the_bar_high_witness :
  let self := Examples64.long_100_peak_120 in
  let bar := mkBarData 115 130 115 115 0 in
  (∃ drawdown, drawdown_pct self bar = Ok drawdown
               ∧ py_ge drawdown (take_profit_pct self) = false)
  ∧ ∃ drawdown self' sent' r,
      on_bar trading_logic self bar
      = (self', trailing_take_profit_exit self bar drawdown ++ sent', r).
Proof.
  intros self bar. split.
  - eexists. split; [reflexivity|]. vm_compute. reflexivity.
  - edestruct (trailing_level_counts_the_bar_high trading_logic self bar)
      as (_ & Hexit & _).
    + vm_compute. reflexivity.
    + reflexivity.
    + vm_compute. reflexivity.
    + vm_compute. reflexivity.
    + eexists. apply Hexit. vm_compute. reflexivity.
Defined.

End Risk64Facts.

(** ** Position sizing on binary64 *)

Module Sizing64Facts.
Import Float64 BaseStrategy64 RiskSpec64.

Lemma Prim2SF_0 : Prim2SF 0 = S754_zero false.
Proof. reflexivity. Qed.

Lemma Prim2SF_100 : positive (Prim2SF 100).
Proof. reflexivity. Qed.

Lemma Prim2SF_infinity : Prim2SF infinity = S754_infinity false.
Proof. reflexivity. Qed.

Lemma is_zero_spec x : (x =? 0)%float = true ↔ ∃ s, Prim2SF x = S754_zero s.
Proof.
  rewrite FloatAxioms.eqb_spec, Prim2SF_0. unfold SFeqb, SFcompare.
  destruct (Prim2SF x) as [s|s| |s m e]; split;
    try (intros [s' Hs]; discriminate Hs); try done.
  - by eexists.
  - by destruct s.
  - by destruct s.
Qed.

Lemma is_finite_spec x :
  is_finite x = true →
  (∃ s, Prim2SF x = S754_zero s) ∨ ∃ s m e, Prim2SF x = S754_finite s m e.
Proof.
  unfold is_finite, is_nan, is_infinity.
  rewrite !FloatAxioms.eqb_spec, abs_spec, Prim2SF_infinity.
  destruct (Prim2SF x) as [s|s| |s m e]; simpl; intros Hfin.
  - left. by eexists.
  - by destruct s.
  - done.
  - right. by eexists _, _, _.
Qed.

(** A zero factor makes the stop-loss amount zero. *)
Lemma zero_amount_l a b :
  (a =? 0)%float = true → is_finite b = true → (a * b / 100 =? 0)%float = true.
Proof.
  intros [s Ha]%is_zero_spec Hb%is_finite_spec. apply is_zero_spec.
  pose proof Prim2SF_100 as H100.
  rewrite div_spec, mul_spec, Ha.
  destruct (Prim2SF 100) as [|s1| |s1 m1 e1]; try done.
  - destruct Hb as [[s' ->]|(s' & m & e & ->)]; by eexists.
  - destruct Hb as [[s' ->]|(s' & m & e & ->)]; by eexists.
Qed.

Lemma zero_amount_r a b :
  (b =? 0)%float = true → is_finite a = true → (a * b / 100 =? 0)%float = true.
Proof.
  intros [s Hb]%is_zero_spec Ha%is_finite_spec. apply is_zero_spec.
  pose proof Prim2SF_100 as H100.
  rewrite div_spec, mul_spec, Hb.
  destruct (Prim2SF 100) as [|s1| |s1 m1 e1]; try done.
  - destruct Ha as [[s' ->]|(s' & m & e & ->)]; by eexists.
  - destruct Ha as [[s' ->]|(s' & m & e & ->)]; by eexists.
Qed.

Lemma calculate_position_zero_amount self capital price :
  (price * stop_loss_pct self / 100 =? 0)%float = true →
  calculate_position self capital price = Raise ZeroDivisionError.
Proof. intros Hzero. unfold calculate_position, py_div. by rewrite Hzero. Qed.

Lemma calculate_position_runs self capital price :
  (price * stop_loss_pct self / 100 =? 0)%float = false →
  calculate_position self capital price
  = (position ← py_int (capital * risk_percent self / 100
                        / (price * stop_loss_pct self / 100));
     Ok (Z.min position (max_position self))).
Proof. intros Hzero. unfold calculate_position, py_div. by rewrite Hzero. Qed.

(** C7 (as the code has it).  [calculate_position] raises
    [ZeroDivisionError] exactly when the stop-loss amount it computes,
    [price * stop_loss_pct / 100] in binary64, is zero; it is zero when
    the price or the stop-loss percentage is zero and the other is
    finite.  For any other price and percentage, negative ones included,
    nothing is validated: the binary64 quotient of the risk amount by the
    stop-loss amount is truncated towards zero and capped at
    [max_position]; a quotient that is infinite raises [OverflowError],
    one that is [nan] raises [ValueError].  The function reads the
    instance and returns a value; it writes nothing. *)
Theorem calculate_position_sizes self capital price :
  let risk_amount := (capital * risk_percent self / 100)%float in
  let stop_loss_amount := (price * stop_loss_pct self / 100)%float in
  let quotient := (risk_amount / stop_loss_amount)%float in
  ((stop_loss_amount =? 0)%float = true →
     calculate_position self capital price = Raise ZeroDivisionError)
  ∧ ((price =? 0)%float = true → is_finite (stop_loss_pct self) = true →
     calculate_position self capital price = Raise ZeroDivisionError)
  ∧ ((stop_loss_pct self =? 0)%float = true → is_finite price = true →
     calculate_position self capital price = Raise ZeroDivisionError)
  ∧ ((stop_loss_amount =? 0)%float = false →
     calculate_position self capital price
     = match Prim2SF quotient with
       | S754_nan => Raise ValueError
       | S754_infinity _ => Raise OverflowError
       | S754_zero _ => Ok (Z.min 0 (max_position self))
       | S754_finite s m e =>
           let magnitude := Z.shiftl (Z.pos m) e in
           Ok (Z.min (if s then - magnitude else magnitude)
                     (max_position self))
       end).
Proof.
  intros risk_amount stop_loss_amount quotient.
  split; [apply calculate_position_zero_amount|].
  split; [intros; by apply calculate_position_zero_amount, zero_amount_l|].
  split; [intros; by apply calculate_position_zero_amount, zero_amount_r|].
  intros Hnonzero. rewrite calculate_position_runs by done.
  fold risk_amount stop_loss_amount quotient. unfold py_int, truncate.
  by destruct (Prim2SF quotient).
Qed.

Lemma calculate_position_sizes_witness :
  calculate_position initial 100000 0 = Raise ZeroDivisionError
  ∧ calculate_position initial 1000 10 = Ok 40%Z
  ∧ calculate_position initial 100000 10 = Ok 100%Z.
Proof.
  destruct (calculate_position_sizes initial 100000 0) as (_ & Hzero & _).
  destruct (calculate_position_sizes initial 1000 10) as (_ & _ & _ & Hsize).
  destruct (calculate_position_sizes initial 100000 10) as (_ & _ & _ & Hcap).
  split; [apply Hzero; reflexivity|]. split.
  - rewrite Hsize by reflexivity. reflexivity.
  - rewrite Hcap by reflexivity. reflexivity.
Defined.

(** With the class defaults (risk 2 %, stop-loss 5 %, at most 100) and a
    capital of 100000, the price -10 raises nothing: the call returns the
    size -4000.  With a capital of 120 and the price 2 the call returns
    23, one less than the exact quotient 24: the binary64 quotient is
    just below 24. *)
Lemma calculate_position_counterexample :
  (-10 <=? 0)%float = true
  ∧ calculate_position initial 100000 (-10) = Ok (-4000)%Z
  ∧ calculate_position initial 120 2 = Ok 23%Z
  ∧ Int_part (120 * 2 / 100 / (2 * 5 / 100))%R = 24%Z.
Proof.
  split; [reflexivity|]. split; [reflexivity|]. split; [reflexivity|].
  replace (120 * 2 / 100 / (2 * 5 / 100))%R with (IZR 24) by lra.
  apply SizingFacts.Int_part_IZR.
Qed.

(** The sign of a rounded result is the sign it was given. *)
Lemma binary_round_aux_sign mx ex lx :
  let z := binary_round_aux prec emax false mx ex lx in
  z = S754_nan ∨ z = S754_zero false ∨ positive z.
Proof.
  unfold binary_round_aux.
  destruct (shr_fexp prec emax mx ex lx) as [mrs e].
  destruct (shr_fexp prec emax _ e loc_Exact) as [mrs' e'].
  destruct (shr_m mrs') as [|m|m]; [by right; left | | by left].
  destruct (Z.leb e' _); right; right; done.
Qed.

Lemma positive_not_negative x : positive x → not_negative x.
Proof. by destruct x. Qed.

Lemma leb_0_not_negative x : (0 <=? x)%float = true → not_negative (Prim2SF x).
Proof.
  rewrite leb_spec, Prim2SF_0. unfold SFleb, SFcompare.
  destruct (Prim2SF x) as [s|s| |s m e]; try done; by destruct s.
Qed.

Lemma ltb_0_positive x : (0 <? x)%float = true → positive (Prim2SF x).
Proof.
  rewrite ltb_spec, Prim2SF_0. unfold SFltb, SFcompare.
  destruct (Prim2SF x) as [s|s| |s m e]; try done; by destruct s.
Qed.

Lemma mul_not_negative x y :
  not_negative x → not_negative y → not_negative (SF64mul x y).
Proof.
  intros Hx Hy.
  destruct x as [sx|sx| |sx mx ex], y as [sy|sy| |sy my ey];
    simpl in Hx, Hy; subst; try done.
  unfold SF64mul, SFmul. cbn [xorb].
  destruct (binary_round_aux_sign (Z.pos (mx * my)) (ex + ey) loc_Exact)
    as [->|[->|Hpos]]; [done | done | by apply positive_not_negative].
Qed.

Lemma div_not_negative x y :
  not_negative x → y = S754_nan ∨ positive y → not_negative (SF64div x y).
Proof.
  intros Hx [->|Hy]; [by destruct x|].
  destruct x as [sx|sx| |sx mx ex], y as [sy|sy| |sy my ey];
    simpl in Hx, Hy; subst; try done.
  unfold SF64div, SFdiv. cbn [xorb].
  destruct (SFdiv_core_binary prec emax (Z.pos mx) ex (Z.pos my) ey)
    as [[mz ez] lz].
  destruct (binary_round_aux_sign mz ez lz)
    as [->|[->|Hpos]]; [done | done | by apply positive_not_negative].
Qed.

Lemma nonzero_not_negative x :
  (x =? 0)%float = false → not_negative (Prim2SF x) →
  Prim2SF x = S754_nan ∨ positive (Prim2SF x).
Proof.
  intros Hzero Hx.
  destruct (Prim2SF x) as [s|s| |s m e] eqn:Hsf; [|by right|by left|by right].
  assert ((x =? 0)%float = true) by (apply is_zero_spec; by eexists).
  congruence.
Qed.

Lemma truncate_not_negative x n :
  not_negative x → truncate x = Ok n → (0 ≤ n)%Z.
Proof.
  destruct x as [s|s| |s m e]; simpl; try done.
  - intros _ Hn. assert (n = 0%Z) as -> by congruence. done.
  - intros -> Hn.
    assert (n = Z.shiftl (Z.pos m) e) as -> by congruence.
    by apply Z.shiftl_nonneg.
Qed.

(** X16.  For a capital and risk percentage that are not negative and a
    positive price and stop-loss percentage, a size that
    [calculate_position] returns is never negative unless [max_position]
    is, and never above [max_position], whatever the rounding of the four
    operations gives. *)
Theorem calculate_position_between_zero_and_max self capital price size :
  (0 <=? capital)%float = true → (0 <=? risk_percent self)%float = true →
  (0 <? price)%float = true → (0 <? stop_loss_pct self)%float = true →
  calculate_position self capital price = Ok size →
  (size ≤ max_position self)%Z
  ∧ ((0 ≤ max_position self)%Z → (0 ≤ size)%Z).
Proof.
  intros Hcapital%leb_0_not_negative Hrisk%leb_0_not_negative
         Hprice%ltb_0_positive%positive_not_negative
         Hstop%ltb_0_positive%positive_not_negative Hsize.
  destruct (price * stop_loss_pct self / 100 =? 0)%float eqn:Hzero.
  { by rewrite calculate_position_zero_amount in Hsize. }
  rewrite calculate_position_runs in Hsize by done.
  set (risk_amount := (capital * risk_percent self / 100)%float) in *.
  set (stop_loss_amount := (price * stop_loss_pct self / 100)%float) in *.
  destruct (py_int (risk_amount / stop_loss_amount)) as [n|e] eqn:Hn;
    [|done].
  rewrite RiskFacts.result_bind_ok in Hsize.
  assert (size = Z.min n (max_position self)) as -> by congruence.
  split; [lia|]. intros Hmax.
  assert (0 ≤ n)%Z; [|lia].
  apply (truncate_not_negative (Prim2SF (risk_amount / stop_loss_amount)));
    [|done].
  rewrite div_spec. apply div_not_negative.
  - subst risk_amount. rewrite div_spec, mul_spec.
    apply div_not_negative; [by apply mul_not_negative|].
    right. apply Prim2SF_100.
  - apply nonzero_not_negative; [done|].
    subst stop_loss_amount. rewrite div_spec, mul_spec.
    apply div_not_negative; [by apply mul_not_negative|].
    right. apply Prim2SF_100.
Qed.

Lemma calculate_position_between_zero_and_max_witness :
  calculate_position initial 120 2 = Ok 23%Z ∧ (0 ≤ 23 ≤ 100)%Z.
Proof.
  assert (Hsize : calculate_position initial 120 2 = Ok 23%Z) by reflexivity.
  split; [done|].
  destruct (calculate_position_between_zero_and_max initial 120 2 23)
    as [Hmax Hmin]; [reflexivity.. | done |].
  split; [by apply Hmin | done].
Defined.

End Sizing64Facts.
